(** * Google-Safe-Browsing-DNSBL-Generator: hash-prefix pre-filter pipeline

    A shallow embedding of [modules/db_utils.py] and
    [modules/safebrowsing.py].

    - Python [str] is a list of Unicode code points, [bytes] a list of
      octets, both carried by [Z].
    - Python exceptions are the constructors of [exn]; a computation that
      may raise returns a [result].
    - The SQLite files under [databases/] are a finite map from file name
      to the tables the file holds; a table is the list of its rows in
      rowid order.
    - [hashlib.sha256], [str.encode], [base64.b64decode], [struct.pack],
      [socket.inet_ntoa], [str.replace] and [more_itertools.chunked] are
      library code: each is given by the function its documentation
      describes. *)

From Stdlib Require Import ZArith Lia String Ascii.
From stdpp Require Import prelude gmap sorting.

#[local] Open Scope Z_scope.

(** ** Exceptions and results *)

Inductive exn : Set :=
  | ValueError
  | UnicodeEncodeError
  | binascii_Error
  | struct_error
  | OSError
  | JSONDecodeError
  | apsw_Error
  | OverflowError.

Inductive result (A : Type) : Type :=
  | Ok (a : A)
  | Raise (e : exn).
Arguments Ok {A} a.
Arguments Raise {A} e.

#[global] Instance result_ret : MRet result := fun A a => Ok a.
#[global] Instance result_bind : MBind result := fun A B f m =>
  match m with
  | Ok a => f a
  | Raise e => Raise e
  end.
#[global] Instance result_fmap : FMap result := fun A B f m =>
  match m with
  | Ok a => Ok (f a)
  | Raise e => Raise e
  end.

Definition is_Ok {A} (m : result A) : Prop := exists a, m = Ok a.

(** ** Strings and bytes *)

(** A Python [str]: the sequence of its code points. *)
Abbreviation str := (list Z) (only parsing).
(** A Python [bytes] object: octets, each in [0, 256). *)
Abbreviation bytes := (list Z) (only parsing).

(** A literal of the source: every character of the Rocq string is one
    code point (the literals of the program are ASCII). *)
Fixpoint lit (s : string) : str :=
  match s with
  | EmptyString => []
  | String c s' => Z.of_N (N_of_ascii c) :: lit s'
  end.
#[global] Arguments lit : simpl never.

(** [str.encode()] of one code point, UTF-8 with the [strict] error
    handler: surrogates (and values that are no code point) have no
    encoding. *)
Definition utf8_encode_char (c : Z) : result bytes :=
  if c <? 0 then Raise UnicodeEncodeError
  else if c <? 0x80 then Ok [c]
  else if c <? 0x800 then
    Ok [Z.lor 0xC0 (Z.shiftr c 6); Z.lor 0x80 (Z.land c 0x3F)]
  else if c <? 0x10000 then
    if (0xD800 <=? c) && (c <=? 0xDFFF) then Raise UnicodeEncodeError
    else Ok [Z.lor 0xE0 (Z.shiftr c 12);
             Z.lor 0x80 (Z.land (Z.shiftr c 6) 0x3F);
             Z.lor 0x80 (Z.land c 0x3F)]
  else if c <? 0x110000 then
    Ok [Z.lor 0xF0 (Z.shiftr c 18);
        Z.lor 0x80 (Z.land (Z.shiftr c 12) 0x3F);
        Z.lor 0x80 (Z.land (Z.shiftr c 6) 0x3F);
        Z.lor 0x80 (Z.land c 0x3F)]
  else Raise UnicodeEncodeError.

(** [s.encode()]. *)
Fixpoint encode (s : str) : result bytes :=
  match s with
  | [] => Ok []
  | c :: s' =>
      b ← utf8_encode_char c;
      bs ← encode s';
      mret (b ++ bs)
  end.

(** The [n] low-order octets of [x], most significant first
    ([x.to_bytes(n, "big")] for [x] in range). *)
Definition be_bytes (n : nat) (x : Z) : bytes :=
  (fun i => Z.land (Z.shiftr x (8 * Z.of_nat i)) 0xFF) <$> rev (seq 0 n).

(** ** SHA-256 (FIPS 180-4), the function behind [hashlib.sha256] *)

Module SHA256.

Definition wrap (x : Z) : Z := x mod 2 ^ 32.
Definition add32 (x y : Z) : Z := wrap (x + y).
Definition rotr (n x : Z) : Z :=
  wrap (Z.lor (Z.shiftr x n) (Z.shiftl x (32 - n))).
Definition shr (n x : Z) : Z := Z.shiftr x n.
Definition not32 (x : Z) : Z := Z.lxor x 0xFFFFFFFF.

Definition Ch (x y z : Z) : Z :=
  Z.lxor (Z.land x y) (Z.land (not32 x) z).
Definition Maj (x y z : Z) : Z :=
  Z.lxor (Z.lxor (Z.land x y) (Z.land x z)) (Z.land y z).
Definition Sigma0 (x : Z) : Z :=
  Z.lxor (Z.lxor (rotr 2 x) (rotr 13 x)) (rotr 22 x).
Definition Sigma1 (x : Z) : Z :=
  Z.lxor (Z.lxor (rotr 6 x) (rotr 11 x)) (rotr 25 x).
Definition sigma0 (x : Z) : Z :=
  Z.lxor (Z.lxor (rotr 7 x) (rotr 18 x)) (shr 3 x).
Definition sigma1 (x : Z) : Z :=
  Z.lxor (Z.lxor (rotr 17 x) (rotr 19 x)) (shr 10 x).

(** The constants of the standard are fractional parts of roots of the
    first primes; they are computed here rather than tabulated. *)
Definition is_prime (p : Z) : bool :=
  forallb (fun d => negb (p mod d =? 0)) (seqZ 2 (p - 2)).

Definition primes (n : nat) : list Z :=
  take n (filter (fun p => Is_true (is_prime p)) (seqZ 2 400)).

(** The integer cube root of [n]: [r] is built bit by bit from the top. *)
Fixpoint cbrt_from (bit : nat) (n r : Z) : Z :=
  match bit with
  | O => r
  | S bit' =>
      let r' := r + 2 ^ Z.of_nat bit' in
      cbrt_from bit' n (if r' * r' * r' <=? n then r' else r)
  end.

(** The first 32 bits of the fractional part of the cube root and of the
    square root of [p]. *)
Definition frac_cbrt (p : Z) : Z := cbrt_from 40 (p * 2 ^ 96) 0 mod 2 ^ 32.
Definition frac_sqrt (p : Z) : Z := Z.sqrt (p * 2 ^ 64) mod 2 ^ 32.

(** The round constants: from the cube roots of the first 64 primes. *)
Definition K : list Z := Eval vm_compute in frac_cbrt <$> primes 64.

(** The eight working variables / the intermediate hash value. *)
Record state : Set := State {
  sa : Z; sb : Z; sc : Z; sd : Z; se : Z; sf : Z; sg : Z; sh : Z
}.

(** The initial hash value: from the square roots of the first 8 primes. *)
Definition H0 : state :=
  Eval vm_compute in
    match frac_sqrt <$> primes 8 with
    | [a; b; c; d; e; f; g; h] => State a b c d e f g h
    | _ => State 0 0 0 0 0 0 0 0
    end.

(** Message padding: a 1 bit, zeros up to 56 mod 64 bytes, then the bit
    length as a 64-bit big-endian integer. *)
Definition pad (msg : bytes) : bytes :=
  let l := Z.of_nat (length msg) in
  msg ++ [0x80] ++ replicate (Z.to_nat ((55 - l) mod 64)) 0
      ++ be_bytes 8 (8 * l).

(** Big-endian 32-bit words of a byte string. *)
Fixpoint be_words (bs : bytes) : list Z :=
  match bs with
  | a :: b :: c :: d :: r =>
      Z.lor (Z.lor (Z.lor (Z.shiftl a 24) (Z.shiftl b 16)) (Z.shiftl c 8)) d
        :: be_words r
  | _ => []
  end.

(** Message schedule; [rw] holds the words so far, newest first. *)
Fixpoint expand (n : nat) (rw : list Z) : list Z :=
  match n with
  | O => rw
  | S n' =>
      let w :=
        add32 (add32 (add32 (sigma1 (nth 1 rw 0)) (nth 6 rw 0))
                     (sigma0 (nth 14 rw 0)))
              (nth 15 rw 0) in
      expand n' (w :: rw)
  end.

Definition schedule (block : list Z) : list Z :=
  rev (expand 48 (rev block)).

Definition round (s : state) (kw : Z * Z) : state :=
  let t1 :=
    add32 (add32 (add32 (add32 (sh s) (Sigma1 (se s)))
                        (Ch (se s) (sf s) (sg s)))
                 (fst kw))
          (snd kw) in
  let t2 := add32 (Sigma0 (sa s)) (Maj (sa s) (sb s) (sc s)) in
  State (add32 t1 t2) (sa s) (sb s) (sc s)
        (add32 (sd s) t1) (se s) (sf s) (sg s).

Definition compress (h : state) (block : list Z) : state :=
  let s := fold_left round (zip K (schedule block)) h in
  State (add32 (sa h) (sa s)) (add32 (sb h) (sb s))
        (add32 (sc h) (sc s)) (add32 (sd h) (sd s))
        (add32 (se h) (se s)) (add32 (sf h) (sf s))
        (add32 (sg h) (sg s)) (add32 (sh h) (sh s)).

Fixpoint blocks (n : nat) (ws : list Z) (h : state) : state :=
  match n with
  | O => h
  | S n' => blocks n' (drop 16 ws) (compress h (take 16 ws))
  end.

Definition digest_of (h : state) : bytes :=
  be_bytes 4 (sa h) ++ be_bytes 4 (sb h) ++ be_bytes 4 (sc h)
    ++ be_bytes 4 (sd h) ++ be_bytes 4 (se h) ++ be_bytes 4 (sf h)
    ++ be_bytes 4 (sg h) ++ be_bytes 4 (sh h).

(** [hashlib.sha256(msg).digest()]. *)
Definition sha256 (msg : bytes) : bytes :=
  let ws := be_words (pad msg) in
  digest_of (blocks (length ws / 16)%nat ws H0).

End SHA256.


(** ** Library functions on sequences *)

(** [more_itertools.chunked(iterable, n)], that is
    [iter(partial(take, n, iter(iterable)), [])]: take [n] items at a time
    until a take comes back empty.  No more than [length l] takes can be
    non-empty. *)
Fixpoint chunked_takes {A} (takes n : nat) (l : list A) : list (list A) :=
  match takes with
  | O => []
  | S takes' =>
      match take n l with
      | [] => []
      | chunk => chunk :: chunked_takes takes' n (drop n l)
      end
  end.

Definition chunked {A} (n : nat) (l : list A) : list (list A) :=
  chunked_takes (length l) n l.

(** [s.replace(old, new)] for a non-empty [old]: every occurrence of
    [old], found from the left and not overlapping an earlier one, becomes
    [new].  [skip] counts the characters of the current occurrence still
    to be passed over. *)
Fixpoint replace_from (old new : str) (skip : nat) (s : str) : str :=
  match s with
  | [] => []
  | c :: s' =>
      match skip with
      | S k => replace_from old new k s'
      | O =>
          if bool_decide (old `prefix_of` s)
          then new ++ replace_from old new (length old - 1) s'
          else c :: replace_from old new 0 s'
      end
  end.

Definition replace (old new s : str) : str := replace_from old new 0 s.

(** [range(start, stop, step)] *)
Definition range3 (start stop step : Z) : result (list Z) :=
  if step =? 0 then Raise ValueError
  else if 0 <? step then
    Ok ((fun k => start + k * step) <$> seqZ 0 ((stop - start + step - 1) / step))
  else
    Ok ((fun k => start + k * step) <$> seqZ 0 ((start - stop - step - 1) / (- step))).

(** [b[i:j]] for [0 <= i <= j]. *)
Definition slice (b : bytes) (i j : Z) : bytes :=
  take (Z.to_nat (j - i)) (drop (Z.to_nat i) b).

(** Lexicographic order on byte strings, the order of [sorted]. *)
Fixpoint bytes_leb (a b : bytes) : bool :=
  match a, b with
  | [], _ => true
  | _ :: _, [] => false
  | x :: a', y :: b' => (x <? y) || ((x =? y) && bytes_leb a' b')
  end.

Definition sorted (l : list bytes) : list bytes :=
  merge_sort (fun a b => Is_true (bytes_leb a b)) l.

(** [s.encode("ascii")] *)
Definition encode_ascii (s : str) : result bytes :=
  if forallb (fun c => (0 <=? c) && (c <? 128)) s then Ok s
  else Raise UnicodeEncodeError.

(** *** [base64.b64decode], that is [binascii.a2b_base64] without
    [strict_mode] *)

Definition b64_value (ch : Z) : option Z :=
  if (65 <=? ch) && (ch <=? 90) then Some (ch - 65)
  else if (97 <=? ch) && (ch <=? 122) then Some (ch - 71)
  else if (48 <=? ch) && (ch <=? 57) then Some (ch + 4)
  else if ch =? 43 then Some 62
  else if ch =? 47 then Some 63
  else None.

(** The decoding loop: characters outside the alphabet are passed over, a
    complete run of [=] ends the data, and input that stops inside a
    quad raises [binascii.Error]. *)
Fixpoint a2b_base64_from (data : bytes) (quad_pos : nat) (leftchar : Z)
    (pads : nat) (out : bytes) : result bytes :=
  match data with
  | [] =>
      match quad_pos with
      | O => Ok out
      | _ => Raise binascii_Error
      end
  | this_ch :: data' =>
      if this_ch =? 61 then
        if (2 <=? quad_pos)%nat && (4 <=? quad_pos + S pads)%nat then Ok out
        else
          a2b_base64_from data' quad_pos leftchar
            (if (2 <=? quad_pos)%nat then S pads else pads) out
      else
        match b64_value this_ch with
        | None => a2b_base64_from data' quad_pos leftchar pads out
        | Some v =>
            match quad_pos with
            | 0%nat => a2b_base64_from data' 1 v 0 out
            | 1%nat =>
                a2b_base64_from data' 2 (Z.land v 0x0f) 0
                  (out ++ [Z.lor (Z.shiftl leftchar 2) (Z.shiftr v 4)])
            | 2%nat =>
                a2b_base64_from data' 3 (Z.land v 0x03) 0
                  (out ++ [Z.lor (Z.shiftl leftchar 4) (Z.shiftr v 2)])
            | _ =>
                a2b_base64_from data' 0 0 0
                  (out ++ [Z.lor (Z.shiftl leftchar 6) v])
            end
        end
  end.

Definition b64decode (s : bytes) : result bytes := a2b_base64_from s 0 0 0 [].

(** *** [struct.pack("!I", x)] and [socket.inet_ntoa] *)

Definition struct_pack_I (x : Z) : result bytes :=
  if (0 <=? x) && (x <? 2 ^ 32) then Ok (be_bytes 4 x)
  else Raise struct_error.

(** The decimal digits of an octet, as [%d] prints them: no leading
    zeros, at most three digits. *)
Fixpoint decimal_from (digits : nat) (n : Z) (acc : str) : str :=
  match digits with
  | O => acc
  | S digits' =>
      let acc' := (48 + n mod 10) :: acc in
      if n <? 10 then acc' else decimal_from digits' (n / 10) acc'
  end.

Definition decimal (n : Z) : str := decimal_from 3 n [].

Definition dotted_quad (a b c d : Z) : str :=
  decimal a ++ lit "." ++ decimal b ++ lit "." ++ decimal c ++ lit "."
    ++ decimal d.

Definition inet_ntoa (packed_ip : bytes) : result str :=
  match packed_ip with
  | [a; b; c; d] => Ok (dotted_quad a b c d)
  | _ => Raise OSError
  end.

(** ** The Safe Browsing API, as far as the helper class reads it *)

(** The body of a [threatMatches:find] request. *)
Record ThreatMatchesPayload : Type := {
  client : str * str;
  threatTypes : list str;
  platformTypes : list str;
  threatEntryTypes : list str;
  threatEntries : list str   (* the ["url"] of each entry *)
}.

(** One element of ["matches"]; [threat_url x] is [x["threat"]["url"]]. *)
Record ThreatMatch : Type := { threat_url : str }.

(** The dictionary of a [threatMatches:find] answer: the key ["matches"]
    is there or not. *)
Record ThreatMatchesBody : Type := { matches : option (list ThreatMatch) }.

(** A [requests.Response]; [json] is what [res.json()] does. *)
Record Response : Type := { json : result ThreatMatchesBody }.

(** [requests.Response()]: there is no body to parse. *)
Definition empty_Response : Response := {| json := Raise JSONDecodeError |}.

(** [addition["rawHashes"]] *)
Record RawHashes : Type := { prefixSize : Z; rawHashes : str }.
(** One element of ["additions"]. *)
Record Addition : Type := { addition_rawHashes : RawHashes }.
(** One element of ["listUpdateResponses"]. *)
Record ListUpdateResponse : Type := { additions : list Addition }.
(** The dictionary of a [threatListUpdates:fetch] answer. *)
Record ThreatListUpdates : Type := {
  listUpdateResponses : option (list ListUpdateResponse);
  minimumWaitDuration : str
}.

(** ** The SQLite files *)

(** A row of a [urls] table.  The table of the [ipv4] file has no
    [lastListed] column; its rows carry [None] there. *)
Module urls.
Record row : Type := Row {
  rowid : Z;
  url : str;
  lastListed : option Z;
  lastGoogleMalicious : option Z;
  lastYandexMalicious : option Z;
  hash : bytes
}.
End urls.

(** A row of the [maliciousHashPrefixes] table. *)
Module maliciousHashPrefixes.
Record row : Type := Row {
  hashPrefix : bytes;
  prefixSize : Z;
  vendor : str
}.
End maliciousHashPrefixes.

(** The two [CREATE TABLE urls] statements: [create_urls_table] declares
    [url text UNIQUE] and a [lastListed] column, [create_ips_table]
    neither. *)
Inductive schema : Set := feed_schema | ips_schema.

#[global] Instance schema_eq_dec : EqDecision schema.
Proof. solve_decision. Defined.

Record urls_table : Type := UrlsTable {
  urls_schema : schema;
  urls_rows : list urls.row
}.

(** One database file: each table is there or not. *)
Record database : Type := Database {
  tbl_urls : option urls_table;
  tbl_maliciousHashPrefixes : option (list maliciousHashPrefixes.row)
}.

(** What the program acts on: the [databases/] folder, the connections
    opened so far and the [threatMatches:find] requests posted so far,
    oldest first.  A file that does not exist yet is an empty database:
    [apsw.Connection] creates it. *)
Record world : Type := World {
  databases : gmap str database;
  connections : list str;
  posts : list (str * ThreatMatchesPayload)
}.

Definition db_of (w : world) (filename : str) : database :=
  default (Database None None) (databases w !! filename).

Definition commit (filename : str) (db : database) (w : world) : world :=
  World (<[filename := db]> (databases w)) (connections w) (posts w).

(** Code that runs against the world: it may raise, and what it did
    before raising stays done. *)
Definition M (A : Type) : Type := world -> result A * world.

#[global] Instance M_ret : MRet M := fun A a w => (Ok a, w).
#[global] Instance M_bind : MBind M := fun A B f m w =>
  match m w with
  | (Ok a, w') => f a w'
  | (Raise e, w') => (Raise e, w')
  end.

Definition raise {A} (e : exn) : M A := fun w => (Raise e, w).

(** Code that only computes. *)
Definition pure_ {A} (r : result A) : M A := fun w => (r, w).

(** Statements run on a cursor inside one transaction. *)
Definition T (A : Type) : Type := database -> result (A * database).

#[global] Instance T_ret : MRet T := fun A a db => Ok (a, db).
#[global] Instance T_bind : MBind T := fun A B f m db =>
  match m db with
  | Ok (a, db') => f a db'
  | Raise e => Raise e
  end.

(** A Python exception raised among the statements. *)
Definition lift {A} (r : result A) : T A := fun db =>
  match r with
  | Ok a => Ok (a, db)
  | Raise e => Raise e
  end.

(** [with conn: ...]: commit when the block ends, roll back when it
    raises. *)
Definition with_conn {A} (conn : str) (body : T A) : M A := fun w =>
  match body (db_of w conn) with
  | Ok (a, db') => (Ok a, commit conn db' w)
  | Raise e => (Raise e, w)
  end.

(** [x = x0; try: x = ... except Error as e: logging.error(...)]: an
    [apsw.Error] ends the block, is logged, and leaves [x] as it was; any
    other exception goes on. *)
Definition try_except_Error {A} (x0 : A) (body : M A) : M A := fun w =>
  match body w with
  | (Raise apsw_Error, w') => (Ok x0, w')
  | r => r
  end.

(** [for x in l: body] inside a transaction, and [executemany] over a
    generator. *)
Fixpoint for_ {A} (l : list A) (body : A -> T unit) : T unit :=
  match l with
  | [] => mret ()
  | x :: l' => body x;; for_ l' body
  end.

(** [for x in l: body] on a local variable [s]. *)
Fixpoint for_acc {A S} (l : list A) (body : A -> S -> result S) (s : S)
  : result S :=
  match l with
  | [] => Ok s
  | x :: l' => s' ← body x s; for_acc l' body s'
  end.

(** [for x in l: body] outside. *)
Fixpoint for_M {A} (l : list A) (body : A -> M unit) : M unit :=
  match l with
  | [] => mret ()
  | x :: l' => body x;; for_M l' body
  end.

(** Modelled from the spec: [modules/ray_utils.py] is not among the
    sources.  [execute_with_ray] hands one task per argument tuple to a
    pool of workers and collects what the tasks return (spec 4.4, 4.7 and
    5).  Here the tasks run one after the other and the list of results
    comes in the order of the arguments.  The spec leaves the order in
    which the results are collected open (spec 5), so the theorems below
    that speak of a list of collected results speak of it up to its
    order. *)
Fixpoint execute_with_ray {A B} (task : A -> M B) (args : list A)
  : M (list B) :=
  match args with
  | [] => mret []
  | a :: args' =>
      b ← task a;
      bs ← execute_with_ray task args';
      mret (b :: bs)
  end.

(** *** SQL values *)

(** [MAX(column)]: the largest non-NULL value, NULL when there is none. *)
Definition sql_max (vs : list (option Z)) : option Z :=
  foldr (fun v acc =>
           match v, acc with
           | Some x, Some y => Some (Z.max x y)
           | Some x, None => Some x
           | None, _ => acc
           end) None vs.

(** [a = b] and [p OR q] in SQL's three-valued logic; a WHERE clause keeps
    the rows on which it is true. *)
Definition sql_eq (a b : option Z) : option bool :=
  match a, b with
  | Some x, Some y => Some (x =? y)
  | _, _ => None
  end.

Definition sql_or (p q : option bool) : option bool :=
  match p, q with
  | Some true, _ | _, Some true => Some true
  | Some false, Some false => Some false
  | _, _ => None
  end.

Definition sql_where (p : option bool) : bool :=
  match p with
  | Some true => true
  | _ => false
  end.

(** The integers SQLite holds and a statement can be given: 64 bits,
    signed.  Binding a Python [int] outside this range raises
    [OverflowError] before the statement runs. *)
Definition int64 (n : Z) : bool := (- 2 ^ 63 <=? n) && (n <? 2 ^ 63).

(** The lengths [substring] reads as they are: SQLite takes the third
    argument of [substring] as a 32-bit signed integer. *)
Definition int32 (n : Z) : bool := (- 2 ^ 31 <=? n) && (n <? 2 ^ 31).

(** [substring(X, 1, n)] of a blob, for a length [n] with [int32 n]: its
    first [n] bytes, none when [n] is negative.  (Of a larger [n] SQLite
    reads the low 32 bits; the statements below give [substring] only
    lengths with [int32 n], or the lengths of stored blobs.) *)
Definition substring_1 (x : bytes) (n : Z) : bytes := take (Z.to_nat n) x.

Definition max_rowid (rows : list urls.row) : option Z :=
  sql_max ((fun r => Some (urls.rowid r)) <$> rows).

(** The rowid SQLite gives to an inserted row: one more than the largest
    in the table. *)
Definition next_rowid (rows : list urls.row) : Z :=
  match max_rowid rows with
  | Some m => m + 1
  | None => 1
  end.

(** A statement on the [urls] table; without the table it fails
    ("no such table"). *)
Definition on_urls {A} (f : urls_table -> result (A * urls_table)) : T A :=
  fun db =>
    match tbl_urls db with
    | None => Raise apsw_Error
    | Some t =>
        match f t with
        | Ok (a, t') => Ok (a, Database (Some t') (tbl_maliciousHashPrefixes db))
        | Raise e => Raise e
        end
    end.

(** A statement on the [maliciousHashPrefixes] table. *)
Definition on_maliciousHashPrefixes {A}
    (f : list maliciousHashPrefixes.row ->
         result (A * list maliciousHashPrefixes.row)) : T A :=
  fun db =>
    match tbl_maliciousHashPrefixes db with
    | None => Raise apsw_Error
    | Some t =>
        match f t with
        | Ok (a, t') => Ok (a, Database (tbl_urls db) (Some t'))
        | Raise e => Raise e
        end
    end.

(** ** [db_utils.py] *)

(** The connection to [databases/{filename}.db], named by its file.  Opening
    it is recorded; the two PRAGMAs (write-ahead log, auto-vacuum) change
    no table. *)
Definition create_connection (filename : str) : M str := fun w =>
  (Ok filename, World (databases w) (connections w ++ [filename]) (posts w)).

(** [conn.close()] *)
Definition close (conn : str) : M unit := mret ().

(** [CREATE TABLE IF NOT EXISTS urls (...)] *)
Definition sql_create_urls (s : schema) : T unit := fun db =>
  match tbl_urls db with
  | Some _ => Ok ((), db)
  | None =>
      Ok ((), Database (Some (UrlsTable s [])) (tbl_maliciousHashPrefixes db))
  end.

(** [CREATE TABLE IF NOT EXISTS maliciousHashPrefixes (...)] *)
Definition sql_create_maliciousHashPrefixes : T unit := fun db =>
  match tbl_maliciousHashPrefixes db with
  | Some _ => Ok ((), db)
  | None => Ok ((), Database (tbl_urls db) (Some []))
  end.

Definition create_ips_table (filename : str) : M unit :=
  conn ← create_connection filename;
  try_except_Error () (with_conn conn (sql_create_urls ips_schema));;
  close conn.

Definition create_urls_table (filename : str) : M unit :=
  conn ← create_connection filename;
  try_except_Error () (with_conn conn (sql_create_urls feed_schema));;
  close conn.

(** [sha256(f"{url}/".encode()).digest()] *)
Definition compute_url_hash (url : str) : result bytes :=
  b ← encode (url ++ lit "/");
  mret (SHA256.sha256 b).

Definition int_addr_to_ip_and_hash (int_addr : Z) : result (str * bytes) :=
  packed ← struct_pack_I int_addr;
  ip ← inet_ntoa packed;
  hash ← compute_url_hash ip;
  mret (ip, hash).

(** [SELECT MAX(_rowid_) FROM urls] *)
Definition sql_select_max_rowid : T (option Z) :=
  on_urls (fun t => Ok (max_rowid (urls_rows t), t)).

(** [DELETE FROM urls] *)
Definition sql_delete_urls : T unit :=
  on_urls (fun t => Ok ((), UrlsTable (urls_schema t) [])).

(** [INSERT INTO urls (url,hash) VALUES (?,?)]; under [url text UNIQUE] a
    url already in the table is a constraint error. *)
Definition sql_insert_url_hash (p : str * bytes) : T unit :=
  on_urls (fun t =>
    if bool_decide (urls_schema t = feed_schema
                    /\ p.1 ∈ urls.url <$> urls_rows t)
    then Raise apsw_Error
    else
      Ok ((), UrlsTable (urls_schema t)
                (urls_rows t ++
                 [urls.Row (next_rowid (urls_rows t)) p.1 None None None p.2]))).

Definition ips_to_generate : Z := 2 ^ 32.

Definition add_IPs (filename : str) : M unit :=
  conn ← create_connection filename;
  try_except_Error ()
    (number_of_ipv4_addresses ← with_conn conn sql_select_max_rowid;
     if bool_decide (number_of_ipv4_addresses ≠ Some ips_to_generate) then
       with_conn conn sql_delete_urls;;
       with_conn conn
         (for_ (seqZ 0 ips_to_generate) (fun int_addr =>
            p ← lift (int_addr_to_ip_and_hash int_addr);
            sql_insert_url_hash p))
     else mret ());;
  close conn.

(** [INSERT INTO urls (url, lastListed, hash) VALUES (?,?,?)
     ON CONFLICT(url) DO UPDATE SET lastListed=excluded.lastListed];
    a table without [UNIQUE] on [url] has no conflict target, and the
    statement is refused when it is prepared.  The values are bound after
    that: a [lastListed] outside the 64-bit range raises [OverflowError]
    (no [apsw.Error]) and the row is not written. *)
Definition sql_upsert_url (p : str * Z * bytes) : T unit :=
  on_urls (fun t =>
    let '(url, lastListed, hash) := p in
    match urls_schema t with
    | ips_schema => Raise apsw_Error
    | feed_schema =>
        if negb (int64 lastListed) then Raise OverflowError
        else if bool_decide (url ∈ urls.url <$> urls_rows t) then
          Ok ((), UrlsTable feed_schema
                    ((fun r =>
                        if bool_decide (urls.url r = url)
                        then urls.Row (urls.rowid r) (urls.url r)
                               (Some lastListed)
                               (urls.lastGoogleMalicious r)
                               (urls.lastYandexMalicious r) (urls.hash r)
                        else r) <$> urls_rows t))
        else
          Ok ((), UrlsTable feed_schema
                    (urls_rows t ++
                     [urls.Row (next_rowid (urls_rows t)) url
                        (Some lastListed) None None hash]))
    end).

Definition add_URLs (url_list_fetcher : option str -> list (list str))
    (updateTime : Z) (filename : str) (filepath : option str) : M unit :=
  let urls :=
    match filepath with
    | None => url_list_fetcher None
    | Some path => url_list_fetcher (Some path)
    end in
  let lastListed := updateTime in
  conn ← create_connection filename;
  try_except_Error ()
    (with_conn conn
       (for_ urls (fun url_batch =>
          for_ url_batch (fun url =>
            hash ← lift (compute_url_hash url);
            sql_upsert_url (url, lastListed, hash)))));;
  close conn.

(** [DELETE FROM maliciousHashPrefixes WHERE vendor = ?] *)
Definition sql_delete_vendor (vendor : str) : T unit :=
  on_maliciousHashPrefixes (fun t =>
    Ok ((), filter (fun r => maliciousHashPrefixes.vendor r ≠ vendor) t)).

(** [INSERT INTO maliciousHashPrefixes (hashPrefix,prefixSize,vendor)
     VALUES (?, ?, ?)] *)
Definition sql_insert_hashPrefix (p : bytes * Z * str) : T unit :=
  on_maliciousHashPrefixes (fun t =>
    let '(hashPrefix, prefixSize, vendor) := p in
    Ok ((), t ++ [maliciousHashPrefixes.Row hashPrefix prefixSize vendor])).

Definition add_maliciousHashPrefixes (hash_prefixes : gset bytes)
    (vendor : str) : M unit :=
  conn ← create_connection (lit "malicious");
  try_except_Error ()
    (with_conn conn
       (sql_delete_vendor vendor;;
        for_ (elements hash_prefixes) (fun hashPrefix =>
          sql_insert_hashPrefix
            (hashPrefix, Z.of_nat (length hashPrefix), vendor))));;
  close conn.

(** [SELECT url FROM urls WHERE substring(urls.hash,1,?) IN
     (SELECT hashPrefix FROM malicious.maliciousHashPrefixes
      WHERE vendor = ?)], with the file [malicious] attached.  The
    statement is modelled for the sizes [substring] reads as they are,
    [int32 prefixSize], and for the sizes stored in the table, the lengths
    of blobs; the statements below give it no other size. *)
Definition sql_select_matching (malicious : database) (prefixSize : Z)
    (vendor : str) : T (list str) :=
  on_urls (fun t =>
    match tbl_maliciousHashPrefixes malicious with
    | None => Raise apsw_Error
    | Some prefixes =>
        Ok (urls.url <$>
              filter (fun r =>
                        substring_1 (urls.hash r) prefixSize
                        ∈ maliciousHashPrefixes.hashPrefix <$>
                            filter (fun p =>
                                      maliciousHashPrefixes.vendor p = vendor)
                                   prefixes)
                     (urls_rows t),
            t)
    end).

(** [ATTACH database 'databases/malicious.db' as malicious] gives the
    statements of the block the tables of that file. *)
Definition with_conn_attached {A} (conn : str) (attached : str)
    (body : database -> T A) : M A := fun w =>
  with_conn conn (body (db_of w attached)) w.

(** [DETACH database malicious] *)
Definition sql_detach : T unit := mret ().

Definition get_matching_hashPrefix_urls (args : str * Z * str)
  : M (list str) :=
  let '(filename, prefixSize, vendor) := args in
  conn ← create_connection filename;
  urls ← try_except_Error []
    (urls ← with_conn_attached conn (lit "malicious") (fun malicious =>
       sql_select_matching malicious prefixSize vendor);
     with_conn conn sql_detach;;
     mret urls);
  close conn;;
  mret urls.

(** [SELECT DISTINCT prefixSize FROM maliciousHashPrefixes
     WHERE vendor = ?] *)
Definition sql_select_prefixSizes (vendor : str) : T (list Z) :=
  on_maliciousHashPrefixes (fun t =>
    Ok (remove_dups
          (maliciousHashPrefixes.prefixSize <$>
             filter (fun r => maliciousHashPrefixes.vendor r = vendor) t),
        t)).

Definition retrieve_vendor_prefixSizes (vendor : str) : M (list Z) :=
  conn ← create_connection (lit "malicious");
  prefixSizes ← try_except_Error []
    (with_conn conn (sql_select_prefixSizes vendor));
  close conn;;
  mret prefixSizes.

Definition identify_suspected_urls (vendor filename : str)
    (prefixSizes : list Z) : M (list str) :=
  conn ← create_connection filename;
  suspected_urls ← try_except_Error []
    (results ← execute_with_ray get_matching_hashPrefix_urls
                 ((fun prefixSize => (filename, prefixSize, vendor))
                    <$> prefixSizes);
     mret (concat results));
  close conn;;
  mret suspected_urls.

Definition create_maliciousHashPrefixes_table : M unit :=
  conn ← create_connection (lit "malicious");
  try_except_Error () (with_conn conn sql_create_maliciousHashPrefixes);;
  close conn.

Definition initialise_database (urls_filenames : list str) : M unit :=
  execute_with_ray create_urls_table urls_filenames;;
  create_ips_table (lit "ipv4");;
  create_maliciousHashPrefixes_table.

Definition vendorToColumn : gmap str str :=
  <[lit "Google" := lit "lastGoogleMalicious"]>
    (<[lit "Yandex" := lit "lastYandexMalicious"]> ∅).

(** [UPDATE urls SET {column} = ? WHERE url IN (?,...,?)].  A table
    or column that is not there is refused when the statement is
    prepared; the values are bound after that, and an [updateTime] outside
    the 64-bit range raises [OverflowError] (no [apsw.Error]): no row is
    updated. *)
Definition sql_update_flag (column : str) (updateTime : Z)
    (malicious_url_batch : list str) : T unit :=
  on_urls (fun t =>
    if bool_decide (column = lit "lastGoogleMalicious") then
      if negb (int64 updateTime) then Raise OverflowError
      else
      Ok ((), UrlsTable (urls_schema t)
                ((fun r =>
                    if bool_decide (urls.url r ∈ malicious_url_batch)
                    then urls.Row (urls.rowid r) (urls.url r)
                           (urls.lastListed r) (Some updateTime)
                           (urls.lastYandexMalicious r) (urls.hash r)
                    else r) <$> urls_rows t))
    else if bool_decide (column = lit "lastYandexMalicious") then
      if negb (int64 updateTime) then Raise OverflowError
      else
      Ok ((), UrlsTable (urls_schema t)
                ((fun r =>
                    if bool_decide (urls.url r ∈ malicious_url_batch)
                    then urls.Row (urls.rowid r) (urls.url r)
                           (urls.lastListed r) (urls.lastGoogleMalicious r)
                           (Some updateTime) (urls.hash r)
                    else r) <$> urls_rows t))
    else Raise apsw_Error).

Definition update_malicious_URLs (updateTime : Z) (vendor filename : str)
    (malicious_urls : list str) : M unit :=
  match vendorToColumn !! vendor with
  | None => raise ValueError
  | Some column =>
      conn ← create_connection filename;
      try_except_Error ()
        (let batch_size := 30000 in
         let malicious_url_batches :=
           chunked (Z.to_nat batch_size) malicious_urls in
         for_M malicious_url_batches (fun malicious_url_batch =>
           with_conn conn
             (sql_update_flag column updateTime malicious_url_batch)));;
      close conn
  end.

(** [SELECT MAX(lastGoogleMalicious) FROM urls] *)
Definition sql_select_max_lastGoogleMalicious : T (option Z) :=
  on_urls (fun t => Ok (sql_max (urls.lastGoogleMalicious <$> urls_rows t), t)).

(** [SELECT MAX(lastYandexMalicious) FROM urls] *)
Definition sql_select_max_lastYandexMalicious : T (option Z) :=
  on_urls (fun t => Ok (sql_max (urls.lastYandexMalicious <$> urls_rows t), t)).

(** [SELECT url FROM urls
     WHERE lastGoogleMalicious = ? OR lastYandexMalicious = ?] *)
Definition sql_select_flagged (lastGoogleMalicious lastYandexMalicious : option Z)
  : T (list str) :=
  on_urls (fun t =>
    Ok (urls.url <$>
          filter (fun r =>
                    Is_true (sql_where
                      (sql_or
                         (sql_eq (urls.lastGoogleMalicious r) lastGoogleMalicious)
                         (sql_eq (urls.lastYandexMalicious r) lastYandexMalicious))))
                 (urls_rows t),
        t)).

Definition retrieve_malicious_URLs_ (filename : str) : M (gset str) :=
  conn ← create_connection filename;
  malicious_urls ← try_except_Error ∅
    (with_conn conn
       (lastGoogleMalicious ← sql_select_max_lastGoogleMalicious;
        lastYandexMalicious ← sql_select_max_lastYandexMalicious;
        rows ← sql_select_flagged lastGoogleMalicious lastYandexMalicious;
        mret (list_to_set rows)));
  close conn;;
  mret malicious_urls.

Definition retrieve_malicious_URLs (urls_filenames : list str) : M (list str) :=
  sets ← execute_with_ray retrieve_malicious_URLs_ urls_filenames;
  mret (elements (⋃ sets)).

(** ** [safebrowsing.py] *)

Module SafeBrowsing.

(** The attributes [__init__] sets. *)
Record t : Type := {
  vendor : str;
  threatMatchesEndpoint : str;
  threatListsEndpoint : str;
  threatListUpdatesEndpoint : str;
  maximum_url_batch_size : Z
}.

Section api.

(** The two keys read from [.env]. *)
Variables GOOGLE_API_KEY YANDEX_API_KEY : str.

(** Modelled from the spec: [modules/requests_utils.py] is not among the
    sources.  [post_with_retries(endpoint, data)] posts [data] through a
    wrapper that retries a bounded number of times (spec 4.6).  What comes
    back is the server's, so it is a parameter here; [None] stands for the
    [requests.exceptions.RequestException] the caller catches. *)
Variable post_with_retries : str -> ThreatMatchesPayload -> option Response.

Definition __init__ (vendor : str) : result t :=
  if bool_decide (vendor = lit "Google") then
    let endpoint_prefix := lit "https://safebrowsing.googleapis.com/v4/" in
    Ok {| vendor := vendor;
          threatMatchesEndpoint :=
            endpoint_prefix ++ lit "threatMatches:find?key=" ++ GOOGLE_API_KEY;
          threatListsEndpoint :=
            endpoint_prefix ++ lit "threatLists?key=" ++ GOOGLE_API_KEY;
          threatListUpdatesEndpoint :=
            endpoint_prefix ++ lit "threatListUpdates:fetch?key="
              ++ GOOGLE_API_KEY;
          maximum_url_batch_size := 500 |}
  else if bool_decide (vendor = lit "Yandex") then
    let endpoint_prefix := lit "https://sba.yandex.net/v4/" in
    Ok {| vendor := vendor;
          threatMatchesEndpoint :=
            endpoint_prefix ++ lit "threatMatches:find?key=" ++ YANDEX_API_KEY;
          threatListsEndpoint :=
            endpoint_prefix ++ lit "threatLists?key=" ++ YANDEX_API_KEY;
          threatListUpdatesEndpoint :=
            endpoint_prefix ++ lit "threatListUpdates:fetch?key="
              ++ YANDEX_API_KEY;
          maximum_url_batch_size := 200 |}
  else Raise ValueError.

Definition _threat_matches_payload (url_list : list str)
  : ThreatMatchesPayload :=
  {| client := (lit "yourcompanyname", lit "1.5.2");
     threatTypes :=
       [lit "THREAT_TYPE_UNSPECIFIED"; lit "MALWARE";
        lit "SOCIAL_ENGINEERING"; lit "UNWANTED_SOFTWARE";
        lit "POTENTIALLY_HARMFUL_APPLICATION"];
     platformTypes :=
       [lit "PLATFORM_TYPE_UNSPECIFIED"; lit "WINDOWS"; lit "LINUX";
        lit "ANDROID"; lit "OSX"; lit "IOS"; lit "ANY_PLATFORM";
        lit "ALL_PLATFORMS"; lit "CHROME"];
     threatEntryTypes :=
       [lit "THREAT_ENTRY_TYPE_UNSPECIFIED"; lit "URL"; lit "EXECUTABLE"];
     threatEntries := (fun url => lit "http://" ++ url) <$> url_list |}.

(** One POST to the [threatMatches] endpoint; a
    [requests.exceptions.RequestException] leaves an empty [Response].
    The two seconds of sleep after the request are not part of the
    model. *)
Definition _threat_matches_lookup (self : t) (url_batch : list str)
  : M Response := fun w =>
  let data := _threat_matches_payload url_batch in
  let w' :=
    World (databases w) (connections w)
          (posts w ++ [(threatMatchesEndpoint self, data)]) in
  match post_with_retries (threatMatchesEndpoint self) data with
  | Some res => (Ok res, w')
  | None => (Ok empty_Response, w')
  end.

(** [-(-len(urls) // self.maximum_url_batch_size)], the number of batches
    the method logs. *)
Definition batches_logged (self : t) (urls : gset str) : Z :=
  - (- Z.of_nat (size urls) / maximum_url_batch_size self).

(** The chain of [res.json()["matches"]] over the [res] in [results] with
    ["matches" in res.json()]. *)
Fixpoint chain_matches (results : list Response) : result (list ThreatMatch) :=
  match results with
  | [] => Ok []
  | res :: results' =>
      body ← json res;
      rest ← chain_matches results';
      mret (match matches body with
            | Some ms => ms ++ rest
            | None => rest
            end)
  end.

(** [x["threat"]["url"].replace("https://", "").replace("http://", "")] *)
Definition strip_schemes (x : ThreatMatch) : str :=
  replace (lit "http://") [] (replace (lit "https://") [] (threat_url x)).

Definition get_malicious_urls (self : t) (urls : gset str) : M (list str) :=
  let url_batches :=
    chunked (Z.to_nat (maximum_url_batch_size self)) (elements urls) in
  results ← execute_with_ray (_threat_matches_lookup self) url_batches;
  malicious ← pure_ (chain_matches results);
  let malicious_urls : gset str := list_to_set (strip_schemes <$> malicious) in
  mret (elements malicious_urls).

(** The end of [_retrieve_threat_list_updates]: from the dictionary of the
    server's answer to [threatListUpdates:fetch], [None] (the empty
    dictionary) when it has no ["listUpdateResponses"], the dictionary
    itself otherwise.  The two requests the method sends before are not
    modelled. *)
Definition _retrieve_threat_list_updates (res_json : ThreatListUpdates)
  : option ThreatListUpdates :=
  match listUpdateResponses res_json with
  | None => None
  | Some _ => Some res_json
  end.

(** The body of the inner loop: the hash prefixes of one addition. *)
Definition hashes_list (addition : Addition) : result (list bytes) :=
  let raw_hash_prefixes_ := addition_rawHashes addition in
  let prefix_size := prefixSize raw_hash_prefixes_ in
  ascii ← encode_ascii (rawHashes raw_hash_prefixes_);
  raw_hash_prefixes ← b64decode ascii;
  starts ← range3 0 (Z.of_nat (length raw_hash_prefixes)) prefix_size;
  mret (sorted ((fun i => slice raw_hash_prefixes i (i + prefix_size))
                  <$> starts)).

(** [answer] is the dictionary the server sent for
    [threatListUpdates:fetch]. *)
Definition get_malicious_url_hash_prefixes (self : t)
    (answer : ThreatListUpdates) : result (gset bytes) :=
  match _retrieve_threat_list_updates answer with
  | None => Ok ∅
  | Some res_json =>
      let list_update_responses := default [] (listUpdateResponses res_json) in
      for_acc list_update_responses (fun list_update_response hash_prefixes =>
        for_acc (additions list_update_response) (fun addition hash_prefixes =>
          l ← hashes_list addition;
          mret (hash_prefixes ∪ list_to_set l))
          hash_prefixes)
        ∅
  end.

(** The request [_threat_matches_lookup] posts for a batch, and the
    [Response] it returns. *)
Definition post_of (self : t) (url_batch : list str)
  : str * ThreatMatchesPayload :=
  (threatMatchesEndpoint self, _threat_matches_payload url_batch).

Definition answer_of (self : t) (url_batch : list str) : Response :=
  default empty_Response
    (post_with_retries (threatMatchesEndpoint self)
       (_threat_matches_payload url_batch)).

(** Decoding the [rawHashes] text of an addition. *)
Definition decode_rawHashes (addition : Addition) : result bytes :=
  ascii ← encode_ascii (rawHashes (addition_rawHashes addition));
  b64decode ascii.

End api.

End SafeBrowsing.

(** ** Vocabulary of the statements *)

(** Code points [str.encode()] accepts: all but the surrogates. *)
Definition scalar_value (c : Z) : bool :=
  ((0 <=? c) && (c <? 0xD800)) || ((0xE000 <=? c) && (c <? 0x110000)).

Definition encodable (s : str) : bool := forallb scalar_value s.

(** The hash [compute_url_hash] returns, where it returns one. *)
Definition hash_of (url : str) : bytes :=
  match compute_url_hash url with
  | Ok h => h
  | Raise _ => []
  end.

(** Both worlds hold the same tables in every file. *)
Definition same_files (w w' : world) : Prop :=
  forall filename, db_of w' filename = db_of w filename.

(** The rows of the [urls] table of a file. *)
Definition rows_of (w : world) (filename : str) : list urls.row :=
  match tbl_urls (db_of w filename) with
  | Some t => urls_rows t
  | None => []
  end.

(** The rows of the [maliciousHashPrefixes] table. *)
Definition prefixes_of (w : world) : list maliciousHashPrefixes.row :=
  default [] (tbl_maliciousHashPrefixes (db_of w (lit "malicious"))).

(** Neither vendor column of the row is set. *)
Definition unflagged (r : urls.row) : bool :=
  match urls.lastGoogleMalicious r, urls.lastYandexMalicious r with
  | None, None => true
  | _, _ => false
  end.

Definition never_flagged (w : world) (urls_filenames : list str) : bool :=
  forallb (fun filename =>
             match tbl_urls (db_of w filename) with
             | None => true
             | Some t => forallb unflagged (urls_rows t)
             end) urls_filenames.

(** Invariant P1 on a row: [prefixSize] is the length of [hashPrefix]. *)
Definition prefix_ok (r : maliciousHashPrefixes.row) : bool :=
  maliciousHashPrefixes.prefixSize r
  =? Z.of_nat (length (maliciousHashPrefixes.hashPrefix r)).

(** The rows [add_maliciousHashPrefixes] inserts. *)
Definition prefix_rows (hash_prefixes : gset bytes) (vendor : str)
  : list maliciousHashPrefixes.row :=
  (fun hashPrefix =>
     maliciousHashPrefixes.Row hashPrefix (Z.of_nat (length hashPrefix)) vendor)
    <$> elements hash_prefixes.

(** What [get_matching_hashPrefix_urls] selects, read off the files. *)
Definition matching_urls (w : world) (filename : str) (prefixSize : Z)
    (vendor : str) : list str :=
  match tbl_urls (db_of w filename),
        tbl_maliciousHashPrefixes (db_of w (lit "malicious")) with
  | Some t, Some prefixes =>
      urls.url <$>
        filter (fun r =>
                  substring_1 (urls.hash r) prefixSize
                  ∈ maliciousHashPrefixes.hashPrefix <$>
                      filter (fun p => maliciousHashPrefixes.vendor p = vendor)
                             prefixes)
               (urls_rows t)
  | _, _ => []
  end.


(** [old] occurs nowhere in [s]. *)
Fixpoint absent (old s : str) : bool :=
  negb (bool_decide (old `prefix_of` s))
  && match s with
     | [] => true
     | _ :: s' => absent old s'
     end.

(** What one upsert makes of a row, and of the rows of a feed table. *)
Definition touch (lastListed : Z) (url : str) (r : urls.row) : urls.row :=
  if bool_decide (urls.url r = url)
  then urls.Row (urls.rowid r) (urls.url r) (Some lastListed)
         (urls.lastGoogleMalicious r) (urls.lastYandexMalicious r)
         (urls.hash r)
  else r.

Definition upsert (lastListed : Z) (rows : list urls.row) (url : str)
    (hash : bytes) : list urls.row :=
  if bool_decide (url ∈ urls.url <$> rows) then touch lastListed url <$> rows
  else rows ++ [urls.Row (next_rowid rows) url (Some lastListed) None None hash].

Definition upsert_all (t : Z) (us : list str) (rows : list urls.row)
  : list urls.row :=
  foldl (fun rows u => upsert t rows u (hash_of u)) rows us.

(** [rows'] is [rows] after upserts of the urls [us] at time [t]. *)
Definition upserted (t : Z) (us : list str) (rows rows' : list urls.row)
  : Prop :=
  (forall r', r' ∈ rows' -> urls.url r' ∈ us -> urls.lastListed r' = Some t)
  /\ (forall r', r' ∈ rows' -> urls.url r' ∉ us -> r' ∈ rows)
  /\ (forall r, r ∈ rows ->
        exists r', r' ∈ rows'
          /\ urls.url r' = urls.url r
          /\ urls.rowid r' = urls.rowid r
          /\ urls.hash r' = urls.hash r
          /\ urls.lastGoogleMalicious r' = urls.lastGoogleMalicious r
          /\ urls.lastYandexMalicious r' = urls.lastYandexMalicious r
          /\ urls.lastListed r'
             = if bool_decide (urls.url r ∈ us) then Some t
               else urls.lastListed r).

(** Reading decimal text back. *)
Definition undecimal (s : str) : Z :=
  foldl (fun acc c => acc * 10 + (c - 48)) 0 s.

Definition is_digit (c : Z) : bool := (48 <=? c) && (c <=? 57).

(** The dotted quad of an address, most significant octet first. *)
Definition ip_text (int_addr : Z) : str :=
  dotted_quad (int_addr / 2 ^ 24) (int_addr / 2 ^ 16 mod 256)
    (int_addr / 2 ^ 8 mod 256) (int_addr mod 256).

(** The row [add_IPs] inserts for an address, and the table it builds. *)
Definition ip_row (int_addr : Z) : urls.row :=
  urls.Row (int_addr + 1) (ip_text int_addr) None None None
    (hash_of (ip_text int_addr)).

Definition ip_rows (n : Z) : list urls.row := ip_row <$> seqZ 0 n.

(** One pass of the loop of [add_IPs] over the rows. *)
Definition insert_ip (rows : list urls.row) (int_addr : Z) : list urls.row :=
  rows ++ [urls.Row (next_rowid rows) (ip_text int_addr) None None None
             (hash_of (ip_text int_addr))].

(** The rowids are 1, 2, ..., the number of rows: no row was ever
    deleted from the middle or given a rowid by hand. *)
Definition contiguous (rows : list urls.row) : bool :=
  bool_decide (urls.rowid <$> rows = seqZ 1 (Z.of_nat (length rows))).

(** How many rows hold [url]. *)
Definition url_count (url : str) (rows : list urls.row) : nat :=
  length (filter (fun r => urls.url r = url) rows).

(** ** Worlds and answers of the examples *)

(** A fresh [databases/] folder. *)
Definition w_empty : world := World ∅ [] [].

(** One feed with two urls listed at time 10, no prefixes. *)
Definition w_feed : world :=
  (add_URLs (fun _ => [[lit "a.com"; lit "b.org"]]) 10 (lit "feed") None
     (initialise_database [lit "feed"] w_empty).2).2.

(** Two Yandex prefixes in the prefix store. *)
Definition w_prefixes : world :=
  (add_maliciousHashPrefixes
     {[ [1; 2; 3; 4]; [5; 6; 7; 8; 9; 10; 11; 12] ]} (lit "Yandex")
     (initialise_database [lit "feed"] w_empty).2).2.

(** The feed lists [example.com]; Google publishes the first 4 and the
    first 8 bytes of its hash. *)
Definition w_two_sizes : world :=
  (add_maliciousHashPrefixes
     {[ [0x73; 0xd9; 0x86; 0xe0];
        [0x73; 0xd9; 0x86; 0xe0; 0x09; 0x06; 0x5f; 0x18] ]} (lit "Google")
     (add_URLs (fun _ => [[lit "example.com"]]) 1700000000 (lit "feed") None
        (initialise_database [lit "feed"] w_empty).2).2).2.

(** [example.com] listed at time 10, then again at time 5. *)
Definition w_listed_10 : world :=
  (add_URLs (fun _ => [[lit "example.com"]]) 10 (lit "feed") None
     (create_urls_table (lit "feed") w_empty).2).2.

Definition w_listed_5 : world :=
  (add_URLs (fun _ => [[lit "example.com"]]) 5 (lit "feed") None
     w_listed_10).2.

(** An [ipv4] file holding the first ten addresses. *)
Definition w_ipv4_ten_rows : world :=
  World {[ lit "ipv4" :=
             Database (Some (UrlsTable ips_schema (ip_rows 10))) None ]}
        [] [].

(** An [ipv4] file from which every row but the last was deleted. *)
Definition w_ipv4_last_row : world :=
  World {[ lit "ipv4" :=
             Database (Some (UrlsTable ips_schema [ip_row (2 ^ 32 - 1)])) None ]}
        [] [].

(** A server that reports every submitted entry as a match. *)
Definition echo (endpoint : str) (data : ThreatMatchesPayload)
  : option Response :=
  Some {| json := Ok {| matches :=
            Some ((fun u => {| threat_url := u |}) <$> threatEntries data) |} |}.

(** [SafeBrowsing("Google")] with the key [k]. *)
Definition google : SafeBrowsing.t :=
  {| SafeBrowsing.vendor := lit "Google";
     SafeBrowsing.threatMatchesEndpoint :=
       lit "https://safebrowsing.googleapis.com/v4/threatMatches:find?key=k";
     SafeBrowsing.threatListsEndpoint :=
       lit "https://safebrowsing.googleapis.com/v4/threatLists?key=k";
     SafeBrowsing.threatListUpdatesEndpoint :=
       lit "https://safebrowsing.googleapis.com/v4/threatListUpdates:fetch?key=k";
     SafeBrowsing.maximum_url_batch_size := 500 |}.

(** 1200 distinct suspects. *)
Definition suspects_1200 : gset str :=
  list_to_set ((fun i => lit "host" ++ [i]) <$> seqZ 0 1200).

(** Two additions; the text of the first stops inside a quad. *)
Definition answer_bad_padding : ThreatListUpdates :=
  {| listUpdateResponses :=
       Some [ {| additions :=
                   [ {| addition_rawHashes :=
                          {| prefixSize := 4; rawHashes := lit "AQIDBAU" |} |};
                     {| addition_rawHashes :=
                          {| prefixSize := 4; rawHashes := lit "AQIDBA==" |} |} ] |} ];
     minimumWaitDuration := lit "1800s" |}.

(** One addition of five bytes with [prefixSize] 4. *)
Definition answer_short_tail : ThreatListUpdates :=
  {| listUpdateResponses :=
       Some [ {| additions :=
                   [ {| addition_rawHashes :=
                          {| prefixSize := 4; rawHashes := lit "AQIDBAU=" |} |} ] |} ];
     minimumWaitDuration := lit "1800s" |}.

(** ** Vocabulary of the further properties *)

(** Invariant U1 on a row: [hash] is the hash of [url]. *)
Definition hashed (r : urls.row) : Prop := urls.hash r = hash_of (urls.url r).

(** What [UPDATE urls SET {column} = updateTime WHERE url IN (...)] makes
    of a row, for the two columns of [vendorToColumn]. *)
Definition set_flag (column : list Z) (updateTime : Z)
    (malicious_urls : list (list Z)) (r : urls.row) : urls.row :=
  if bool_decide (urls.url r ∈ malicious_urls) then
    if bool_decide (column = lit "lastGoogleMalicious")
    then urls.Row (urls.rowid r) (urls.url r) (urls.lastListed r)
           (Some updateTime) (urls.lastYandexMalicious r) (urls.hash r)
    else urls.Row (urls.rowid r) (urls.url r) (urls.lastListed r)
           (urls.lastGoogleMalicious r) (Some updateTime) (urls.hash r)
  else r.

(** [t] is the largest value of a nullable column. *)
Definition is_max (vs : list (option Z)) (t : Z) : Prop :=
  Some t ∈ vs /\ forall x, Some x ∈ vs -> x <= t.

(** The row carries the latest flag of one of the two vendors among
    [rows]. *)
Definition latest_flag (rows : list urls.row) (r : urls.row) : Prop :=
  (exists t, urls.lastGoogleMalicious r = Some t
             /\ is_max (urls.lastGoogleMalicious <$> rows) t)
  \/ (exists t, urls.lastYandexMalicious r = Some t
                /\ is_max (urls.lastYandexMalicious <$> rows) t).

(** The urls [retrieve_malicious_URLs_] selects from the rows of a
    table. *)
Definition flagged_latest (rows : list urls.row) : list (list Z) :=
  urls.url <$>
    filter (fun r =>
              Is_true (sql_where
                (sql_or
                   (sql_eq (urls.lastGoogleMalicious r)
                      (sql_max (urls.lastGoogleMalicious <$> rows)))
                   (sql_eq (urls.lastYandexMalicious r)
                      (sql_max (urls.lastYandexMalicious <$> rows))))))
           rows.

(** A url with a lone surrogate, which [str.encode()] refuses. *)
Definition surrogate_url : list Z := lit "bad" ++ [0xD800].

(** One addition whose [prefixSize] is 0. *)
Definition answer_zero_size : ThreatListUpdates :=
  {| listUpdateResponses :=
       Some [ {| additions :=
                   [ {| addition_rawHashes :=
                          {| prefixSize := 0; rawHashes := lit "AQIDBA==" |} |} ] |} ];
     minimumWaitDuration := lit "1800s" |}.

(** A connection on which every request fails, and a server that never
    reports a match. *)
Definition unreachable (endpoint : list Z) (data : ThreatMatchesPayload)
  : option Response := None.

Definition no_threats (endpoint : list Z) (data : ThreatMatchesPayload)
  : option Response := Some {| json := Ok {| matches := None |} |}.

(** * Properties *)

Ltac unfold_result := unfold mbind, mret, result_bind, result_ret in *.

Ltac unfold_M :=
  unfold mbind, mret, M_bind, M_ret, T_bind, T_ret, with_conn_attached,
    with_conn, try_except_Error, create_connection, close, raise,
    pure_ in *.

(** ** Lists *)

Lemma filter_none {A} (P : A -> Prop) `{!forall x, Decision (P x)} (l : list A) :
  (forall x, x ∈ l -> ~ P x) -> filter P l = [].
Proof.
  induction l as [|x l IH]; intros Hl; [done|].
  rewrite filter_cons_False by (apply Hl; left).
  apply IH. intros y Hy. apply Hl. by right.
Qed.

Lemma elem_of_concat {A} (x : A) (ls : list (list A)) :
  x ∈ concat ls <-> exists l, x ∈ l /\ l ∈ ls.
Proof.
  induction ls as [|l ls IH].
  - split; [by intros ?%elem_of_nil|]. by intros (l & _ & ?%elem_of_nil).
  - rewrite concat_cons, elem_of_app, IH. split.
    + intros [Hx|(l' & Hx & Hl')]; [exists l|exists l'];
        (split; [done|]); [left|by right].
    + intros (l' & Hx & [->|Hl']%elem_of_cons); [by left|right; eauto].
Qed.

Lemma sum_list_length_concat {A} (ls : list (list A)) :
  sum_list (length <$> ls) = length (concat ls).
Proof.
  induction ls as [|l ls IH]; [done|].
  rewrite fmap_cons, concat_cons, length_app. simpl. by rewrite IH.
Qed.

Lemma filter_fmap_unique {A B} (f : A -> B) (P : B -> Prop)
    `{!forall y, Decision (P y)} (l : list A) (x : A) :
  NoDup l -> x ∈ l -> (forall y, y ∈ l -> P (f y) <-> y = x) ->
  length (filter P (f <$> l)) = 1%nat.
Proof.
  intros Hnd. revert x. induction Hnd as [|a l Ha Hnd IH]; intros x Hx HP.
  - by apply elem_of_nil in Hx.
  - rewrite fmap_cons, filter_cons.
    apply elem_of_cons in Hx as [->|Hx].
    + rewrite decide_True by (apply HP; [left|done]).
      rewrite filter_none; [done|].
      intros y (z & -> & Hz)%list_elem_of_fmap Hy.
      apply HP in Hy; [|by right]. by subst.
    + rewrite decide_False.
      2:{ intros Hfa. apply HP in Hfa; [|left]. by subst. }
      apply (IH x); [done|]. intros y Hy. apply HP. by right.
Qed.

Lemma forallb_seqZ (P : Z -> bool) (n : Z) :
  forallb P (seqZ 0 n) = true -> forall x, 0 <= x < n -> P x = true.
Proof.
  intros H x Hx. rewrite forallb_forall in H. apply H.
  apply list_elem_of_In, elem_of_seqZ. lia.
Qed.

(** ** The files *)

Lemma db_of_commit f db w g :
  db_of (commit f db w) g = if decide (f = g) then db else db_of w g.
Proof.
  unfold db_of, commit; simpl. case_decide; subst.
  - by rewrite lookup_insert_eq.
  - by rewrite lookup_insert_ne.
Qed.

Lemma db_of_connect w f g :
  db_of (World (databases w) (connections w ++ [f]) (posts w)) g = db_of w g.
Proof. done. Qed.

Lemma same_files_trans w1 w2 w3 :
  same_files w1 w2 -> same_files w2 w3 -> same_files w1 w3.
Proof. intros H1 H2 g. by rewrite H2, H1. Qed.

Lemma database_eta db t :
  tbl_urls db = Some t -> Database (Some t) (tbl_maliciousHashPrefixes db) = db.
Proof. destruct db; simpl; congruence. Qed.

Lemma for_app {A} (l1 l2 : list A) (body : A -> T unit) db :
  for_ (l1 ++ l2) body db = (for_ l1 body;; for_ l2 body) db.
Proof.
  revert db. induction l1 as [|x l1 IH]; intros db; simpl.
  - done.
  - unfold mbind, T_bind in *. destruct (body x db) as [[[] db']|e]; [|done].
    apply IH.
Qed.

Lemma for_concat {A} (ls : list (list A)) (body : A -> T unit) db :
  for_ ls (fun l => for_ l body) db = for_ (concat ls) body db.
Proof.
  revert db. induction ls as [|l ls IH]; intros db; simpl; [done|].
  rewrite for_app. unfold mbind, T_bind.
  destruct (for_ l body db) as [[[] db']|e]; [|done]. apply IH.
Qed.

(** ** Hashing *)

Lemma encode_app (u v : list Z) :
  encode (u ++ v) = b1 ← encode u; b2 ← encode v; mret (b1 ++ b2).
Proof.
  induction u as [|c u IH]; simpl.
  - unfold_result. by destruct (encode v).
  - rewrite IH. unfold_result.
    destruct (utf8_encode_char c); [|done].
    destruct (encode u); [|done].
    destruct (encode v); [|done].
    by rewrite app_assoc.
Qed.

Lemma length_be_bytes n x : length (be_bytes n x) = n.
Proof. unfold be_bytes. by rewrite length_fmap, length_rev, length_seq. Qed.

Lemma length_sha256 msg : length (SHA256.sha256 msg) = 32%nat.
Proof.
  unfold SHA256.sha256, SHA256.digest_of.
  by rewrite !length_app, !length_be_bytes.
Qed.

Lemma utf8_encode_char_scalar c :
  scalar_value c = true -> is_Ok (utf8_encode_char c).
Proof.
  unfold scalar_value, utf8_encode_char, is_Ok. intros H.
  repeat case_match; eauto; lia.
Qed.

Lemma encode_scalar u : encodable u = true -> is_Ok (encode u).
Proof.
  unfold encodable. induction u as [|c u IH]; simpl; intros H.
  - by eexists.
  - apply andb_prop in H as [Hc Hu].
    destruct (utf8_encode_char_scalar c Hc) as [b ->].
    destruct (IH Hu) as [bs ->]. by eexists.
Qed.

Lemma compute_url_hash_eq (u : list Z) :
  compute_url_hash u = b ← encode u; mret (SHA256.sha256 (b ++ lit "/")).
Proof.
  unfold compute_url_hash. rewrite encode_app.
  unfold_result. by destruct (encode u).
Qed.

Lemma compute_url_hash_encodable u :
  encodable u = true -> compute_url_hash u = Ok (hash_of u).
Proof.
  intros H. unfold hash_of. rewrite compute_url_hash_eq.
  by destruct (encode_scalar u H) as [b ->].
Qed.

Example sha256_abc :
  SHA256.sha256 (lit "abc") =
  [0xba; 0x78; 0x16; 0xbf; 0x8f; 0x01; 0xcf; 0xea; 0x41; 0x41; 0x40; 0xde;
   0x5d; 0xae; 0x22; 0x23; 0xb0; 0x03; 0x61; 0xa3; 0x96; 0x17; 0x7a; 0x9c;
   0xb4; 0x10; 0xff; 0x61; 0xf2; 0x00; 0x15; 0xad].
Proof. vm_compute. reflexivity. Qed.

(** C1, as the code has it.  For every url [u], [compute_url_hash u] is the
    SHA-256 digest of the UTF-8 encoding of [u] followed by one ["/"]
    (and raises exactly when [u] has no UTF-8 encoding); for a [u] made of
    Unicode scalar values the digest exists and is 32 bytes long; equal
    inputs give equal outputs; and the digest of ["example.com"] begins
    with the bytes 0x73 0xd9 0x86 0xe0. *)
Theorem compute_url_hash_is_sha256 (u : list Z) :
  compute_url_hash u = (b ← encode u; mret (SHA256.sha256 (b ++ lit "/")))
  /\ (encodable u = true ->
      exists b,
        encode u = Ok b
        /\ compute_url_hash u = Ok (SHA256.sha256 (b ++ lit "/"))
        /\ length (SHA256.sha256 (b ++ lit "/")) = 32%nat)
  /\ (forall u' : list Z, u' = u -> compute_url_hash u' = compute_url_hash u)
  /\ take 4 <$> compute_url_hash (lit "example.com")
     = Ok [0x73; 0xd9; 0x86; 0xe0].
Proof.
  split_and!.
  - apply compute_url_hash_eq.
  - intros Hu. destruct (encode_scalar u Hu) as [b Hb].
    exists b. split_and!; [done| |apply length_sha256].
    by rewrite compute_url_hash_eq, Hb.
  - by intros u' ->.
  - vm_compute. reflexivity.
Qed.

Lemma compute_url_hash_is_sha256_witness :
  encodable (lit "malware.test") = true
  /\ exists b,
       encode (lit "malware.test") = Ok b
       /\ compute_url_hash (lit "malware.test")
          = Ok (SHA256.sha256 (b ++ lit "/"))
       /\ length (SHA256.sha256 (b ++ lit "/")) = 32%nat.
Proof.
  split; [vm_compute; reflexivity|].
  destruct (compute_url_hash_is_sha256 (lit "malware.test")) as (_ & H & _).
  apply H. vm_compute. reflexivity.
Defined.

(** C1 as stated fails: the digest of ["example.com/"] does not begin with
    0xd0 0x3e 0x23 0x4d. *)
Lemma compute_url_hash_example_com_prefix :
  ~ (exists rest,
       compute_url_hash (lit "example.com")
       = Ok ([0xd0; 0x3e; 0x23; 0x4d] ++ rest)).
Proof. intros [rest H]. vm_compute in H. discriminate. Qed.

(** ** [update_malicious_URLs]: unknown vendors *)

(** C9.  For every vendor other than ["Google"] and ["Yandex"],
    [update_malicious_URLs] raises [ValueError] and leaves the world as it
    was: no file is changed and no connection is opened. *)
Theorem update_malicious_URLs_unknown_vendor
    (updateTime : Z) (vendor filename : list Z) (malicious_urls : list (list Z))
    (w : world) :
  vendor ≠ lit "Google" -> vendor ≠ lit "Yandex" ->
  update_malicious_URLs updateTime vendor filename malicious_urls w
  = (Raise ValueError, w).
Proof.
  intros HG HY. unfold update_malicious_URLs, vendorToColumn.
  rewrite lookup_insert_ne by done.
  rewrite lookup_insert_ne by done.
  by rewrite lookup_empty.
Qed.

Lemma update_malicious_URLs_unknown_vendor_witness :
  lit "Bing" ≠ lit "Google" /\ lit "Bing" ≠ lit "Yandex"
  /\ update_malicious_URLs 1700000000 (lit "Bing") (lit "feed")
       [lit "a.com"] w_feed
     = (Raise ValueError, w_feed).
Proof.
  assert (HG : lit "Bing" ≠ lit "Google")
    by (intros H; vm_compute in H; discriminate).
  assert (HY : lit "Bing" ≠ lit "Yandex")
    by (intros H; vm_compute in H; discriminate).
  split; [exact HG|]. split; [exact HY|].
  exact (update_malicious_URLs_unknown_vendor 1700000000 (lit "Bing")
           (lit "feed") [lit "a.com"] w_feed HG HY).
Defined.

(** ** [retrieve_malicious_URLs]: nothing flagged *)

Lemma sql_max_None vs : Forall (fun v => v = None) vs -> sql_max vs = None.
Proof. induction 1 as [|v vs -> _ IH]; simpl; [done|]. by rewrite IH. Qed.

Lemma retrieve_malicious_URLs__unflagged filename w :
  never_flagged w [filename] = true ->
  exists w', retrieve_malicious_URLs_ filename w = (Ok ∅, w')
             /\ same_files w w'.
Proof.
  unfold never_flagged; simpl. rewrite andb_true_r. intros H.
  unfold retrieve_malicious_URLs_. unfold_M.
  unfold sql_select_max_lastGoogleMalicious,
    sql_select_max_lastYandexMalicious, sql_select_flagged, on_urls.
  rewrite db_of_connect.
  destruct (tbl_urls (db_of w filename)) as [t|] eqn:Ht; simpl.
  - rewrite forallb_forall in H.
    rewrite !sql_max_None.
    2:{ apply Forall_fmap, Forall_forall. intros r Hr%list_elem_of_In%H.
        unfold unflagged in Hr. simpl. repeat case_match; done. }
    2:{ apply Forall_fmap, Forall_forall. intros r Hr%list_elem_of_In%H.
        unfold unflagged in Hr. simpl. repeat case_match; done. }
    eexists. split.
    + f_equal. f_equal.
      rewrite filter_none; [done|].
      intros r _.
      destruct (urls.lastGoogleMalicious r), (urls.lastYandexMalicious r);
        simpl; tauto.
    + rewrite (database_eta _ _ Ht).
      intros g. rewrite db_of_commit. case_decide; subst; done.
  - eexists. split; [done|]. done.
Qed.

Lemma execute_retrieve_unflagged urls_filenames w :
  never_flagged w urls_filenames = true ->
  exists w',
    execute_with_ray retrieve_malicious_URLs_ urls_filenames w
    = (Ok (replicate (length urls_filenames) ∅), w')
    /\ same_files w w'.
Proof.
  revert w. induction urls_filenames as [|f fs IH]; intros w H.
  - eexists. split; [done|]. done.
  - simpl in H. apply andb_prop in H as [Hf Hfs].
    destruct (retrieve_malicious_URLs__unflagged f w) as (w1 & E1 & S1).
    { unfold never_flagged; simpl. by rewrite Hf. }
    destruct (IH w1) as (w2 & E2 & S2).
    { unfold never_flagged in *. rewrite forallb_forall in *.
      intros g Hg. rewrite S1. by apply Hfs. }
    exists w2. split; [|by eapply same_files_trans].
    simpl. unfold_M. by rewrite E1, E2.
Qed.

Lemma union_list_replicate_empty n :
  ⋃ replicate n (∅ : gset (list Z)) = ∅.
Proof.
  induction n as [|n IH]; simpl; [done|]. rewrite IH. apply union_empty_l_L.
Qed.

(** C10.  When no row of the given feed stores has [lastGoogleMalicious]
    or [lastYandexMalicious] set, [retrieve_malicious_URLs] returns the
    empty list: the NULL maxima select no row, and nothing is raised. *)
Theorem retrieve_malicious_URLs_never_flagged
    (urls_filenames : list (list Z)) (w : world) :
  never_flagged w urls_filenames = true ->
  (retrieve_malicious_URLs urls_filenames w).1 = Ok [].
Proof.
  intros H. destruct (execute_retrieve_unflagged _ _ H) as (w' & E & _).
  unfold retrieve_malicious_URLs. unfold_M. rewrite E. simpl.
  f_equal. rewrite union_list_replicate_empty. apply elements_empty.
Qed.

Lemma retrieve_malicious_URLs_never_flagged_witness :
  never_flagged w_feed [lit "feed"; lit "ipv4"] = true
  /\ rows_of w_feed (lit "feed") ≠ []
  /\ (retrieve_malicious_URLs [lit "feed"; lit "ipv4"] w_feed).1 = Ok [].
Proof.
  split; [vm_compute; reflexivity|].
  split; [intros H; vm_compute in H; discriminate|].
  apply retrieve_malicious_URLs_never_flagged. vm_compute. reflexivity.
Defined.

(** ** [add_maliciousHashPrefixes]: replacing a vendor's prefixes *)

Lemma for_insert_hashPrefix (l : list (list Z)) vendor db rows :
  tbl_maliciousHashPrefixes db = Some rows ->
  for_ l (fun hashPrefix =>
            sql_insert_hashPrefix
              (hashPrefix, Z.of_nat (length hashPrefix), vendor)) db
  = Ok ((), Database (tbl_urls db)
              (Some (rows ++
                     ((fun hashPrefix =>
                         maliciousHashPrefixes.Row hashPrefix
                           (Z.of_nat (length hashPrefix)) vendor) <$> l)))).
Proof.
  revert db rows. induction l as [|p l IH]; intros db rows Hdb; simpl.
  - rewrite app_nil_r. unfold mret, T_ret. destruct db; simpl in *; congruence.
  - unfold mbind, T_bind. unfold sql_insert_hashPrefix at 1.
    unfold on_maliciousHashPrefixes. rewrite Hdb.
    erewrite IH by reflexivity. simpl. by rewrite <- app_assoc.
Qed.

(** C7.  On a prefix store whose rows satisfy [prefixSize == len(hashPrefix)],
    [add_maliciousHashPrefixes] commits once, in one transaction: the rows
    of [vendor] are deleted and one row [(p, len(p), vendor)] is inserted
    for every prefix [p] of the set; the rows of every other vendor are
    unchanged, the [urls] tables and the other files too, and every row
    still satisfies [prefixSize == len(hashPrefix)]. *)
Theorem add_maliciousHashPrefixes_replaces_vendor
    (hash_prefixes : gset (list Z)) (vendor : list Z) (w : world)
    (rows : list maliciousHashPrefixes.row) :
  tbl_maliciousHashPrefixes (db_of w (lit "malicious")) = Some rows ->
  forallb prefix_ok rows = true ->
  exists w' rows',
    add_maliciousHashPrefixes hash_prefixes vendor w = (Ok (), w')
    /\ w' = commit (lit "malicious")
              (Database (tbl_urls (db_of w (lit "malicious"))) (Some rows'))
              (World (databases w) (connections w ++ [lit "malicious"])
                 (posts w))
    /\ tbl_maliciousHashPrefixes (db_of w' (lit "malicious")) = Some rows'
    /\ rows' = filter (fun r => maliciousHashPrefixes.vendor r ≠ vendor) rows
               ++ prefix_rows hash_prefixes vendor
    /\ filter (fun r => maliciousHashPrefixes.vendor r ≠ vendor) rows'
       = filter (fun r => maliciousHashPrefixes.vendor r ≠ vendor) rows
    /\ filter (fun r => maliciousHashPrefixes.vendor r = vendor) rows'
       = prefix_rows hash_prefixes vendor
    /\ (forall p, p ∈ hash_prefixes <->
                  maliciousHashPrefixes.Row p (Z.of_nat (length p)) vendor
                  ∈ rows')
    /\ NoDup (prefix_rows hash_prefixes vendor)
    /\ forallb prefix_ok rows' = true
    /\ tbl_urls (db_of w' (lit "malicious"))
       = tbl_urls (db_of w (lit "malicious"))
    /\ (forall filename,
          filename ≠ lit "malicious" -> db_of w' filename = db_of w filename).
Proof.
  intros Hrows Hok.
  unfold add_maliciousHashPrefixes. unfold_M. rewrite db_of_connect.
  unfold sql_delete_vendor at 1. unfold on_maliciousHashPrefixes at 1.
  rewrite Hrows.
  erewrite for_insert_hashPrefix by reflexivity. simpl.
  fold (prefix_rows hash_prefixes vendor).
  set (kept := filter (fun r => maliciousHashPrefixes.vendor r ≠ vendor) rows).
  assert (Hnew_v : Forall (fun r => maliciousHashPrefixes.vendor r = vendor)
                     (prefix_rows hash_prefixes vendor)).
  { apply Forall_fmap, Forall_forall. by intros. }
  assert (Hkept_v : Forall (fun r => maliciousHashPrefixes.vendor r ≠ vendor) kept).
  { apply Forall_forall. intros r Hr. by apply list_elem_of_filter in Hr as [? _]. }
  eexists _, _. split; [reflexivity|].
  rewrite db_of_commit. rewrite decide_True by done. simpl.
  split_and!.
  - reflexivity.
  - reflexivity.
  - reflexivity.
  - rewrite filter_app. unfold kept at 1. rewrite list_filter_filter.
    rewrite (filter_none _ (prefix_rows _ _)), app_nil_r.
    + apply list_filter_iff. tauto.
    + intros r Hr. rewrite Forall_forall in Hnew_v.
      intros Hne. apply Hne. by apply Hnew_v.
  - rewrite filter_app. rewrite (filter_none _ kept); simpl.
    + induction Hnew_v as [|r l Hr _ IH]; [done|].
      by rewrite filter_cons_True, IH.
    + intros r Hr. rewrite Forall_forall in Hkept_v. by apply Hkept_v.
  - intros p. rewrite elem_of_app. split.
    + intros Hp. right. apply list_elem_of_fmap. exists p. split; [done|].
      by apply elem_of_elements.
    + intros [Hp|Hp].
      * rewrite Forall_forall in Hkept_v. apply Hkept_v in Hp. done.
      * apply list_elem_of_fmap in Hp as (q & [= ->] & Hq).
        by apply elem_of_elements.
  - apply NoDup_fmap_2; [|apply NoDup_elements].
    intros p q [= ->]. done.
  - rewrite forallb_app. apply andb_true_intro. split.
    + rewrite forallb_forall in *. intros r Hr%list_elem_of_In.
      apply list_elem_of_filter in Hr as [_ Hr%list_elem_of_In]. auto.
    + rewrite forallb_forall. intros r Hr%list_elem_of_In.
      apply list_elem_of_fmap in Hr as (q & -> & _).
      unfold prefix_ok; simpl. lia.
  - reflexivity.
  - intros g Hg. rewrite db_of_commit. by rewrite decide_False.
Qed.

Lemma add_maliciousHashPrefixes_replaces_vendor_witness :
  tbl_maliciousHashPrefixes (db_of w_prefixes (lit "malicious"))
  = Some (prefixes_of w_prefixes)
  /\ forallb prefix_ok (prefixes_of w_prefixes) = true
  /\ length (prefixes_of w_prefixes) = 2%nat
  /\ exists w' rows',
       add_maliciousHashPrefixes {[ [9; 9; 9; 9] ]} (lit "Google") w_prefixes
       = (Ok (), w')
       /\ tbl_maliciousHashPrefixes (db_of w' (lit "malicious")) = Some rows'
       /\ rows'
          = filter (fun r => maliciousHashPrefixes.vendor r ≠ lit "Google")
              (prefixes_of w_prefixes)
            ++ prefix_rows {[ [9; 9; 9; 9] ]} (lit "Google")
       /\ forallb prefix_ok rows' = true.
Proof.
  assert (H1 : tbl_maliciousHashPrefixes (db_of w_prefixes (lit "malicious"))
               = Some (prefixes_of w_prefixes)) by (vm_compute; reflexivity).
  assert (H2 : forallb prefix_ok (prefixes_of w_prefixes) = true)
    by (vm_compute; reflexivity).
  split; [exact H1|]. split; [exact H2|]. split; [vm_compute; reflexivity|].
  destruct (add_maliciousHashPrefixes_replaces_vendor
              {[ [9; 9; 9; 9] ]} (lit "Google") w_prefixes
              (prefixes_of w_prefixes) H1 H2)
    as (w' & rows' & E & _ & Ht & Hr & _ & _ & _ & _ & Hok & _).
  exists w', rows'. split_and!; [exact E|exact Ht|exact Hr|exact Hok].
Defined.

(** ** [chunked] *)

Section chunked.
Context {A : Type}.
Implicit Types (l : list A) (n takes : nat).

Lemma chunked_takes_concat takes n l :
  (0 < n)%nat -> (length l <= takes)%nat ->
  concat (chunked_takes takes n l) = l.
Proof.
  intros Hn. revert l. induction takes as [|takes IH]; intros l Hl; simpl.
  - destruct l; simpl in *; [done|lia].
  - destruct (take n l) as [|x chunk] eqn:Htake.
    + destruct l, n; simpl in *; try done; lia.
    + assert (0 < length l)%nat.
      { destruct l; [by rewrite take_nil in Htake|simpl; lia]. }
      rewrite concat_cons, IH.
      * rewrite <- Htake. apply take_drop.
      * rewrite length_drop. lia.
Qed.

Lemma chunked_takes_sizes takes n l :
  Forall (fun chunk => (0 < length chunk <= n)%nat) (chunked_takes takes n l).
Proof.
  revert l. induction takes as [|takes IH]; intros l; simpl; [done|].
  destruct (take n l) as [|x chunk] eqn:Htake; [done|].
  constructor; [|apply IH].
  rewrite <- Htake, length_take.
  destruct l; [by rewrite take_nil in Htake|].
  destruct n; [done|simpl; lia].
Qed.

Lemma chunked_takes_length takes n l :
  (0 < n)%nat -> (length l <= takes)%nat ->
  Z.of_nat (length (chunked_takes takes n l))
  = - ((- Z.of_nat (length l)) / Z.of_nat n).
Proof.
  intros Hn. revert l. induction takes as [|takes IH]; intros l Hl; simpl.
  - destruct l; simpl in *; [|lia]. by rewrite Z.div_0_l by lia.
  - destruct (take n l) as [|x chunk] eqn:Htake.
    + destruct l, n; simpl in *; try done; lia.
    + assert (Hlen : (0 < length l)%nat).
      { destruct l; [by rewrite take_nil in Htake|simpl; lia]. }
      simpl length. rewrite Nat2Z.inj_succ, IH.
      2:{ rewrite length_drop. lia. }
      rewrite length_drop.
      destruct (decide (length l <= n)%nat) as [Hle|Hgt].
      * replace (length l - n)%nat with 0%nat by lia.
        rewrite Z.div_0_l by lia.
        assert (- Z.of_nat (length l) / Z.of_nat n = -1); [|lia].
        symmetry.
        apply Z.div_unique with (r := Z.of_nat n - Z.of_nat (length l)); lia.
      * rewrite Nat2Z.inj_sub by lia.
        replace (- (Z.of_nat (length l) - Z.of_nat n))
          with (- Z.of_nat (length l) + 1 * Z.of_nat n) by lia.
        rewrite Z.div_add by lia. lia.
Qed.

(** With a positive [n] the fuel of [chunked] suffices: nothing is lost. *)
Lemma chunked_concat n l : (0 < n)%nat -> concat (chunked n l) = l.
Proof. intros. by apply chunked_takes_concat. Qed.

Lemma chunked_sizes n l :
  Forall (fun chunk => (0 < length chunk <= n)%nat) (chunked n l).
Proof. apply chunked_takes_sizes. Qed.

Lemma chunked_length n l :
  (0 < n)%nat ->
  Z.of_nat (length (chunked n l)) = - ((- Z.of_nat (length l)) / Z.of_nat n).
Proof. intros. by apply chunked_takes_length. Qed.

End chunked.

(** ** [SafeBrowsing.get_malicious_urls] *)

Section lookup.
Import SafeBrowsing.
Variables GOOGLE_API_KEY YANDEX_API_KEY : list Z.
Variable post_with_retries :
  list Z -> ThreatMatchesPayload -> option Response.

Lemma execute_threat_matches_lookup (self : SafeBrowsing.t)
    (url_batches : list (list (list Z))) (w : world) :
  execute_with_ray (_threat_matches_lookup post_with_retries self) url_batches w
  = (Ok (answer_of post_with_retries self <$> url_batches),
     World (databases w) (connections w)
       (posts w ++ (post_of self <$> url_batches))).
Proof.
  revert w. induction url_batches as [|b bs IH]; intros w; simpl.
  - unfold mret, M_ret. rewrite app_nil_r. by destruct w.
  - unfold mbind, mret, M_bind, M_ret in *.
    unfold _threat_matches_lookup at 1, answer_of at 1, post_of at 1.
    destruct (post_with_retries _ _); simpl; rewrite IH; simpl;
      by rewrite <- app_assoc.
Qed.

Lemma get_malicious_urls_posts (self : SafeBrowsing.t)
    (urls : gset (list Z)) (w : world) :
  posts (get_malicious_urls post_with_retries self urls w).2
  = posts w ++
    (post_of self <$>
       chunked (Z.to_nat (maximum_url_batch_size self)) (elements urls)).
Proof.
  unfold get_malicious_urls. unfold mbind, mret, M_bind, M_ret, pure_.
  rewrite execute_threat_matches_lookup.
  by destruct (chain_matches _).
Qed.

Lemma __init___cap (vendor : list Z) (self : SafeBrowsing.t) :
  __init__ GOOGLE_API_KEY YANDEX_API_KEY vendor = Ok self ->
  (vendor = lit "Google" /\ maximum_url_batch_size self = 500)
  \/ (vendor = lit "Yandex" /\ maximum_url_batch_size self = 200).
Proof.
  unfold __init__. repeat case_bool_decide; intros [= <-]; simpl; auto.
Qed.

(** What the method returns when every answer parses: the distinct
    [strip_schemes] of the matches. *)
Lemma get_malicious_urls_result (self : SafeBrowsing.t)
    (urls : gset (list Z)) (w : world) (ms : list ThreatMatch) :
  chain_matches
    (answer_of post_with_retries self <$>
       chunked (Z.to_nat (maximum_url_batch_size self)) (elements urls))
  = Ok ms ->
  exists l,
    (get_malicious_urls post_with_retries self urls w).1 = Ok l
    /\ NoDup l
    /\ forall u, u ∈ l <-> exists x, x ∈ ms /\ u = strip_schemes x.
Proof.
  intros Hms. unfold get_malicious_urls.
  unfold mbind, mret, M_bind, M_ret, pure_.
  rewrite execute_threat_matches_lookup, Hms. simpl.
  eexists. split; [reflexivity|]. split; [apply NoDup_elements|].
  intros u. rewrite elem_of_elements, elem_of_list_to_set, list_elem_of_fmap.
  split; intros (x & ? & ?); eauto.
Qed.

(** C5.  For a helper built by [__init__] (cap 500 for ["Google"], 200 for
    ["Yandex"]) and every set of [n] urls, [get_malicious_urls] posts
    exactly [ceil(n / cap)] requests to the [threatMatches] endpoint, one
    per batch; the batches put end to end are the urls of the set, their
    sizes sum to [n], no batch is empty or larger than the cap, and no
    posted request carries more than [cap] entries. *)
Theorem get_malicious_urls_batches (vendor : list Z) (self : SafeBrowsing.t)
    (urls : gset (list Z)) (w : world) :
  __init__ GOOGLE_API_KEY YANDEX_API_KEY vendor = Ok self ->
  let cap := maximum_url_batch_size self in
  ((vendor = lit "Google" /\ cap = 500) \/ (vendor = lit "Yandex" /\ cap = 200))
  /\ exists url_batches : list (list (list Z)),
       posts (get_malicious_urls post_with_retries self urls w).2
       = posts w ++ (post_of self <$> url_batches)
       /\ concat url_batches = elements urls
       /\ Z.of_nat (length url_batches)
          = - ((- Z.of_nat (size urls)) / cap)
       /\ Z.of_nat (length url_batches) = batches_logged self urls
       /\ sum_list (length <$> url_batches) = size urls
       /\ Forall (fun url_batch =>
                    0 < Z.of_nat (length url_batch) <= cap) url_batches
       /\ Forall (fun post =>
                    Z.of_nat (length (threatEntries post.2)) <= cap)
                 (post_of self <$> url_batches).
Proof.
  intros Hinit cap. pose proof (__init___cap _ _ Hinit) as Hcap.
  split; [exact Hcap|].
  assert (Hcap0 : 0 < cap)
    by (subst cap; destruct Hcap as [[_ Hc]|[_ Hc]]; lia).
  assert (Hpos : (0 < Z.to_nat cap)%nat) by lia.
  exists (chunked (Z.to_nat cap) (elements urls)).
  assert (Hlen : Z.of_nat (length (chunked (Z.to_nat cap) (elements urls)))
                 = - ((- Z.of_nat (size urls)) / cap)).
  { rewrite chunked_length by done. rewrite Z2Nat.id by lia. done. }
  assert (Hsizes : Forall (fun url_batch : list (list Z) =>
                     0 < Z.of_nat (length url_batch) <= cap)
                     (chunked (Z.to_nat cap) (elements urls))).
  { eapply Forall_impl; [apply chunked_sizes|]. simpl. lia. }
  split_and!.
  - apply get_malicious_urls_posts.
  - by apply chunked_concat.
  - exact Hlen.
  - exact Hlen.
  - rewrite sum_list_length_concat, chunked_concat by done. done.
  - exact Hsizes.
  - apply Forall_fmap. eapply Forall_impl; [exact Hsizes|].
    intros b Hb. unfold compose, post_of. simpl in *.
    rewrite length_fmap. lia.
Qed.

End lookup.

Lemma replace_absent old new s : absent old s = true -> replace old new s = s.
Proof.
  unfold replace. induction s as [|c s IH]; [done|].
  cbn [absent replace_from]. intros [H1 H2]%andb_prop.
  destruct (bool_decide (old `prefix_of` c :: s)); [done|].
  by rewrite IH.
Qed.

Lemma replace_from_skip old new l s :
  replace_from old new (length l) (l ++ s) = replace_from old new 0 s.
Proof. induction l as [|c l IH]; [done|]. exact IH. Qed.

Lemma replace_prefix old s :
  old ≠ [] -> replace old [] (old ++ s) = replace old [] s.
Proof.
  destruct old as [|c old]; [done|]. intros _. unfold replace.
  cbn [app replace_from].
  rewrite bool_decide_eq_true_2 by (by exists s).
  cbn [length]. replace (S (length old) - 1)%nat with (length old) by lia.
  apply replace_from_skip.
Qed.

Lemma absent_https_http u :
  absent (lit "https://") u = true ->
  absent (lit "https://") (lit "http://" ++ u) = true.
Proof.
  intros Hu. change (lit "http://") with [104; 116; 116; 112; 58; 47; 47].
  change (lit "https://") with [104; 116; 116; 112; 115; 58; 47; 47] in *.
  cbn [app absent].
  repeat (rewrite bool_decide_eq_false_2;
          [|intros [k Hk]; simpl in Hk; discriminate Hk]).
  exact Hu.
Qed.

(** On a threat url that has one scheme, at its head, the code does remove
    just that. *)
Lemma strip_schemes_http u :
  absent (lit "https://") u = true -> absent (lit "http://") u = true ->
  SafeBrowsing.strip_schemes {| threat_url := lit "http://" ++ u |} = u.
Proof.
  intros Hs Hp. unfold SafeBrowsing.strip_schemes. cbn [threat_url].
  rewrite (replace_absent (lit "https://")) by (by apply absent_https_http).
  rewrite replace_prefix by (intros H; vm_compute in H; discriminate).
  by apply replace_absent.
Qed.

Lemma google_init :
  SafeBrowsing.__init__ (lit "k") (lit "k") (lit "Google") = Ok google.
Proof. vm_compute. reflexivity. Qed.

Lemma get_malicious_urls_batches_witness :
  SafeBrowsing.__init__ (lit "k") (lit "k") (lit "Google") = Ok google
  /\ size suspects_1200 = 1200%nat
  /\ exists url_batches : list (list (list Z)),
       posts (SafeBrowsing.get_malicious_urls echo google suspects_1200
                w_empty).2
       = posts w_empty ++ (SafeBrowsing.post_of google <$> url_batches)
       /\ length url_batches = 3%nat
       /\ sum_list (length <$> url_batches) = 1200%nat
       /\ Forall (fun url_batch => 0 < Z.of_nat (length url_batch) <= 500)
            url_batches.
Proof.
  assert (Hsize : size suspects_1200 = 1200%nat).
  { unfold suspects_1200. rewrite size_list_to_set.
    - by rewrite length_fmap, length_seqZ.
    - apply NoDup_fmap_2; [|apply NoDup_seqZ].
      intros i j Hij. apply app_inv_head in Hij. by injection Hij. }
  split; [exact google_init|]. split; [exact Hsize|].
  destruct (get_malicious_urls_batches (lit "k") (lit "k") echo
              (lit "Google") google suspects_1200 w_empty google_init)
    as (_ & url_batches & Hposts & _ & Hlen & _ & Hsum & Hcap & _).
  exists url_batches. split_and!.
  - exact Hposts.
  - rewrite Hsize in Hlen. change (SafeBrowsing.maximum_url_batch_size google)
      with 500 in Hlen. change (- (- Z.of_nat 1200 / 500)) with 3 in Hlen. lia.
  - rewrite Hsum. exact Hsize.
  - exact Hcap.
Defined.

(** C6, at the url ["a.com/?r=http://b.com"].  The server echoes the
    submitted entry ["http://a.com/?r=http://b.com"] as a match;
    [get_malicious_urls] returns ["a.com/?r=b.com"]: the second
    ["http://"] is removed too, and what comes back is not the url that
    was submitted. *)
Theorem get_malicious_urls_strips_inner_scheme :
  SafeBrowsing.strip_schemes
    {| threat_url := lit "http://a.com/?r=http://b.com" |}
  = lit "a.com/?r=b.com"
  /\ (SafeBrowsing.get_malicious_urls echo google
        {[ lit "a.com/?r=http://b.com" ]} w_empty).1
     = Ok [lit "a.com/?r=b.com"]
  /\ lit "a.com/?r=b.com" ≠ lit "a.com/?r=http://b.com".
Proof.
  split_and!; [vm_compute; reflexivity..|].
  intros H; vm_compute in H; discriminate.
Qed.

(** ** [SafeBrowsing.get_malicious_url_hash_prefixes] *)

Section update.
Import SafeBrowsing.

Lemma for_acc_raises {A S} (l : list A) (body : A -> S -> result S) (s : S)
    (x : A) :
  x ∈ l -> (forall s', exists e, body x s' = Raise e) ->
  exists e, for_acc l body s = Raise e.
Proof.
  intros Hx Hbody. revert s.
  induction l as [|a l IH]; intros s; [by apply elem_of_nil in Hx|].
  simpl. unfold mbind, result_bind.
  destruct (body a s) as [s'|e] eqn:Ha; [|by eexists].
  apply elem_of_cons in Hx as [->|Hx].
  - destruct (Hbody s) as [e He]. congruence.
  - by apply IH.
Qed.

Lemma hashes_list_decode (addition : Addition) :
  hashes_list addition
  = raw ← decode_rawHashes addition;
    starts ← range3 0 (Z.of_nat (length raw))
               (prefixSize (addition_rawHashes addition));
    mret (sorted ((fun i => slice raw i
                              (i + prefixSize (addition_rawHashes addition)))
                    <$> starts)).
Proof.
  unfold hashes_list, decode_rawHashes. unfold_result.
  by destruct (encode_ascii _).
Qed.

Lemma get_malicious_url_hash_prefixes_raises (self : SafeBrowsing.t)
    (answer : ThreatListUpdates) lurs lur addition e :
  listUpdateResponses answer = Some lurs ->
  lur ∈ lurs -> addition ∈ additions lur ->
  decode_rawHashes addition = Raise e ->
  exists e', get_malicious_url_hash_prefixes self answer = Raise e'.
Proof.
  intros Hlurs Hlur Hadd Hdec.
  unfold get_malicious_url_hash_prefixes, _retrieve_threat_list_updates.
  rewrite Hlurs. simpl. rewrite Hlurs. simpl.
  eapply for_acc_raises; [exact Hlur|]. intros s.
  eapply for_acc_raises; [exact Hadd|]. intros s'.
  rewrite hashes_list_decode, Hdec. by eexists.
Qed.

Lemma elem_of_sorted (x : list Z) l : x ∈ sorted l <-> x ∈ l.
Proof. unfold sorted. by rewrite merge_sort_Permutation. Qed.

Lemma hashes_list_tail (addition : Addition) (raw : list Z) :
  decode_rawHashes addition = Ok raw ->
  let prefix_size := prefixSize (addition_rawHashes addition) in
  let n := Z.of_nat (length raw) in
  0 < prefix_size ->
  exists l,
    hashes_list addition = Ok l
    /\ (n mod prefix_size ≠ 0 ->
        drop (Z.to_nat (n - n mod prefix_size)) raw ∈ l
        /\ Z.of_nat (length (drop (Z.to_nat (n - n mod prefix_size)) raw))
           = n mod prefix_size).
Proof.
  intros Hdec ps n Hps. rewrite hashes_list_decode, Hdec.
  unfold mbind, mret, result_bind, result_ret, range3.
  fold ps. fold n.
  destruct (ps =? 0) eqn:E0; [lia|].
  destruct (0 <? ps) eqn:E1; [|lia].
  eexists. split; [reflexivity|]. intros Hmod.
  pose proof (Z.mod_pos_bound n ps Hps) as Hb.
  pose proof (Z.div_mod n ps ltac:(lia)) as Hdm.
  assert (Hq : 0 <= n / ps) by (apply Z.div_pos; lia).
  assert (Hceil : (n + ps - 1) / ps = n / ps + 1).
  { symmetry. apply Z.div_unique with (r := n mod ps - 1); lia. }
  split.
  - apply elem_of_sorted. apply list_elem_of_fmap.
    exists (n - n mod ps). split.
    + unfold slice. rewrite take_ge; [done|].
      rewrite length_drop. subst n. lia.
    + apply list_elem_of_fmap. exists (n / ps). split; [lia|].
      apply elem_of_seqZ. rewrite Z.sub_0_r. lia.
  - rewrite length_drop. subst n. lia.
Qed.

Lemma for_acc_additions (adds : list Addition) (s s' : gset (list Z)) :
  for_acc adds
    (fun addition hash_prefixes =>
       l ← hashes_list addition; mret (hash_prefixes ∪ list_to_set l)) s
  = Ok s' ->
  s ⊆ s'
  /\ forall addition, addition ∈ adds ->
       exists l, hashes_list addition = Ok l /\ list_to_set l ⊆ s'.
Proof.
  revert s. induction adds as [|a adds IH]; intros s; simpl.
  - intros [= ->]. split; [done|]. by intros ? ?%elem_of_nil.
  - unfold mbind, mret, result_bind, result_ret.
    destruct (hashes_list a) as [l|e] eqn:Ha; [|done].
    intros [Hs Hadds]%IH. split.
    { etrans; [|exact Hs]. apply union_subseteq_l. }
    intros a' [->|Ha']%elem_of_cons.
    + exists l. split; [done|]. etrans; [|exact Hs]. apply union_subseteq_r.
    + by apply Hadds.
Qed.

Lemma for_acc_responses (lurs : list ListUpdateResponse)
    (s s' : gset (list Z)) :
  for_acc lurs
    (fun list_update_response hash_prefixes =>
       for_acc (additions list_update_response)
         (fun addition hash_prefixes =>
            l ← hashes_list addition; mret (hash_prefixes ∪ list_to_set l))
         hash_prefixes) s
  = Ok s' ->
  s ⊆ s'
  /\ forall lur addition, lur ∈ lurs -> addition ∈ additions lur ->
       exists l, hashes_list addition = Ok l /\ list_to_set l ⊆ s'.
Proof.
  revert s. induction lurs as [|r lurs IH]; intros s; simpl.
  - intros [= ->]. split; [done|]. by intros ? ? ?%elem_of_nil.
  - unfold mbind, result_bind.
    destruct (for_acc (additions r) _ s) as [s1|e] eqn:Hr; [|done].
    apply for_acc_additions in Hr as [Hs1 Hr].
    intros [Hs Hlurs]%IH. split; [by etrans|].
    intros lur a [->|Hlur]%elem_of_cons Ha.
    + destruct (Hr a Ha) as (l & Hl & Hsub). exists l.
      split; [done|by etrans].
    + by eapply Hlurs.
Qed.

(** C8, as the code has it.  Without ["listUpdateResponses"] the result is
    the empty set.  When decoding the [rawHashes] text of one addition
    fails (text that is not ASCII, or base64 that stops inside a quad),
    [get_malicious_url_hash_prefixes] raises: the addition is not skipped
    and no set is returned.  A decoded length that is no multiple of a
    positive [prefixSize] is no failure: whenever a set is returned, the
    bytes left over after the last full prefix are in it as a shorter
    prefix. *)
Theorem get_malicious_url_hash_prefixes_decoding
    (self : SafeBrowsing.t) (answer : ThreatListUpdates) :
  (listUpdateResponses answer = None ->
   get_malicious_url_hash_prefixes self answer = Ok ∅)
  /\ (forall lurs lur addition e,
        listUpdateResponses answer = Some lurs ->
        lur ∈ lurs -> addition ∈ additions lur ->
        decode_rawHashes addition = Raise e ->
        exists e', get_malicious_url_hash_prefixes self answer = Raise e')
  /\ (forall lurs lur addition raw hash_prefixes,
        listUpdateResponses answer = Some lurs ->
        lur ∈ lurs -> addition ∈ additions lur ->
        decode_rawHashes addition = Ok raw ->
        get_malicious_url_hash_prefixes self answer = Ok hash_prefixes ->
        let prefix_size := prefixSize (addition_rawHashes addition) in
        let n := Z.of_nat (length raw) in
        0 < prefix_size -> n mod prefix_size ≠ 0 ->
        exists tail,
          tail = drop (Z.to_nat (n - n mod prefix_size)) raw
          /\ tail ∈ hash_prefixes
          /\ 0 < Z.of_nat (length tail) < prefix_size).
Proof.
  split_and!.
  - intros H.
    unfold get_malicious_url_hash_prefixes, _retrieve_threat_list_updates.
    by rewrite H.
  - intros. by eapply get_malicious_url_hash_prefixes_raises.
  - intros lurs lur a raw S Hlurs Hlur Ha Hdec HS ps n Hps Hmod.
    unfold get_malicious_url_hash_prefixes, _retrieve_threat_list_updates in HS.
    rewrite Hlurs in HS. simpl in HS. rewrite Hlurs in HS. simpl in HS.
    apply for_acc_responses in HS as [_ HS].
    destruct (HS lur a Hlur Ha) as (l & Hl & Hsub).
    destruct (hashes_list_tail a raw Hdec Hps) as (l' & Hl' & Htail).
    rewrite Hl in Hl'. injection Hl' as <-.
    destruct (Htail Hmod) as [Hin Hlen].
    eexists. split; [reflexivity|]. split.
    + apply Hsub. by apply elem_of_list_to_set.
    + pose proof (Z.mod_pos_bound n ps Hps). subst n ps.
      rewrite Hlen. lia.
Qed.

End update.

Lemma get_malicious_url_hash_prefixes_decoding_witness :
  let bad := {| addition_rawHashes :=
                  {| prefixSize := 4; rawHashes := lit "AQIDBAU" |} |} in
  let short := {| addition_rawHashes :=
                    {| prefixSize := 4; rawHashes := lit "AQIDBAU=" |} |} in
  SafeBrowsing.decode_rawHashes bad = Raise binascii_Error
  /\ (exists e',
        SafeBrowsing.get_malicious_url_hash_prefixes google answer_bad_padding
        = Raise e')
  /\ SafeBrowsing.decode_rawHashes short = Ok [1; 2; 3; 4; 5]
  /\ (exists tail,
        tail = drop (Z.to_nat (5 - 5 mod 4)) [1; 2; 3; 4; 5]
        /\ tail ∈ ({[ [1; 2; 3; 4]; [5] ]} : gset (list Z))
        /\ 0 < Z.of_nat (length tail) < 4).
Proof.
  intros bad short.
  assert (Hbad : SafeBrowsing.decode_rawHashes bad = Raise binascii_Error)
    by (vm_compute; reflexivity).
  assert (Hshort : SafeBrowsing.decode_rawHashes short = Ok [1; 2; 3; 4; 5])
    by (vm_compute; reflexivity).
  split; [exact Hbad|]. split; [|split; [exact Hshort|]].
  - destruct (get_malicious_url_hash_prefixes_decoding google
                answer_bad_padding) as (_ & H & _).
    eapply (H _ _ bad); [reflexivity|left|left|exact Hbad].
  - destruct (get_malicious_url_hash_prefixes_decoding google
                answer_short_tail) as (_ & _ & H).
    eapply (H _ _ short [1; 2; 3; 4; 5] {[ [1; 2; 3; 4]; [5] ]});
      [reflexivity|left|left|exact Hshort|vm_compute; reflexivity
      |vm_compute; reflexivity|].
    intros E. vm_compute in E. discriminate.
Defined.

(** C8 as stated fails: with the first of two additions undecodable the
    method raises instead of returning the prefixes of the second; and
    five decoded bytes with [prefixSize] 4 are not skipped but yield the
    prefixes [1,2,3,4] and [5]. *)
Lemma get_malicious_url_hash_prefixes_decode_error :
  SafeBrowsing.get_malicious_url_hash_prefixes google answer_bad_padding
  = Raise binascii_Error
  /\ SafeBrowsing.get_malicious_url_hash_prefixes google answer_short_tail
     = Ok {[ [1; 2; 3; 4]; [5] ]}.
Proof. split; vm_compute; reflexivity. Qed.

(** ** [identify_suspected_urls] *)

Lemma matching_urls_same_files w w' filename prefixSize vendor :
  same_files w w' ->
  matching_urls w' filename prefixSize vendor
  = matching_urls w filename prefixSize vendor.
Proof. intros H. unfold matching_urls. by rewrite !H. Qed.

Lemma get_matching_hashPrefix_urls_eval filename prefixSize vendor w :
  exists w',
    get_matching_hashPrefix_urls (filename, prefixSize, vendor) w
    = (Ok (matching_urls w filename prefixSize vendor), w')
    /\ same_files w w'.
Proof.
  unfold get_matching_hashPrefix_urls, matching_urls. unfold_M.
  unfold sql_select_matching, on_urls. rewrite !db_of_connect.
  destruct (tbl_urls (db_of w filename)) as [t|] eqn:Ht; simpl.
  - destruct (tbl_maliciousHashPrefixes (db_of w (lit "malicious")))
      as [prefixes|]; simpl.
    + eexists. split; [reflexivity|].
      rewrite (database_eta _ _ Ht). unfold sql_detach, mret, T_ret.
      intros g. rewrite !db_of_commit.
      repeat (case_decide; subst; try done).
    + eexists. split; [reflexivity|]. done.
  - eexists. split; [reflexivity|]. done.
Qed.

Lemma execute_get_matching filename vendor prefixSizes w :
  exists w',
    execute_with_ray get_matching_hashPrefix_urls
      ((fun prefixSize => (filename, prefixSize, vendor)) <$> prefixSizes) w
    = (Ok ((fun prefixSize => matching_urls w filename prefixSize vendor)
             <$> prefixSizes), w')
    /\ same_files w w'.
Proof.
  revert w. induction prefixSizes as [|ps sizes IH]; intros w.
  - eexists. split; [reflexivity|]. done.
  - destruct (get_matching_hashPrefix_urls_eval filename ps vendor w)
      as (w1 & E1 & S1).
    destruct (IH w1) as (w2 & E2 & S2).
    exists w2. split; [|by eapply same_files_trans].
    rewrite !fmap_cons. cbn [execute_with_ray].
    unfold mbind, mret, M_bind, M_ret. rewrite E1, E2.
    do 3 f_equal. apply list_fmap_ext. intros _ ps' _.
    by apply matching_urls_same_files.
Qed.






(** ** [add_URLs] *)

Lemma touch_url t u r : urls.url (touch t u r) = urls.url r.
Proof. unfold touch. by case_bool_decide. Qed.

Lemma upserted_nil t rows : upserted t [] rows rows.
Proof.
  split_and!.
  - intros r' _ H. by apply elem_of_nil in H.
  - done.
  - intros r Hr. exists r. by split_and!.
Qed.

Lemma upserted_one t rows u h : upserted t [u] rows (upsert t rows u h).
Proof.
  unfold upsert. case_bool_decide as Hin; split_and!.
  - intros r' (r & -> & Hr)%list_elem_of_fmap Hu.
    rewrite touch_url in Hu. apply list_elem_of_singleton in Hu.
    unfold touch. by rewrite bool_decide_eq_true_2.
  - intros r' (r & -> & Hr)%list_elem_of_fmap Hu.
    rewrite touch_url in Hu. unfold touch.
    rewrite bool_decide_eq_false_2; [done|].
    intros E. apply Hu. by apply list_elem_of_singleton.
  - intros r Hr. exists (touch t u r). split.
    { apply list_elem_of_fmap. eauto. }
    unfold touch. case_bool_decide as E; simpl; split_and!; try done.
    + rewrite bool_decide_eq_true_2; [done|]. by apply list_elem_of_singleton.
    + rewrite bool_decide_eq_false_2; [done|].
      by intros ?%list_elem_of_singleton.
  - intros r' [Hr|Hr%list_elem_of_singleton]%elem_of_app Hu.
    + apply list_elem_of_singleton in Hu. exfalso. apply Hin.
      apply list_elem_of_fmap. eauto.
    + by subst.
  - intros r' [Hr|Hr%list_elem_of_singleton]%elem_of_app Hu; [done|].
    subst. exfalso. apply Hu. by apply list_elem_of_singleton.
  - intros r Hr. exists r. split; [apply elem_of_app; by left|].
    split_and!; try done.
    rewrite bool_decide_eq_false_2; [done|].
    intros E%list_elem_of_singleton. apply Hin.
    apply list_elem_of_fmap. eauto.
Qed.

Lemma upserted_app t us1 us2 rows rows1 rows2 :
  upserted t us1 rows rows1 -> upserted t us2 rows1 rows2 ->
  upserted t (us1 ++ us2) rows rows2.
Proof.
  intros (A1 & B1 & C1) (A2 & B2 & C2). split_and!.
  - intros r' Hr' Hu. destruct (decide (urls.url r' ∈ us2)) as [H2|H2].
    + by apply A2.
    + apply A1; [by apply B2|].
      apply elem_of_app in Hu as [?|?]; done.
  - intros r' Hr' Hu. rewrite elem_of_app in Hu.
    apply B1; [apply B2; [done|]|]; tauto.
  - intros r Hr.
    destruct (C1 r Hr) as (r1 & Hr1 & Eu1 & Ei1 & Eh1 & Eg1 & Ey1 & El1).
    destruct (C2 r1 Hr1) as (r2 & Hr2 & Eu2 & Ei2 & Eh2 & Eg2 & Ey2 & El2).
    exists r2. split_and!; try congruence.
    rewrite El2, El1, Eu1.
    repeat case_bool_decide; try done; rewrite elem_of_app in *; tauto.
Qed.

Lemma upsert_all_upserted t us rows : upserted t us rows (upsert_all t us rows).
Proof.
  revert rows. induction us as [|u us IH]; intros rows; simpl.
  - apply upserted_nil.
  - change (u :: us) with ([u] ++ us).
    eapply upserted_app; [apply upserted_one|apply IH].
Qed.

Lemma for_upsert t us db rows :
  tbl_urls db = Some (UrlsTable feed_schema rows) ->
  forallb encodable us = true ->
  int64 t = true ->
  for_ us (fun url =>
             hash ← lift (compute_url_hash url);
             sql_upsert_url (url, t, hash)) db
  = Ok ((), Database (Some (UrlsTable feed_schema (upsert_all t us rows)))
              (tbl_maliciousHashPrefixes db)).
Proof.
  revert db rows.
  induction us as [|u us IH]; intros db rows Hdb Hus Ht; simpl.
  - unfold mret, T_ret. destruct db; simpl in *; congruence.
  - apply andb_prop in Hus as [Hu Hus].
    unfold mbind, T_bind, lift. rewrite (compute_url_hash_encodable u Hu).
    unfold sql_upsert_url at 1. unfold on_urls at 1. rewrite Hdb.
    cbn [urls_schema urls_rows]. rewrite Ht. cbn [negb]. fold (touch t u).
    case_bool_decide as Hin.
    + erewrite IH; [|reflexivity|done|done]. simpl.
      unfold upsert. by rewrite bool_decide_eq_true_2.
    + erewrite IH; [|reflexivity|done|done]. simpl.
      unfold upsert. by rewrite bool_decide_eq_false_2.
Qed.

(** C3, as the code has it.  On a feed store, for urls that encode and
    an [updateTime] in the 64-bit range, [add_URLs] commits and every url
    it was given ends with [lastListed = updateTime], whatever the row held
    before; rows of other urls are the old rows; every old row is still
    there under its url.  So a row's [lastListed] does not decrease when
    [updateTime] is not smaller than what the row held. *)
Theorem add_URLs_lastListed
    (url_list_fetcher : option (list Z) -> list (list (list Z)))
    (updateTime : Z) (filename : list Z) (filepath : option (list Z))
    (w : world) (rows : list urls.row) :
  tbl_urls (db_of w filename) = Some (UrlsTable feed_schema rows) ->
  forallb encodable (concat (url_list_fetcher filepath)) = true ->
  int64 updateTime = true ->
  exists w' rows',
    add_URLs url_list_fetcher updateTime filename filepath w = (Ok (), w')
    /\ tbl_urls (db_of w' filename) = Some (UrlsTable feed_schema rows')
    /\ (forall r',
          r' ∈ rows' -> urls.url r' ∈ concat (url_list_fetcher filepath) ->
          urls.lastListed r' = Some updateTime)
    /\ (forall r',
          r' ∈ rows' -> urls.url r' ∉ concat (url_list_fetcher filepath) ->
          r' ∈ rows)
    /\ (forall r,
          r ∈ rows ->
          exists r',
            r' ∈ rows'
            /\ urls.url r' = urls.url r
            /\ urls.lastListed r'
               = if bool_decide
                      (urls.url r ∈ concat (url_list_fetcher filepath))
                 then Some updateTime
                 else urls.lastListed r)
    /\ (forall r old,
          r ∈ rows -> urls.lastListed r = Some old -> old <= updateTime ->
          exists r' new,
            r' ∈ rows'
            /\ urls.url r' = urls.url r
            /\ urls.lastListed r' = Some new
            /\ old <= new).
Proof.
  intros Hdb Hurls Htime.
  set (us := concat (url_list_fetcher filepath)) in *.
  pose proof (upsert_all_upserted updateTime us rows) as (HA & HB & HC).
  exists (commit filename
            (Database (Some (UrlsTable feed_schema (upsert_all updateTime us rows)))
               (tbl_maliciousHashPrefixes (db_of w filename)))
            (World (databases w) (connections w ++ [filename]) (posts w))),
         (upsert_all updateTime us rows).
  split_and!.
  - pose proof (for_concat (url_list_fetcher filepath)
                  (fun url =>
                     hash ← lift (compute_url_hash url);
                     sql_upsert_url (url, updateTime, hash))
                  (db_of w filename)) as E1.
    pose proof (for_upsert updateTime us _ rows Hdb Hurls Htime) as E2.
    unfold add_URLs.
    replace (match filepath with
             | Some path => url_list_fetcher (Some path)
             | None => url_list_fetcher None
             end) with (url_list_fetcher filepath) by (by destruct filepath).
    unfold_M. rewrite db_of_connect. fold us in E1. by rewrite E1, E2.
  - rewrite db_of_commit. by rewrite decide_True.
  - exact HA.
  - exact HB.
  - intros r Hr. destruct (HC r Hr) as (r' & ? & ? & _ & _ & _ & _ & ?). eauto.
  - intros r old Hr Hold Hle.
    destruct (HC r Hr) as (r' & Hr' & Hu & _ & _ & _ & _ & Hl).
    rewrite Hold in Hl. case_bool_decide.
    + exists r', updateTime. eauto.
    + exists r', old. split_and!; [done..|lia].
Qed.

Lemma add_URLs_lastListed_witness :
  tbl_urls (db_of w_listed_10 (lit "feed"))
  = Some (UrlsTable feed_schema (rows_of w_listed_10 (lit "feed")))
  /\ forallb encodable (concat [[lit "example.com"; lit "b.org"]]) = true
  /\ int64 20 = true
  /\ exists w' rows',
       add_URLs (fun _ => [[lit "example.com"; lit "b.org"]]) 20 (lit "feed")
         None w_listed_10 = (Ok (), w')
       /\ tbl_urls (db_of w' (lit "feed")) = Some (UrlsTable feed_schema rows')
       /\ (forall r',
             r' ∈ rows' ->
             urls.url r' ∈ concat [[lit "example.com"; lit "b.org"]] ->
             urls.lastListed r' = Some 20)
       /\ (forall r old,
             r ∈ rows_of w_listed_10 (lit "feed") ->
             urls.lastListed r = Some old -> old <= 20 ->
             exists r' new,
               r' ∈ rows'
               /\ urls.url r' = urls.url r
               /\ urls.lastListed r' = Some new
               /\ old <= new).
Proof.
  assert (H1 : tbl_urls (db_of w_listed_10 (lit "feed"))
               = Some (UrlsTable feed_schema (rows_of w_listed_10 (lit "feed"))))
    by (vm_compute; reflexivity).
  assert (H2 : forallb encodable (concat [[lit "example.com"; lit "b.org"]])
               = true) by (vm_compute; reflexivity).
  assert (H3 : int64 20 = true) by reflexivity.
  split; [exact H1|]. split; [exact H2|]. split; [exact H3|].
  destruct (add_URLs_lastListed
              (fun _ => [[lit "example.com"; lit "b.org"]]) 20 (lit "feed") None
              w_listed_10 (rows_of w_listed_10 (lit "feed")) H1 H2 H3)
    as (w' & rows' & E & Ht & HA & _ & _ & HM).
  exists w', rows'. split_and!; [exact E|exact Ht|exact HA|exact HM].
Defined.

(** C3 as stated fails: ["example.com"] listed at time 10 and listed again
    with [updateTime] 5 ends with [lastListed] 5. *)
Lemma lastListed_decreases_on_earlier_updateTime :
  (fun r => (urls.url r, urls.lastListed r)) <$> rows_of w_listed_10 (lit "feed")
  = [(lit "example.com", Some 10)]
  /\ (fun r => (urls.url r, urls.lastListed r)) <$> rows_of w_listed_5 (lit "feed")
     = [(lit "example.com", Some 5)].
Proof. split; vm_compute; reflexivity. Qed.


(** ** [add_IPs] *)

Lemma decimal_octet n :
  0 <= n < 256 ->
  undecimal (decimal n) = n /\ forallb is_digit (decimal n) = true.
Proof.
  intros Hn.
  assert (H : forallb (fun n => (undecimal (decimal n) =? n)
                                && forallb is_digit (decimal n))
                (seqZ 0 256) = true) by (vm_compute; reflexivity).
  pose proof (forallb_seqZ _ _ H n Hn) as Hn'. simpl in Hn'.
  apply andb_prop in Hn' as [H1 H2]. split; [lia|done].
Qed.

Lemma decimal_inj n m :
  0 <= n < 256 -> 0 <= m < 256 -> decimal n = decimal m -> n = m.
Proof.
  intros Hn Hm E.
  destruct (decimal_octet n Hn) as [<- _].
  destruct (decimal_octet m Hm) as [<- _]. by rewrite E.
Qed.

Lemma decimal_no_dot n : 0 <= n < 256 -> 46 ∉ decimal n.
Proof.
  intros Hn Hin. destruct (decimal_octet n Hn) as [_ H].
  rewrite forallb_forall in H. apply list_elem_of_In, H in Hin. done.
Qed.

Lemma decimal_ascii n :
  0 <= n < 256 -> forallb scalar_value (decimal n) = true.
Proof.
  intros Hn. destruct (decimal_octet n Hn) as [_ H].
  rewrite forallb_forall in *. intros c Hc%H.
  unfold is_digit in Hc. unfold scalar_value. lia.
Qed.

Lemma app_sep_inj (sep : Z) (s s' r r' : list Z) :
  sep ∉ s -> sep ∉ s' -> s ++ sep :: r = s' ++ sep :: r' -> s = s' /\ r = r'.
Proof.
  revert s'. induction s as [|c s IH]; intros [|c' s'] Hs Hs' E; simpl in E.
  - by injection E.
  - injection E as -> _. exfalso. apply Hs'. left.
  - injection E as -> _. exfalso. apply Hs. left.
  - injection E as -> E.
    destruct (IH s') as [-> ->]; [| |done..].
    + intros H. apply Hs. by right.
    + intros H. apply Hs'. by right.
Qed.

Lemma dotted_quad_inj a b c d a' b' c' d' :
  0 <= a < 256 -> 0 <= b < 256 -> 0 <= c < 256 -> 0 <= d < 256 ->
  0 <= a' < 256 -> 0 <= b' < 256 -> 0 <= c' < 256 -> 0 <= d' < 256 ->
  dotted_quad a b c d = dotted_quad a' b' c' d' ->
  a = a' /\ b = b' /\ c = c' /\ d = d'.
Proof.
  intros Ha Hb Hc Hd Ha' Hb' Hc' Hd'. unfold dotted_quad.
  change (lit ".") with [46]. simpl.
  intros E.
  apply app_sep_inj in E as [Ea E]; [|by apply decimal_no_dot..].
  apply app_sep_inj in E as [Eb E]; [|by apply decimal_no_dot..].
  apply app_sep_inj in E as [Ec Ed]; [|by apply decimal_no_dot..].
  split_and!; by apply decimal_inj.
Qed.

Lemma dotted_quad_ascii a b c d :
  0 <= a < 256 -> 0 <= b < 256 -> 0 <= c < 256 -> 0 <= d < 256 ->
  forallb scalar_value (dotted_quad a b c d) = true.
Proof.
  intros. unfold dotted_quad. change (lit ".") with [46].
  rewrite !forallb_app. simpl. rewrite !decimal_ascii by done. done.
Qed.

Lemma land_255 x : Z.land x 0xFF = x mod 256.
Proof. change 0xFF with (Z.ones 8). by rewrite Z.land_ones. Qed.

Lemma be_bytes_4 x :
  0 <= x < 2 ^ 32 ->
  be_bytes 4 x
  = [x / 2 ^ 24; x / 2 ^ 16 mod 256; x / 2 ^ 8 mod 256; x mod 256].
Proof.
  intros Hx. unfold be_bytes. simpl.
  rewrite !land_255, !Z.shiftr_div_pow2 by lia.
  change (2 ^ 0) with 1. rewrite Z.div_1_r.
  repeat f_equal. apply Z.mod_small. split.
  - apply Z.div_pos; lia.
  - apply Z.div_lt_upper_bound; lia.
Qed.

Lemma ip_text_octets x :
  0 <= x < 2 ^ 32 ->
  0 <= x / 2 ^ 24 < 256 /\ 0 <= x / 2 ^ 16 mod 256 < 256
  /\ 0 <= x / 2 ^ 8 mod 256 < 256 /\ 0 <= x mod 256 < 256.
Proof.
  intros Hx.
  change (2 ^ 24) with 16777216 in *. change (2 ^ 16) with 65536 in *.
  change (2 ^ 8) with 256 in *. change (2 ^ 32) with 4294967296 in *.
  split_and!; Z.div_mod_to_equations; lia.
Qed.

Lemma int_addr_to_ip_and_hash_eval int_addr :
  0 <= int_addr < 2 ^ 32 ->
  int_addr_to_ip_and_hash int_addr
  = Ok (ip_text int_addr, hash_of (ip_text int_addr)).
Proof.
  intros Hx. unfold int_addr_to_ip_and_hash, struct_pack_I.
  replace ((0 <=? int_addr) && (int_addr <? 2 ^ 32)) with true by lia.
  unfold mbind, mret, result_bind, result_ret.
  rewrite be_bytes_4 by done. simpl. fold (ip_text int_addr).
  rewrite compute_url_hash_encodable; [done|].
  destruct (ip_text_octets _ Hx) as (? & ? & ? & ?).
  by apply dotted_quad_ascii.
Qed.

Lemma ip_text_inj x y :
  0 <= x < 2 ^ 32 -> 0 <= y < 2 ^ 32 -> ip_text x = ip_text y -> x = y.
Proof.
  intros Hx Hy E.
  destruct (ip_text_octets _ Hx) as (? & ? & ? & ?).
  destruct (ip_text_octets _ Hy) as (? & ? & ? & ?).
  apply dotted_quad_inj in E as (E1 & E2 & E3 & E4); [|done..].
  clear -Hx Hy E1 E2 E3 E4. 
  change (2 ^ 24) with 16777216 in *. change (2 ^ 16) with 65536 in *.
  change (2 ^ 8) with 256 in *. change (2 ^ 32) with 4294967296 in *.
  Z.div_mod_to_equations. lia.
Qed.

Lemma ip_text_dotted_quad a b c d :
  0 <= a < 256 -> 0 <= b < 256 -> 0 <= c < 256 -> 0 <= d < 256 ->
  let int_addr := a * 2 ^ 24 + b * 2 ^ 16 + c * 2 ^ 8 + d in
  0 <= int_addr < 2 ^ 32 /\ ip_text int_addr = dotted_quad a b c d.
Proof.
  intros Ha Hb Hc Hd x. subst x. unfold ip_text.
  change (2 ^ 24) with 16777216 in *. change (2 ^ 16) with 65536 in *.
  change (2 ^ 8) with 256 in *. change (2 ^ 32) with 4294967296 in *.
  split; [lia|]. f_equal; Z.div_mod_to_equations; lia.
Qed.

Lemma sql_max_snoc vs x :
  sql_max (vs ++ [Some x])
  = Some (match sql_max vs with
          | Some m => Z.max m x
          | None => x
          end).
Proof.
  unfold sql_max. rewrite foldr_app. simpl.
  induction vs as [|v vs IH]; [done|].
  simpl. rewrite IH. destruct v as [y|]; [|done].
  destruct (foldr _ None vs); f_equal; lia.
Qed.

Lemma max_rowid_snoc rows r :
  max_rowid (rows ++ [r])
  = Some (match max_rowid rows with
          | Some m => Z.max m (urls.rowid r)
          | None => urls.rowid r
          end).
Proof. unfold max_rowid. rewrite fmap_app. apply sql_max_snoc. Qed.

Lemma max_rowid_contiguous rows :
  contiguous rows = true ->
  max_rowid rows
  = if bool_decide (rows = []) then None else Some (Z.of_nat (length rows)).
Proof.
  unfold contiguous. rewrite bool_decide_eq_true.
  induction rows as [|r rows IH] using rev_ind; intros H; [done|].
  rewrite bool_decide_eq_false_2 by (by destruct rows).
  rewrite length_app, Nat2Z.inj_add in *. simpl length in *.
  rewrite fmap_app, seqZ_app in H by lia.
  apply app_inj_1 in H as [H1 H2].
  2:{ rewrite length_fmap, length_seqZ. lia. }
  simpl in H2. injection H2 as H2.
  rewrite max_rowid_snoc, IH by done.
  case_bool_decide; subst; simpl in *; f_equal; lia.
Qed.

Lemma ip_rows_S k :
  ip_rows (Z.of_nat (S k)) = ip_rows (Z.of_nat k) ++ [ip_row (Z.of_nat k)].
Proof. unfold ip_rows. by rewrite seqZ_S, fmap_app. Qed.

Lemma next_rowid_ip_rows n : 0 <= n -> next_rowid (ip_rows n) = n + 1.
Proof.
  intros Hn. rewrite <- (Z2Nat.id n) by done.
  generalize (Z.to_nat n) as k. clear. intros k. unfold next_rowid.
  induction k as [|k IH]; [done|].
  rewrite ip_rows_S, max_rowid_snoc.
  destruct (max_rowid (ip_rows (Z.of_nat k))); simpl; lia.
Qed.

Lemma for_insert_ip l db rows :
  tbl_urls db = Some (UrlsTable ips_schema rows) ->
  Forall (fun int_addr => 0 <= int_addr < 2 ^ 32) l ->
  for_ l (fun int_addr =>
            p ← lift (int_addr_to_ip_and_hash int_addr);
            sql_insert_url_hash p) db
  = Ok ((), Database (Some (UrlsTable ips_schema (foldl insert_ip rows l)))
              (tbl_maliciousHashPrefixes db)).
Proof.
  intros Hdb Hl. revert db rows Hdb.
  induction Hl as [|a l Ha _ IH]; intros db rows Hdb; simpl.
  - unfold mret, T_ret. destruct db; simpl in *; congruence.
  - unfold mbind, T_bind, lift. rewrite (int_addr_to_ip_and_hash_eval a Ha).
    unfold sql_insert_url_hash, on_urls. rewrite Hdb. simpl.
    erewrite IH by reflexivity. done.
Qed.

Lemma foldl_insert_ip n : 0 <= n -> foldl insert_ip [] (seqZ 0 n) = ip_rows n.
Proof.
  intros Hn. rewrite <- (Z2Nat.id n) by done.
  generalize (Z.to_nat n) as k. clear. intros k.
  induction k as [|k IH]; [done|].
  rewrite seqZ_S, foldl_app, IH, ip_rows_S. simpl.
  unfold insert_ip, ip_row. rewrite next_rowid_ip_rows by lia. done.
Qed.

Lemma length_ip_rows n : 0 <= n -> Z.of_nat (length (ip_rows n)) = n.
Proof. intros. unfold ip_rows. rewrite length_fmap, length_seqZ. lia. Qed.

Lemma max_rowid_ip_rows n : 0 < n -> max_rowid (ip_rows n) = Some n.
Proof.
  intros Hn. pose proof (next_rowid_ip_rows n ltac:(lia)) as H.
  unfold next_rowid in H.
  destruct (max_rowid (ip_rows n)) as [m|] eqn:E; [f_equal; lia|].
  exfalso. rewrite <- (Z2Nat.id n) in E by lia.
  destruct (Z.to_nat n) as [|k] eqn:Ek; [lia|].
  by rewrite ip_rows_S, max_rowid_snoc in E.
Qed.

Lemma contiguous_ip_rows n : 0 <= n -> contiguous (ip_rows n) = true.
Proof.
  intros Hn. unfold contiguous. apply bool_decide_eq_true.
  rewrite length_ip_rows by done. unfold ip_rows.
  rewrite <- list_fmap_compose.
  change 1 with (1 + 0) at 1. rewrite <- (fmap_add_seqZ 1 0 n).
  apply list_fmap_ext. intros _ x _. simpl. lia.
Qed.

Lemma lookup_ip_rows n int_addr :
  0 <= int_addr < n -> ip_rows n !! Z.to_nat int_addr = Some (ip_row int_addr).
Proof.
  intros H. unfold ip_rows. rewrite list_lookup_fmap, lookup_seqZ_lt by lia.
  simpl. f_equal. f_equal. lia.
Qed.

Lemma url_count_ip_rows n a b c d :
  0 <= n <= 2 ^ 32 ->
  0 <= a < 256 -> 0 <= b < 256 -> 0 <= c < 256 -> 0 <= d < 256 ->
  a * 2 ^ 24 + b * 2 ^ 16 + c * 2 ^ 8 + d < n ->
  url_count (dotted_quad a b c d) (ip_rows n) = 1%nat.
Proof.
  intros Hn Ha Hb Hc Hd Hlt.
  destruct (ip_text_dotted_quad a b c d Ha Hb Hc Hd) as [Hx <-].
  set (x := a * 2 ^ 24 + b * 2 ^ 16 + c * 2 ^ 8 + d) in *.
  unfold url_count, ip_rows.
  apply (filter_fmap_unique ip_row _ _ x).
  - apply NoDup_seqZ.
  - apply elem_of_seqZ. lia.
  - intros y Hy%elem_of_seqZ. simpl. split; [|by intros ->].
    apply ip_text_inj; lia.
Qed.

Lemma add_IPs_eval filename w rows :
  tbl_urls (db_of w filename) = Some (UrlsTable ips_schema rows) ->
  exists w',
    add_IPs filename w = (Ok (), w')
    /\ tbl_urls (db_of w' filename)
       = Some (UrlsTable ips_schema
                 (if bool_decide (max_rowid rows = Some ips_to_generate)
                  then rows else ip_rows ips_to_generate))
    /\ (forall g, g ≠ filename -> db_of w' g = db_of w g).
Proof.
  intros Hdb.
  assert (Hrange : Forall (fun int_addr => 0 <= int_addr < 2 ^ 32)
                     (seqZ 0 ips_to_generate)).
  { apply Forall_seqZ. intros. unfold ips_to_generate in *. lia. }
  pose proof (fun db rows H => for_insert_ip _ db rows H Hrange) as Eloop.
  pose proof (foldl_insert_ip ips_to_generate ltac:(unfold ips_to_generate; lia))
    as Efold.
  unfold add_IPs.
  generalize dependent (seqZ 0 ips_to_generate). intros l _ Eloop Efold.
  unfold_M. rewrite db_of_connect.
  unfold sql_select_max_rowid, on_urls at 1. rewrite Hdb.
  cbn [urls_rows].
  case_bool_decide as Hmax.
  - rewrite bool_decide_eq_false_2 by done.
    rewrite db_of_commit, decide_True by done.
    unfold sql_delete_urls, on_urls.
    cbn [tbl_urls tbl_maliciousHashPrefixes urls_schema].
    rewrite db_of_commit, decide_True by done.
    erewrite Eloop by reflexivity. rewrite Efold.
    eexists. split; [reflexivity|]. split.
    + rewrite db_of_commit, decide_True by done. done.
    + intros g Hg. rewrite !db_of_commit, !decide_False by done. done.
  - rewrite bool_decide_eq_true_2 by done.
    eexists. split; [reflexivity|]. split.
    + rewrite db_of_commit, decide_True by done. done.
    + intros g Hg. rewrite !db_of_commit, !decide_False by done. done.
Qed.

(** X29.  On an [ipv4] store, [add_IPs] looks at the
    largest rowid, [MAX(_rowid_)], not at the number of rows.  When it is
    [2^32] the table is left unchanged.  Otherwise (also on an empty table)
    all rows are deleted and one row [(ip_text, hash)] is inserted for
    every address in [0, 2^32), in order, [ip_text] being the big-endian
    dotted quad of the address: afterwards the table has [2^32] rows, every
    dotted quad [a.b.c.d] with components in [0, 256) is the url of exactly
    one row, the rowids are 1, ..., [2^32] and the largest rowid is
    [2^32].  On a table whose rowids are
    1, 2, ..., the number of rows, [MAX(_rowid_) = 2^32] says the same as
    [COUNT = 2^32]. *)
Theorem add_IPs_regenerates (filename : list Z) (w : world)
    (rows : list urls.row) :
  tbl_urls (db_of w filename) = Some (UrlsTable ips_schema rows) ->
  exists w' rows',
    add_IPs filename w = (Ok (), w')
    /\ tbl_urls (db_of w' filename) = Some (UrlsTable ips_schema rows')
    /\ (max_rowid rows = Some (2 ^ 32) -> rows' = rows)
    /\ (max_rowid rows ≠ Some (2 ^ 32) ->
        rows' = ip_rows (2 ^ 32)
        /\ Z.of_nat (length rows') = 2 ^ 32
        /\ (forall int_addr,
              0 <= int_addr < 2 ^ 32 ->
              exists ip hash,
                int_addr_to_ip_and_hash int_addr = Ok (ip, hash)
                /\ ip = ip_text int_addr
                /\ rows' !! Z.to_nat int_addr
                   = Some (urls.Row (int_addr + 1) ip None None None hash))
        /\ (forall a b c d,
              0 <= a < 256 -> 0 <= b < 256 -> 0 <= c < 256 -> 0 <= d < 256 ->
              url_count (dotted_quad a b c d) rows' = 1%nat)
        /\ max_rowid rows' = Some (2 ^ 32)
        /\ contiguous rows' = true)
    /\ (contiguous rows = true ->
        (max_rowid rows = Some (2 ^ 32) <-> Z.of_nat (length rows) = 2 ^ 32)).
Proof.
  intros Hdb.
  destruct (add_IPs_eval filename w rows Hdb) as (w' & E & Ht & _).
  remember ips_to_generate as n eqn:Hn. unfold ips_to_generate in Hn.
  eexists w', _. split; [exact E|]. split; [exact Ht|].
  split_and!.
  - intros Hmax. rewrite bool_decide_eq_true_2; [done|]. by subst.
  - intros Hmax. rewrite bool_decide_eq_false_2 by (by subst). split_and!.
    + by subst.
    + rewrite length_ip_rows; lia.
    + intros x Hx. eexists _, _. split_and!.
      * by apply int_addr_to_ip_and_hash_eval.
      * reflexivity.
      * apply lookup_ip_rows. lia.
    + intros a b c d Ha Hb Hc Hd. apply url_count_ip_rows; try done; [lia|].
      destruct (ip_text_dotted_quad a b c d Ha Hb Hc Hd) as [H _].
      cbv zeta in H. lia.
    + rewrite max_rowid_ip_rows; [by subst|lia].
    + apply contiguous_ip_rows. lia.
  - intros Hc. rewrite (max_rowid_contiguous rows Hc).
    destruct rows as [|r rows].
    + simpl. split; [done|lia].
    + rewrite bool_decide_eq_false_2 by done.
      split.
      * intros H. by apply (inj Some) in H.
      * intros H; f_equal; exact H.
Qed.

Lemma add_IPs_regenerates_witness :
  tbl_urls (db_of w_ipv4_ten_rows (lit "ipv4"))
  = Some (UrlsTable ips_schema (ip_rows 10))
  /\ max_rowid (ip_rows 10) = Some 10
  /\ exists w' rows',
       add_IPs (lit "ipv4") w_ipv4_ten_rows = (Ok (), w')
       /\ tbl_urls (db_of w' (lit "ipv4")) = Some (UrlsTable ips_schema rows')
       /\ Z.of_nat (length rows') = 2 ^ 32
       /\ (forall a b c d,
             0 <= a < 256 -> 0 <= b < 256 -> 0 <= c < 256 -> 0 <= d < 256 ->
             url_count (dotted_quad a b c d) rows' = 1%nat).
Proof.
  assert (H1 : tbl_urls (db_of w_ipv4_ten_rows (lit "ipv4"))
               = Some (UrlsTable ips_schema (ip_rows 10))) by reflexivity.
  assert (H2 : max_rowid (ip_rows 10) = Some 10) by (vm_compute; reflexivity).
  split; [exact H1|]. split; [exact H2|].
  destruct (add_IPs_regenerates (lit "ipv4") w_ipv4_ten_rows (ip_rows 10) H1)
    as (w' & rows' & E & Ht & _ & Hgen & _).
  destruct Hgen as (_ & Hlen & _ & Hquad & _ & _).
  { rewrite H2. intros H. by apply (inj Some) in H. }
  exists w', rows'. split_and!; [exact E|exact Ht|exact Hlen|exact Hquad].
Defined.

(** C4, where the code does not do what its comments say ("Check if
    there are 2 ** 32 ips in DB", "If DB does not have 2 ** 32 IPs, delete
    all rows ... and regenerate IPs"): a table holding only the row with
    rowid [2^32] (the row of 255.255.255.255) has one row, not [2^32], and
    [add_IPs] leaves it as it is. *)
Lemma add_IPs_keeps_one_row :
  exists w',
    add_IPs (lit "ipv4") w_ipv4_last_row = (Ok (), w')
    /\ urls.url <$> rows_of w_ipv4_last_row (lit "ipv4")
       = [lit "255.255.255.255"]
    /\ rows_of w' (lit "ipv4") = rows_of w_ipv4_last_row (lit "ipv4")
    /\ Z.of_nat (length (rows_of w' (lit "ipv4"))) ≠ 2 ^ 32.
Proof.
  destruct (add_IPs_eval (lit "ipv4") w_ipv4_last_row [ip_row (2 ^ 32 - 1)])
    as (w' & E & Ht & _); [vm_compute; reflexivity|].
  rewrite bool_decide_eq_true_2 in Ht by (vm_compute; reflexivity).
  exists w'. split; [exact E|]. split; [vm_compute; reflexivity|].
  assert (Hrows : rows_of w' (lit "ipv4") = rows_of w_ipv4_last_row (lit "ipv4")).
  { unfold rows_of at 1. rewrite Ht. vm_compute. reflexivity. }
  split; [exact Hrows|]. rewrite Hrows. vm_compute. discriminate.
Qed.

(** * Further properties of the code *)

(** ** Creating the tables *)

Lemma database_eq db db' :
  tbl_urls db = tbl_urls db' ->
  tbl_maliciousHashPrefixes db = tbl_maliciousHashPrefixes db' -> db = db'.
Proof. destruct db, db'; simpl; congruence. Qed.

Lemma create_urls_eval (s : schema) (f : list Z) (w : world) :
  exists w',
    (conn ← create_connection f;
     try_except_Error () (with_conn conn (sql_create_urls s));;
     close conn) w = (Ok (), w')
    /\ forall g,
         db_of w' g
         = if decide (f = g)
           then Database
                  (Some (default (UrlsTable s []) (tbl_urls (db_of w f))))
                  (tbl_maliciousHashPrefixes (db_of w f))
           else db_of w g.
Proof.
  unfold_M. unfold sql_create_urls. rewrite db_of_connect.
  destruct (tbl_urls (db_of w f)) as [t|] eqn:Ht; simpl;
    (eexists; split; [reflexivity|]); intros g;
    rewrite db_of_commit, ?db_of_connect; destruct (decide (f = g)); try done.
  apply database_eq; simpl; congruence.
Qed.

Lemma create_maliciousHashPrefixes_table_eval (w : world) :
  exists w',
    create_maliciousHashPrefixes_table w = (Ok (), w')
    /\ forall g,
         db_of w' g
         = if decide (lit "malicious" = g)
           then Database (tbl_urls (db_of w (lit "malicious")))
                  (Some (default []
                     (tbl_maliciousHashPrefixes (db_of w (lit "malicious")))))
           else db_of w g.
Proof.
  unfold create_maliciousHashPrefixes_table. unfold_M.
  unfold sql_create_maliciousHashPrefixes. rewrite db_of_connect.
  destruct (tbl_maliciousHashPrefixes (db_of w (lit "malicious"))) as [t|] eqn:Ht;
    simpl; (eexists; split; [reflexivity|]); intros g;
    rewrite db_of_commit, ?db_of_connect;
    destruct (decide (lit "malicious" = g)); try done.
  apply database_eq; simpl; congruence.
Qed.

Lemma create_urls_table_eval (f : list Z) (w : world) :
  exists w',
    create_urls_table f w = (Ok (), w')
    /\ forall g,
         db_of w' g
         = if decide (f = g)
           then Database
                  (Some (default (UrlsTable feed_schema [])
                           (tbl_urls (db_of w f))))
                  (tbl_maliciousHashPrefixes (db_of w f))
           else db_of w g.
Proof. apply create_urls_eval. Qed.

Lemma create_ips_table_eval (f : list Z) (w : world) :
  exists w',
    create_ips_table f w = (Ok (), w')
    /\ forall g,
         db_of w' g
         = if decide (f = g)
           then Database
                  (Some (default (UrlsTable ips_schema [])
                           (tbl_urls (db_of w f))))
                  (tbl_maliciousHashPrefixes (db_of w f))
           else db_of w g.
Proof. apply create_urls_eval. Qed.

Lemma execute_create_urls_table (fs : list (list Z)) (w : world) :
  exists w' us,
    execute_with_ray create_urls_table fs w = (Ok us, w')
    /\ forall g,
         tbl_urls (db_of w' g)
         = match tbl_urls (db_of w g) with
           | Some t => Some t
           | None => if bool_decide (g ∈ fs)
                     then Some (UrlsTable feed_schema []) else None
           end
         /\ tbl_maliciousHashPrefixes (db_of w' g)
            = tbl_maliciousHashPrefixes (db_of w g).
Proof.
  revert w. induction fs as [|f fs IH]; intros w.
  - exists w, []. split; [done|]. intros g. split; [|done].
    rewrite bool_decide_eq_false_2 by apply not_elem_of_nil.
    by destruct (tbl_urls (db_of w g)).
  - destruct (create_urls_table_eval f w) as (w1 & E1 & H1).
    destruct (IH w1) as (w2 & us & E2 & H2).
    exists w2, (() :: us). split.
    + simpl. unfold mbind at 1, M_bind at 1. rewrite E1.
      unfold mbind at 1, M_bind at 1. by rewrite E2.
    + intros g. destruct (H2 g) as [-> ->]. rewrite H1.
      destruct (decide (f = g)) as [->|Hne]; simpl.
      * destruct (tbl_urls (db_of w g)); simpl; [done|].
        by rewrite bool_decide_eq_true_2 by left.
      * split; [|done]. destruct (tbl_urls (db_of w g)); [done|].
        destruct (decide (g ∈ fs)).
        -- rewrite !bool_decide_eq_true_2; [done|by right|done].
        -- rewrite !bool_decide_eq_false_2; [done| |done].
           intros [?|?]%elem_of_cons; congruence.
Qed.

Lemma initialise_database_eval (urls_filenames : list (list Z)) (w : world) :
  exists w',
    initialise_database urls_filenames w = (Ok (), w')
    /\ forall g,
         tbl_urls (db_of w' g)
         = match tbl_urls (db_of w g) with
           | Some t => Some t
           | None =>
               if bool_decide (g ∈ urls_filenames)
               then Some (UrlsTable feed_schema [])
               else if bool_decide (g = lit "ipv4")
                    then Some (UrlsTable ips_schema [])
                    else None
           end
         /\ tbl_maliciousHashPrefixes (db_of w' g)
            = match tbl_maliciousHashPrefixes (db_of w g) with
              | Some t => Some t
              | None => if bool_decide (g = lit "malicious")
                        then Some [] else None
              end.
Proof.
  destruct (execute_create_urls_table urls_filenames w) as (w1 & us & E1 & H1).
  destruct (create_ips_table_eval (lit "ipv4") w1) as (w2 & E2 & H2).
  destruct (create_maliciousHashPrefixes_table_eval w2) as (w3 & E3 & H3).
  exists w3. split.
  - unfold initialise_database. unfold mbind at 1, M_bind at 1.
    rewrite E1. unfold mbind at 1, M_bind at 1. by rewrite E2.
  - intros g. rewrite H3.
    destruct (decide (lit "malicious" = g)) as [<-|Hm]; simpl.
    + rewrite !H2. destruct (H1 (lit "malicious")) as [Hu Hp].
      rewrite decide_False by done. rewrite Hu, Hp. split.
      * destruct (tbl_urls (db_of w (lit "malicious"))); [done|].
        by case_bool_decide.
      * by destruct (tbl_maliciousHashPrefixes (db_of w (lit "malicious"))).
    + rewrite (bool_decide_eq_false_2 (g = lit "malicious")) by done.
      rewrite H2. destruct (decide (lit "ipv4" = g)) as [<-|Hi]; simpl.
      * destruct (H1 (lit "ipv4")) as [-> ->].
        split; [|by destruct (tbl_maliciousHashPrefixes (db_of w (lit "ipv4")))].
        destruct (tbl_urls (db_of w (lit "ipv4"))); [done|].
        by case_bool_decide.
      * destruct (H1 g) as [-> ->].
        rewrite (bool_decide_eq_false_2 (g = lit "ipv4")) by done.
        split; [done|]. by destruct (tbl_maliciousHashPrefixes (db_of w g)).
Qed.

(** X1.  [initialise_database] never fails and never drops data.
    Afterwards every listed file has a [urls] table, [ipv4] has one and
    [malicious] has a [maliciousHashPrefixes] table.  A table that was
    there before is kept as it was, schema and rows ([CREATE TABLE IF NOT
    EXISTS]); a [urls] table that was not there starts without rows, with
    the feed schema when its file is listed. *)
Theorem initialise_database_tables (urls_filenames : list (list Z)) (w : world) :
  exists w',
    initialise_database urls_filenames w = (Ok (), w')
    /\ (forall g, g ∈ urls_filenames -> tbl_urls (db_of w' g) ≠ None)
    /\ tbl_urls (db_of w' (lit "ipv4")) ≠ None
    /\ tbl_maliciousHashPrefixes (db_of w' (lit "malicious")) ≠ None
    /\ (forall g t, tbl_urls (db_of w g) = Some t ->
                    tbl_urls (db_of w' g) = Some t)
    /\ (forall g t, tbl_maliciousHashPrefixes (db_of w g) = Some t ->
                    tbl_maliciousHashPrefixes (db_of w' g) = Some t)
    /\ (forall g, tbl_urls (db_of w g) = None ->
                  rows_of w' g = []
                  /\ (g ∈ urls_filenames ->
                      tbl_urls (db_of w' g) = Some (UrlsTable feed_schema []))).
Proof.
  destruct (initialise_database_eval urls_filenames w) as (w' & E & H).
  exists w'. split; [done|]. split_and!.
  - intros g Hg. destruct (H g) as [-> _].
    destruct (tbl_urls (db_of w g)); [done|].
    by rewrite bool_decide_eq_true_2.
  - destruct (H (lit "ipv4")) as [-> _].
    destruct (tbl_urls (db_of w (lit "ipv4"))); [done|].
    case_bool_decide; [done|]. by rewrite bool_decide_eq_true_2.
  - destruct (H (lit "malicious")) as [_ ->].
    destruct (tbl_maliciousHashPrefixes (db_of w (lit "malicious"))); [done|].
    by rewrite bool_decide_eq_true_2.
  - intros g t Ht. destruct (H g) as [-> _]. by rewrite Ht.
  - intros g t Ht. destruct (H g) as [_ ->]. by rewrite Ht.
  - intros g Hg. unfold rows_of. destruct (H g) as [-> _]. rewrite Hg. split.
    + repeat case_bool_decide; done.
    + intros Hin. by rewrite bool_decide_eq_true_2.
Qed.

(** X2.  Running [initialise_database] a second time with the same
    file names changes no table of any file. *)
Theorem initialise_database_idempotent
    (urls_filenames : list (list Z)) (w : world) :
  exists w1 w2,
    initialise_database urls_filenames w = (Ok (), w1)
    /\ initialise_database urls_filenames w1 = (Ok (), w2)
    /\ same_files w1 w2.
Proof.
  destruct (initialise_database_eval urls_filenames w) as (w1 & E1 & H1).
  destruct (initialise_database_eval urls_filenames w1) as (w2 & E2 & H2).
  exists w1, w2. split_and!; [done..|]. intros g.
  destruct (H2 g) as [Hu Hp], (H1 g) as [Hu1 Hp1].
  apply database_eq.
  - rewrite Hu, Hu1.
    destruct (tbl_urls (db_of w g)); [done|]. repeat case_bool_decide; done.
  - rewrite Hp, Hp1.
    destruct (tbl_maliciousHashPrefixes (db_of w g)); [done|].
    repeat case_bool_decide; done.
Qed.

(** ** [compute_url_hash] and [add_URLs] *)

Lemma utf8_encode_char_raises c :
  scalar_value c = false -> utf8_encode_char c = Raise UnicodeEncodeError.
Proof.
  unfold scalar_value, utf8_encode_char. intros H.
  repeat case_match; try done; lia.
Qed.

Lemma encode_raises u :
  encodable u = false -> encode u = Raise UnicodeEncodeError.
Proof.
  unfold encodable. induction u as [|c u IH]; simpl; intros H; [done|].
  apply andb_false_iff in H as [Hc|Hu].
  - by rewrite utf8_encode_char_raises.
  - destruct (scalar_value c) eqn:Hc.
    + destruct (utf8_encode_char_scalar c Hc) as [b ->].
      unfold_result. by rewrite IH.
    + by rewrite utf8_encode_char_raises.
Qed.

Lemma compute_url_hash_raises u :
  encodable u = false -> compute_url_hash u = Raise UnicodeEncodeError.
Proof.
  intros H. rewrite compute_url_hash_eq. by rewrite encode_raises.
Qed.

(** X3.  [compute_url_hash] raises exactly on the urls that hold a
    code point [str.encode()] refuses (a lone surrogate); the exception is
    [UnicodeEncodeError] and never another one; on every other url it
    returns a hash. *)
Theorem compute_url_hash_raises_iff (url : list Z) :
  (compute_url_hash url = Raise UnicodeEncodeError <-> encodable url = false)
  /\ (is_Ok (compute_url_hash url) <-> encodable url = true)
  /\ (forall e, compute_url_hash url = Raise e -> e = UnicodeEncodeError).
Proof.
  destruct (encodable url) eqn:H.
  - rewrite (compute_url_hash_encodable url H). split_and!.
    + split; done.
    + split; [done|]. intros _. by eexists.
    + done.
  - rewrite (compute_url_hash_raises url H). split_and!.
    + done.
    + split; [|done]. by intros [? ?].
    + by intros e [= <-].
Qed.

Lemma urls_upsert t rows u h :
  urls.url <$> upsert t rows u h
  = if bool_decide (u ∈ urls.url <$> rows) then urls.url <$> rows
    else (urls.url <$> rows) ++ [u].
Proof.
  unfold upsert. case_bool_decide.
  - rewrite <- list_fmap_compose. apply list_fmap_ext.
    intros i r _. apply touch_url.
  - by rewrite fmap_app.
Qed.

Lemma upsert_all_cons t v us rows :
  upsert_all t (v :: us) rows = upsert_all t us (upsert t rows v (hash_of v)).
Proof. done. Qed.

Lemma urls_upsert_all t us rows (u : list Z) :
  u ∈ urls.url <$> upsert_all t us rows <-> u ∈ urls.url <$> rows \/ u ∈ us.
Proof.
  revert rows. induction us as [|v us IH]; intros rows.
  - simpl. rewrite elem_of_nil. tauto.
  - rewrite upsert_all_cons, IH, urls_upsert, elem_of_cons.
    case_bool_decide as Hv.
    + split; [tauto|]. intros [?|[->|?]]; tauto.
    + rewrite elem_of_app, list_elem_of_singleton. tauto.
Qed.

Lemma NoDup_upsert_all t us rows :
  NoDup (urls.url <$> rows) -> NoDup (urls.url <$> upsert_all t us rows).
Proof.
  revert rows. induction us as [|v us IH]; intros rows H; [done|].
  rewrite upsert_all_cons. apply IH. rewrite urls_upsert. case_bool_decide as Hv; [done|].
  apply NoDup_app. split_and!; [done| |apply NoDup_singleton].
  intros x Hx ->%list_elem_of_singleton. done.
Qed.

Lemma hashed_upsert_all t us rows :
  Forall hashed rows -> Forall hashed (upsert_all t us rows).
Proof.
  revert rows. induction us as [|v us IH]; intros rows H; [done|].
  rewrite upsert_all_cons. apply IH. unfold upsert. case_bool_decide.
  - apply Forall_fmap. eapply Forall_impl; [exact H|].
    intros r Hr. unfold touch, hashed in *. simpl. by case_bool_decide.
  - apply Forall_app. split; [done|]. by apply Forall_singleton.
Qed.

Lemma sql_max_ge vs x : Some x ∈ vs -> exists m, sql_max vs = Some m /\ x <= m.
Proof.
  induction vs as [|v vs IH]; [by intros ?%elem_of_nil|].
  intros [<-|Hin]%elem_of_cons; simpl.
  - destruct (sql_max vs); eexists; (split; [done|lia]).
  - destruct (IH Hin) as (m & -> & Hm).
    destruct v; eexists; (split; [done|lia]).
Qed.

Lemma next_rowid_fresh rows : next_rowid rows ∉ urls.rowid <$> rows.
Proof.
  intros (r & E & Hr)%list_elem_of_fmap.
  destruct (sql_max_ge ((fun r => Some (urls.rowid r)) <$> rows) (urls.rowid r))
    as (m & Hm & Hle).
  { apply list_elem_of_fmap. eauto. }
  unfold next_rowid, max_rowid in E. rewrite Hm in E. lia.
Qed.

Lemma NoDup_rowid_upsert_all t us rows :
  NoDup (urls.rowid <$> rows) -> NoDup (urls.rowid <$> upsert_all t us rows).
Proof.
  revert rows. induction us as [|v us IH]; intros rows H; [done|].
  rewrite upsert_all_cons. apply IH. unfold upsert. case_bool_decide.
  - rewrite <- list_fmap_compose.
    erewrite list_fmap_ext; [exact H|].
    intros i r _. simpl. unfold touch. by case_bool_decide.
  - rewrite fmap_app. apply NoDup_app. split_and!; [done| |apply NoDup_singleton].
    intros x Hx ->%list_elem_of_singleton. by apply next_rowid_fresh in Hx.
Qed.

Lemma add_URLs_eval
    (url_list_fetcher : option (list Z) -> list (list (list Z)))
    (updateTime : Z) (filename : list Z) (filepath : option (list Z))
    (w : world) (rows : list urls.row) :
  tbl_urls (db_of w filename) = Some (UrlsTable feed_schema rows) ->
  forallb encodable (concat (url_list_fetcher filepath)) = true ->
  int64 updateTime = true ->
  add_URLs url_list_fetcher updateTime filename filepath w
  = (Ok (),
     commit filename
       (Database
          (Some (UrlsTable feed_schema
                   (upsert_all updateTime (concat (url_list_fetcher filepath))
                      rows)))
          (tbl_maliciousHashPrefixes (db_of w filename)))
       (World (databases w) (connections w ++ [filename]) (posts w))).
Proof.
  intros Hdb Hurls Htime.
  pose proof (for_concat (url_list_fetcher filepath)
                (fun url =>
                   hash ← lift (compute_url_hash url);
                   sql_upsert_url (url, updateTime, hash))
                (db_of w filename)) as E1.
  pose proof (for_upsert updateTime _ _ rows Hdb Hurls Htime) as E2.
  unfold add_URLs.
  replace (match filepath with
           | Some path => url_list_fetcher (Some path)
           | None => url_list_fetcher None
           end) with (url_list_fetcher filepath) by (by destruct filepath).
  unfold_M. rewrite db_of_connect. by rewrite E1, E2.
Qed.

(** X4.  On a feed store, for urls that encode and an [updateTime] in
    the 64-bit range, [add_URLs] keeps the invariants of the table.  Afterwards the urls of the table are
    those it held and those it was given; when no url was held twice, none
    is (UNIQUE); when no rowid was held twice, none is; when every row's
    [hash] was the hash of its [url], this still holds, also for the rows
    inserted.  The prefix table of the file and all other files are
    untouched. *)
Theorem add_URLs_keeps_invariants
    (url_list_fetcher : option (list Z) -> list (list (list Z)))
    (updateTime : Z) (filename : list Z) (filepath : option (list Z))
    (w : world) (rows : list urls.row) :
  tbl_urls (db_of w filename) = Some (UrlsTable feed_schema rows) ->
  forallb encodable (concat (url_list_fetcher filepath)) = true ->
  int64 updateTime = true ->
  exists w' rows',
    add_URLs url_list_fetcher updateTime filename filepath w = (Ok (), w')
    /\ tbl_urls (db_of w' filename) = Some (UrlsTable feed_schema rows')
    /\ (forall u, u ∈ urls.url <$> rows' <->
                  u ∈ urls.url <$> rows
                  \/ u ∈ concat (url_list_fetcher filepath))
    /\ (NoDup (urls.url <$> rows) -> NoDup (urls.url <$> rows'))
    /\ (NoDup (urls.rowid <$> rows) -> NoDup (urls.rowid <$> rows'))
    /\ (Forall hashed rows -> Forall hashed rows')
    /\ tbl_maliciousHashPrefixes (db_of w' filename)
       = tbl_maliciousHashPrefixes (db_of w filename)
    /\ (forall g, g ≠ filename -> db_of w' g = db_of w g).
Proof.
  intros Hdb Hurls Htime. eexists _, _. split; [by apply add_URLs_eval|].
  rewrite db_of_commit, decide_True by done. simpl. split_and!.
  - done.
  - apply urls_upsert_all.
  - apply NoDup_upsert_all.
  - apply NoDup_rowid_upsert_all.
  - apply hashed_upsert_all.
  - done.
  - intros g Hg. rewrite db_of_commit, decide_False by done.
    apply db_of_connect.
Qed.

Lemma touch_listed t u r :
  urls.lastListed r = Some t -> touch t u r = r.
Proof. unfold touch. intros H. case_bool_decide; [|done]. destruct r; simpl in *. congruence. Qed.

Lemma upsert_all_listed t us rows :
  (forall u, u ∈ us -> u ∈ urls.url <$> rows) ->
  (forall r, r ∈ rows -> urls.url r ∈ us -> urls.lastListed r = Some t) ->
  upsert_all t us rows = rows.
Proof.
  induction us as [|v us IH]; intros Hin Hl; [done|].
  rewrite upsert_all_cons.
  assert (upsert t rows v (hash_of v) = rows) as ->.
  { unfold upsert. rewrite bool_decide_eq_true_2 by (apply Hin; left).
    rewrite <- (list_fmap_id rows) at 2. apply list_fmap_ext.
    intros i r Hr. simpl. apply list_elem_of_lookup_2 in Hr.
    destruct (decide (urls.url r = v)) as [E|E].
    - apply touch_listed, Hl; [done|]. rewrite E. left.
    - unfold touch. by rewrite bool_decide_eq_false_2. }
  apply IH.
  - intros u Hu. apply Hin. by right.
  - intros r Hr Hu. apply Hl; [done|by right].
Qed.

Lemma upsert_all_idempotent t us rows :
  upsert_all t us (upsert_all t us rows) = upsert_all t us rows.
Proof.
  apply upsert_all_listed.
  - intros u Hu. apply urls_upsert_all. by right.
  - intros r Hr Hu.
    by destruct (upsert_all_upserted t us rows) as (HA & _ & _); apply HA.
Qed.

(** X5.  On a feed store, for urls that encode and an [updateTime] in
    the 64-bit range, a second [add_URLs] with the same urls and the same
    [updateTime] changes no table: every url is already there with
    [lastListed = updateTime]. *)
Theorem add_URLs_idempotent
    (url_list_fetcher : option (list Z) -> list (list (list Z)))
    (updateTime : Z) (filename : list Z) (filepath : option (list Z))
    (w : world) (rows : list urls.row) :
  tbl_urls (db_of w filename) = Some (UrlsTable feed_schema rows) ->
  forallb encodable (concat (url_list_fetcher filepath)) = true ->
  int64 updateTime = true ->
  exists w1 w2,
    add_URLs url_list_fetcher updateTime filename filepath w = (Ok (), w1)
    /\ add_URLs url_list_fetcher updateTime filename filepath w1 = (Ok (), w2)
    /\ same_files w1 w2.
Proof.
  intros Hdb Hurls Htime. eexists _, _. split; [by apply add_URLs_eval|].
  split.
  - apply add_URLs_eval; [|done|done]. by rewrite db_of_commit, decide_True.
  - intros g. rewrite !db_of_commit, !db_of_connect, !db_of_commit.
    destruct (decide (filename = g)); simpl; [|done].
    rewrite decide_True by done. simpl.
    by rewrite upsert_all_idempotent.
Qed.

Lemma for_upsert_raises t us db rows u :
  tbl_urls db = Some (UrlsTable feed_schema rows) ->
  u ∈ us -> encodable u = false -> int64 t = true ->
  for_ us (fun url =>
             hash ← lift (compute_url_hash url);
             sql_upsert_url (url, t, hash)) db
  = Raise UnicodeEncodeError.
Proof.
  revert db rows. induction us as [|v us IH]; intros db rows Hdb Hin Hu Ht.
  { by apply elem_of_nil in Hin. }
  simpl. unfold mbind at 1, T_bind at 1.
  destruct (encodable v) eqn:Hv.
  - assert (Hin' : u ∈ us).
    { apply elem_of_cons in Hin as [->|?]; [congruence|done]. }
    pose proof (for_upsert t [v] db rows Hdb) as E. simpl in E.
    rewrite Hv in E. specialize (E eq_refl Ht).
    unfold mbind at 1, T_bind at 1 in E.
    destruct ((lift (compute_url_hash v)
                 ≫= λ hash, sql_upsert_url (v, t, hash)) db)
      as [[[] db']|e] eqn:E'; [|done].
    unfold mret, T_ret in E. injection E as ->.
    by eapply IH.
  - unfold mbind, T_bind, lift. by rewrite compute_url_hash_raises.
Qed.

(** X6.  [add_URLs] is all or nothing.  On a feed store and for an
    [updateTime] in the 64-bit range, when one of the fetched urls does
    not encode, the call raises [UnicodeEncodeError] (no [apsw.Error], so
    the handler does not catch it), the transaction is rolled back and no
    table has changed, also not through the urls that came before the bad
    one. *)
Theorem add_URLs_rolls_back
    (url_list_fetcher : option (list Z) -> list (list (list Z)))
    (updateTime : Z) (filename : list Z) (filepath : option (list Z))
    (w : world) (rows : list urls.row) (u : list Z) :
  tbl_urls (db_of w filename) = Some (UrlsTable feed_schema rows) ->
  u ∈ concat (url_list_fetcher filepath) -> encodable u = false ->
  int64 updateTime = true ->
  exists w',
    add_URLs url_list_fetcher updateTime filename filepath w
    = (Raise UnicodeEncodeError, w')
    /\ same_files w w'.
Proof.
  intros Hdb Hin Hu Htime.
  pose proof (for_concat (url_list_fetcher filepath)
                (fun url =>
                   hash ← lift (compute_url_hash url);
                   sql_upsert_url (url, updateTime, hash))
                (db_of w filename)) as E1.
  pose proof (for_upsert_raises updateTime _ _ rows u Hdb Hin Hu Htime) as E2.
  exists (World (databases w) (connections w ++ [filename]) (posts w)).
  split; [|intros g; apply db_of_connect].
  unfold add_URLs.
  replace (match filepath with
           | Some path => url_list_fetcher (Some path)
           | None => url_list_fetcher None
           end) with (url_list_fetcher filepath) by (by destruct filepath).
  unfold_M. rewrite db_of_connect. by rewrite E1, E2.
Qed.

Lemma for_upsert_no_feed t us db :
  (forall rows, tbl_urls db ≠ Some (UrlsTable feed_schema rows)) ->
  for_ us (fun url =>
             hash ← lift (compute_url_hash url);
             sql_upsert_url (url, t, hash)) db
  = match us with
    | [] => Ok ((), db)
    | u :: _ => if encodable u then Raise apsw_Error
                else Raise UnicodeEncodeError
    end.
Proof.
  intros Hdb. destruct us as [|u us]; [done|]. simpl.
  unfold mbind at 1, T_bind at 1. unfold mbind, T_bind, lift.
  destruct (encodable u) eqn:Hu.
  - rewrite (compute_url_hash_encodable u Hu).
    unfold sql_upsert_url, on_urls.
    destruct (tbl_urls db) as [[[] rows]|] eqn:E; try done.
    by destruct (Hdb rows).
  - by rewrite compute_url_hash_raises.
Qed.

(** X7.  Where the file has no feed table (no [urls] table at all,
    or the [ipv4] one, whose [url] is not UNIQUE), [add_URLs] changes no
    table.  The SQL error is caught and logged: the call returns normally
    as soon as the first url encodes (only the first url is hashed before
    the statement fails). *)
Theorem add_URLs_without_feed_table
    (url_list_fetcher : option (list Z) -> list (list (list Z)))
    (updateTime : Z) (filename : list Z) (filepath : option (list Z))
    (w : world) :
  (forall rows, tbl_urls (db_of w filename) ≠ Some (UrlsTable feed_schema rows)) ->
  exists r w',
    add_URLs url_list_fetcher updateTime filename filepath w = (r, w')
    /\ same_files w w'
    /\ (forallb encodable (take 1 (concat (url_list_fetcher filepath))) = true
        -> r = Ok ()).
Proof.
  intros Hdb.
  pose proof (for_concat (url_list_fetcher filepath)
                (fun url =>
                   hash ← lift (compute_url_hash url);
                   sql_upsert_url (url, updateTime, hash))
                (db_of w filename)) as E1.
  pose proof (for_upsert_no_feed updateTime
                (concat (url_list_fetcher filepath)) _ Hdb) as E2.
  unfold add_URLs.
  replace (match filepath with
           | Some path => url_list_fetcher (Some path)
           | None => url_list_fetcher None
           end) with (url_list_fetcher filepath) by (by destruct filepath).
  unfold_M. rewrite db_of_connect. rewrite E1, E2.
  destruct (concat (url_list_fetcher filepath)) as [|u us]; simpl.
  - eexists _, _. split; [done|]. split; [|done].
    intros g. rewrite db_of_commit, db_of_connect.
    by destruct (decide (filename = g)) as [->|].
  - destruct (encodable u); eexists _, _;
      (split; [done|]); (split; [intros g; apply db_of_connect|done]).
Qed.

(** ** [add_IPs], run again *)

Lemma max_rowid_add_IPs rows :
  max_rowid (if bool_decide (max_rowid rows = Some ips_to_generate)
             then rows else ip_rows ips_to_generate)
  = Some ips_to_generate.
Proof.
  case_bool_decide as H; [exact H|]. apply max_rowid_ip_rows.
  unfold ips_to_generate. lia.
Qed.

(** X8.  After [add_IPs] on an [ipv4] store the largest rowid is
    [ips_to_generate], that is [2^32], so a second call leaves the rows as
    the first call left them.  No other file is touched. *)
Theorem add_IPs_idempotent (filename : list Z) (w : world)
    (rows : list urls.row) :
  tbl_urls (db_of w filename) = Some (UrlsTable ips_schema rows) ->
  exists w1 w2,
    add_IPs filename w = (Ok (), w1)
    /\ add_IPs filename w1 = (Ok (), w2)
    /\ max_rowid (rows_of w1 filename) = Some ips_to_generate
    /\ rows_of w2 filename = rows_of w1 filename
    /\ (forall g, g ≠ filename -> db_of w2 g = db_of w g).
Proof.
  intros Hdb.
  destruct (add_IPs_eval filename w rows Hdb) as (w1 & E1 & H1 & G1).
  destruct (add_IPs_eval filename w1 _ H1) as (w2 & E2 & H2 & G2).
  pose proof (max_rowid_add_IPs rows) as Hmax.
  revert H1 H2 Hmax.
  generalize (if bool_decide (max_rowid rows = Some ips_to_generate)
             then rows else ip_rows ips_to_generate).
  intros rows1 H1 H2 Hmax.
  exists w1, w2. split; [exact E1|]. split; [exact E2|].
  unfold rows_of. rewrite H1, H2. cbn [urls_rows].
  split; [exact Hmax|]. split.
  - rewrite bool_decide_eq_true_2; [reflexivity|exact Hmax].
  - intros g Hg. rewrite G2, G1; [reflexivity|exact Hg|exact Hg].
Qed.

(** X9.  Without a [urls] table [add_IPs] does nothing: the error of
    the first [SELECT] is caught and logged, the call returns normally and
    no table has changed. *)
Theorem add_IPs_without_table (filename : list Z) (w : world) :
  tbl_urls (db_of w filename) = None ->
  exists w', add_IPs filename w = (Ok (), w') /\ same_files w w'.
Proof.
  intros Hdb.
  exists (World (databases w) (connections w ++ [filename]) (posts w)).
  split; [|intros g; apply db_of_connect].
  unfold add_IPs. generalize (seqZ 0 ips_to_generate). intros l.
  unfold_M. rewrite db_of_connect.
  unfold sql_select_max_rowid, on_urls. rewrite Hdb. reflexivity.
Qed.

Lemma unflagged_ip_rows n : forallb unflagged (ip_rows n) = true.
Proof.
  apply forallb_forall. intros r Hr. apply list_elem_of_In in Hr.
  unfold ip_rows in Hr. apply list_elem_of_fmap in Hr as (x & -> & _).
  reflexivity.
Qed.

(** X10.  When [add_IPs] regenerates the table (largest rowid not
    [2^32]), the rows it writes carry no vendor flag, whatever the deleted
    rows held: right afterwards [retrieve_malicious_URLs] on the file
    returns the empty list. *)
Theorem add_IPs_regeneration_clears_flags (filename : list Z) (w : world)
    (rows : list urls.row) :
  tbl_urls (db_of w filename) = Some (UrlsTable ips_schema rows) ->
  max_rowid rows ≠ Some ips_to_generate ->
  exists w',
    add_IPs filename w = (Ok (), w')
    /\ forallb unflagged (rows_of w' filename) = true
    /\ (retrieve_malicious_URLs [filename] w').1 = Ok [].
Proof.
  intros Hdb Hmax.
  destruct (add_IPs_eval filename w rows Hdb) as (w' & E & H & _).
  rewrite bool_decide_eq_false_2 in H by exact Hmax.
  pose proof (unflagged_ip_rows ips_to_generate) as Hu.
  revert H Hu. generalize (ip_rows ips_to_generate). intros rows' H Hu.
  exists w'. split; [exact E|].
  split.
  { unfold rows_of. rewrite H. exact Hu. }
  destruct (execute_retrieve_unflagged [filename] w') as (w'' & E' & _).
  { unfold never_flagged. cbn [forallb]. rewrite H. cbn [urls_rows].
    rewrite Hu. reflexivity. }
  unfold retrieve_malicious_URLs. unfold mbind, M_bind. rewrite E'.
  cbn [length replicate]. unfold mret, M_ret. cbn [fst]. f_equal.
Qed.

(** ** The prefix store and the suspects *)

Lemma db_of_commit_eq f db w : db_of (commit f db w) f = db.
Proof. rewrite db_of_commit. by destruct (decide (f = f)). Qed.

Lemma db_of_commit_ne f db w g : f ≠ g -> db_of (commit f db w) g = db_of w g.
Proof. intros H. rewrite db_of_commit. by destruct (decide (f = g)). Qed.

Lemma add_maliciousHashPrefixes_eval (hash_prefixes : gset (list Z))
    (vendor : list Z) (w : world) (rows : list maliciousHashPrefixes.row) :
  tbl_maliciousHashPrefixes (db_of w (lit "malicious")) = Some rows ->
  add_maliciousHashPrefixes hash_prefixes vendor w
  = (Ok (),
     commit (lit "malicious")
       (Database (tbl_urls (db_of w (lit "malicious")))
          (Some (filter (fun r => maliciousHashPrefixes.vendor r ≠ vendor) rows
                 ++ prefix_rows hash_prefixes vendor)))
       (World (databases w) (connections w ++ [lit "malicious"]) (posts w))).
Proof.
  intros Hrows.
  unfold add_maliciousHashPrefixes. unfold_M. rewrite db_of_connect.
  unfold sql_delete_vendor at 1. unfold on_maliciousHashPrefixes at 1.
  rewrite Hrows.
  erewrite for_insert_hashPrefix by reflexivity. done.
Qed.

Lemma filter_vendor_prefix_rows (hash_prefixes : gset (list Z))
    (vendor : list Z) (rows : list maliciousHashPrefixes.row) :
  filter (fun r => maliciousHashPrefixes.vendor r ≠ vendor)
    (filter (fun r => maliciousHashPrefixes.vendor r ≠ vendor) rows
     ++ prefix_rows hash_prefixes vendor)
  = filter (fun r => maliciousHashPrefixes.vendor r ≠ vendor) rows.
Proof.
  rewrite filter_app, list_filter_filter.
  rewrite (filter_none _ (prefix_rows _ _)), app_nil_r.
  - apply list_filter_iff. tauto.
  - intros r (p & -> & _)%list_elem_of_fmap. simpl. tauto.
Qed.

Lemma filter_vendor_added (hash_prefixes : gset (list Z))
    (vendor : list Z) (rows : list maliciousHashPrefixes.row) :
  filter (fun r => maliciousHashPrefixes.vendor r = vendor)
    (filter (fun r => maliciousHashPrefixes.vendor r ≠ vendor) rows
     ++ prefix_rows hash_prefixes vendor)
  = prefix_rows hash_prefixes vendor.
Proof.
  rewrite filter_app, list_filter_filter.
  rewrite (filter_none _ rows); simpl.
  - unfold prefix_rows. induction (elements hash_prefixes) as [|p l IH];
      [done|]. rewrite fmap_cons, filter_cons_True by done. by rewrite IH.
  - intros r _. tauto.
Qed.

(** X11.  Storing the same set of hash prefixes for the same vendor
    a second time changes no table: the vendor's rows are replaced by the
    same rows, in the same order. *)
Theorem add_maliciousHashPrefixes_idempotent (hash_prefixes : gset (list Z))
    (vendor : list Z) (w : world) (rows : list maliciousHashPrefixes.row) :
  tbl_maliciousHashPrefixes (db_of w (lit "malicious")) = Some rows ->
  exists w1 w2,
    add_maliciousHashPrefixes hash_prefixes vendor w = (Ok (), w1)
    /\ add_maliciousHashPrefixes hash_prefixes vendor w1 = (Ok (), w2)
    /\ same_files w1 w2.
Proof.
  intros Hrows. eexists _, _.
  split; [by apply add_maliciousHashPrefixes_eval|]. split.
  - apply add_maliciousHashPrefixes_eval.
    by rewrite db_of_commit_eq.
  - intros g. destruct (decide (lit "malicious" = g)) as [<-|Hg].
    + rewrite !db_of_commit_eq. simpl.
      by rewrite filter_vendor_prefix_rows.
    + rewrite !db_of_commit_ne by done. rewrite !db_of_connect.
      by rewrite ?db_of_commit_ne by done.
Qed.

Lemma retrieve_vendor_prefixSizes_eval (vendor : list Z) (w : world) :
  exists w',
    retrieve_vendor_prefixSizes vendor w
    = (Ok (remove_dups
             (maliciousHashPrefixes.prefixSize <$>
                filter (fun r => maliciousHashPrefixes.vendor r = vendor)
                  (prefixes_of w))), w')
    /\ same_files w w'.
Proof.
  unfold retrieve_vendor_prefixSizes, prefixes_of. unfold_M.
  unfold sql_select_prefixSizes, on_maliciousHashPrefixes.
  rewrite db_of_connect.
  destruct (tbl_maliciousHashPrefixes (db_of w (lit "malicious")))
    as [rows|] eqn:Hrows; simpl.
  - eexists. split; [reflexivity|]. intros g.
    rewrite db_of_commit, db_of_connect.
    destruct (decide (lit "malicious" = g)) as [<-|]; [|done].
    apply database_eq; done.
  - eexists. split; [reflexivity|]. intros g. apply db_of_connect.
Qed.

Lemma identify_suspected_urls_eval (vendor filename : list Z)
    (prefixSizes : list Z) (w : world) :
  exists w',
    identify_suspected_urls vendor filename prefixSizes w
    = (Ok (concat ((fun prefixSize =>
                      matching_urls w filename prefixSize vendor)
                     <$> prefixSizes)), w')
    /\ same_files w w'.
Proof.
  destruct (execute_get_matching filename vendor prefixSizes
              (World (databases w) (connections w ++ [filename]) (posts w)))
    as (w' & E & S).
  exists w'. split.
  - unfold identify_suspected_urls. unfold_M. rewrite E. reflexivity.
  - intros g. rewrite S. apply db_of_connect.
Qed.

Lemma elem_of_matching_urls (w : world) (filename : list Z) (prefixSize : Z)
    (vendor : list Z) (u : list Z) :
  u ∈ matching_urls w filename prefixSize vendor
  <-> exists r p,
        r ∈ rows_of w filename /\ urls.url r = u
        /\ p ∈ prefixes_of w /\ maliciousHashPrefixes.vendor p = vendor
        /\ substring_1 (urls.hash r) prefixSize
           = maliciousHashPrefixes.hashPrefix p.
Proof.
  unfold matching_urls, rows_of, prefixes_of.
  destruct (tbl_urls (db_of w filename)) as [t|].
  2:{ split; [by intros ?%elem_of_nil|].
      by intros (r & p & ?%elem_of_nil & _). }
  destruct (tbl_maliciousHashPrefixes (db_of w (lit "malicious")))
    as [prefixes|]; simpl.
  2:{ split; [by intros ?%elem_of_nil|].
      by intros (r & p & _ & _ & ?%elem_of_nil & _). }
  rewrite list_elem_of_fmap. split.
  - intros (r & -> & [Hm Hr]%list_elem_of_filter).
    apply list_elem_of_fmap in Hm as (p & Hp & [Hv Hin]%list_elem_of_filter).
    exists r, p. done.
  - intros (r & p & Hr & <- & Hp & Hv & Hm).
    exists r. split; [done|]. apply list_elem_of_filter. split; [|done].
    apply list_elem_of_fmap. exists p. split; [done|].
    by apply list_elem_of_filter.
Qed.

(** X12.  What [add_maliciousHashPrefixes] stores,
    [retrieve_vendor_prefixSizes] reads back: right after storing a set of
    prefixes for a vendor, the sizes returned for this vendor are, without
    repetition, exactly the lengths of the prefixes of the set. *)
Theorem retrieve_vendor_prefixSizes_after_add (hash_prefixes : gset (list Z))
    (vendor : list Z) (w : world) (rows : list maliciousHashPrefixes.row) :
  tbl_maliciousHashPrefixes (db_of w (lit "malicious")) = Some rows ->
  exists w1 prefixSizes w2,
    add_maliciousHashPrefixes hash_prefixes vendor w = (Ok (), w1)
    /\ retrieve_vendor_prefixSizes vendor w1 = (Ok prefixSizes, w2)
    /\ NoDup prefixSizes
    /\ forall n, n ∈ prefixSizes <->
                 exists p, p ∈ hash_prefixes /\ n = Z.of_nat (length p).
Proof.
  intros Hrows.
  destruct (retrieve_vendor_prefixSizes_eval vendor
              (add_maliciousHashPrefixes hash_prefixes vendor w).2)
    as (w2 & E2 & _).
  rewrite (add_maliciousHashPrefixes_eval _ _ _ _ Hrows) in E2 |- *.
  eexists _, _, w2. split; [reflexivity|]. split; [exact E2|].
  split; [apply NoDup_remove_dups|].
  intros n. rewrite elem_of_remove_dups. unfold prefixes_of. simpl.
  rewrite db_of_commit_eq. simpl.
  rewrite filter_vendor_added. unfold prefix_rows.
  rewrite <- list_fmap_compose, list_elem_of_fmap. simpl.
  split.
  - intros (p & -> & Hp%elem_of_elements). eauto.
  - intros (p & Hp & ->). exists p. by rewrite elem_of_elements.
Qed.

(** X13.  Storing the empty set for a vendor deletes the vendor's
    prefixes and only those.  Afterwards [retrieve_vendor_prefixSizes]
    returns no size for the vendor and [identify_suspected_urls] suspects
    no url of any file, whatever sizes that fit in 32 bits it is given. *)
Theorem add_maliciousHashPrefixes_empty_clears_vendor
    (vendor : list Z) (w : world) (rows : list maliciousHashPrefixes.row) :
  tbl_maliciousHashPrefixes (db_of w (lit "malicious")) = Some rows ->
  exists w1,
    add_maliciousHashPrefixes ∅ vendor w = (Ok (), w1)
    /\ prefixes_of w1
       = filter (fun r => maliciousHashPrefixes.vendor r ≠ vendor) rows
    /\ (retrieve_vendor_prefixSizes vendor w1).1 = Ok []
    /\ forall filename prefixSizes,
         forallb int32 prefixSizes = true ->
         (identify_suspected_urls vendor filename prefixSizes w1).1 = Ok [].
Proof.
  intros Hrows. eexists.
  split; [by apply add_maliciousHashPrefixes_eval|].
  set (w1 := commit _ _ _).
  assert (Hp : prefixes_of w1
               = filter (fun r => maliciousHashPrefixes.vendor r ≠ vendor) rows).
  { unfold prefixes_of, w1. rewrite db_of_commit_eq. simpl.
    unfold prefix_rows. rewrite elements_empty. apply app_nil_r. }
  split; [done|]. split.
  - destruct (retrieve_vendor_prefixSizes_eval vendor w1) as (w2 & -> & _).
    simpl. rewrite Hp, list_filter_filter, filter_none; [done|].
    intros r _. tauto.
  - intros filename prefixSizes _.
    destruct (identify_suspected_urls_eval vendor filename prefixSizes w1)
      as (w2 & -> & _).
    simpl. f_equal. destruct (concat _) as [|u l] eqn:E; [done|].
    assert (Hu : u ∈ u :: l) by left. rewrite <- E in Hu.
    apply elem_of_concat in Hu as (m & Hu & Hm).
    apply list_elem_of_fmap in Hm as (ps & -> & _).
    apply elem_of_matching_urls in Hu as (r & p & _ & _ & Hin & Hv & _).
    rewrite Hp in Hin. apply list_elem_of_filter in Hin as [Hne _]. done.
Qed.

(** X14.  Without the [maliciousHashPrefixes] table
    [add_maliciousHashPrefixes] does nothing: the error of the [DELETE] is
    caught and logged, the call returns normally and no table has
    changed. *)
Theorem add_maliciousHashPrefixes_without_table
    (hash_prefixes : gset (list Z)) (vendor : list Z) (w : world) :
  tbl_maliciousHashPrefixes (db_of w (lit "malicious")) = None ->
  exists w',
    add_maliciousHashPrefixes hash_prefixes vendor w = (Ok (), w')
    /\ same_files w w'.
Proof.
  intros Hrows.
  exists (World (databases w) (connections w ++ [lit "malicious"]) (posts w)).
  split; [|intros g; apply db_of_connect].
  unfold add_maliciousHashPrefixes. unfold_M. rewrite db_of_connect.
  unfold sql_delete_vendor at 1. unfold on_maliciousHashPrefixes at 1.
  by rewrite Hrows.
Qed.

(** X15.  When every stored prefix has its length as [prefixSize],
    [identify_suspected_urls] with the sizes [retrieve_vendor_prefixSizes]
    returns finds exactly the urls of the file whose hash starts with a
    prefix stored for the vendor: no suspect without such a prefix, and no
    url with such a prefix is missed.  Both calls return normally and
    change no table. *)
Theorem identify_suspected_urls_sound_complete
    (vendor filename : list Z) (w : world) :
  forallb prefix_ok (prefixes_of w) = true ->
  exists prefixSizes w1 suspected_urls w2,
    retrieve_vendor_prefixSizes vendor w = (Ok prefixSizes, w1)
    /\ identify_suspected_urls vendor filename prefixSizes w1
       = (Ok suspected_urls, w2)
    /\ same_files w w2
    /\ forall u,
         u ∈ suspected_urls <->
         exists r p,
           r ∈ rows_of w filename /\ urls.url r = u
           /\ p ∈ prefixes_of w /\ maliciousHashPrefixes.vendor p = vendor
           /\ maliciousHashPrefixes.hashPrefix p `prefix_of` urls.hash r.
Proof.
  intros Hok.
  destruct (retrieve_vendor_prefixSizes_eval vendor w) as (w1 & E1 & S1).
  destruct (identify_suspected_urls_eval vendor filename
              (remove_dups
                 (maliciousHashPrefixes.prefixSize <$>
                    filter (fun r => maliciousHashPrefixes.vendor r = vendor)
                      (prefixes_of w))) w1) as (w2 & E2 & S2).
  eexists _, w1, _, w2. split; [exact E1|]. split; [exact E2|].
  split; [by eapply same_files_trans|].
  assert (Hrows : rows_of w1 filename = rows_of w filename).
  { unfold rows_of. by rewrite S1. }
  assert (Hpre : prefixes_of w1 = prefixes_of w).
  { unfold prefixes_of. by rewrite S1. }
  assert (Hsize : forall p, p ∈ prefixes_of w ->
            maliciousHashPrefixes.prefixSize p
            = Z.of_nat (length (maliciousHashPrefixes.hashPrefix p))).
  { intros p Hp. rewrite forallb_forall in Hok.
    apply list_elem_of_In, Hok in Hp. unfold prefix_ok in Hp. lia. }
  intros u. rewrite elem_of_concat. split.
  - intros (m & Hu & Hm).
    apply list_elem_of_fmap in Hm as (ps & -> & _).
    apply elem_of_matching_urls in Hu as (r & p & Hr & Hurl & Hp & Hv & Hm).
    rewrite Hrows in Hr. rewrite Hpre in Hp.
    exists r, p. split_and!; try done.
    rewrite <- Hm. unfold substring_1. apply prefix_take.
  - intros (r & p & Hr & Hurl & Hp & Hv & Hm).
    exists (matching_urls w1 filename (maliciousHashPrefixes.prefixSize p)
              vendor). split.
    + apply elem_of_matching_urls. exists r, p.
      rewrite Hrows, Hpre. split_and!; try done.
      rewrite (Hsize p Hp). unfold substring_1. rewrite Nat2Z.id.
      destruct Hm as [k ->]. by rewrite take_app_length.
    + apply list_elem_of_fmap. exists (maliciousHashPrefixes.prefixSize p).
      split; [done|]. apply elem_of_remove_dups, list_elem_of_fmap.
      exists p. split; [done|]. by apply list_elem_of_filter.
Qed.

(** ** The vendor flags *)

Lemma url_set_flag c t us r : urls.url (set_flag c t us r) = urls.url r.
Proof. unfold set_flag. by repeat case_bool_decide. Qed.

Lemma set_flag_nil c t r : set_flag c t [] r = r.
Proof.
  unfold set_flag. rewrite bool_decide_eq_false_2; [done|].
  apply not_elem_of_nil.
Qed.

Lemma set_flag_app c t us1 us2 r :
  set_flag c t us2 (set_flag c t us1 r) = set_flag c t (us1 ++ us2) r.
Proof.
  unfold set_flag at 1. rewrite url_set_flag. unfold set_flag.
  destruct r as [i u l g y h]; cbn.
  destruct (decide (u ∈ us1)) as [H1|H1], (decide (u ∈ us2)) as [H2|H2];
    rewrite ?(bool_decide_eq_true_2 _ H1), ?(bool_decide_eq_true_2 _ H2),
      ?(bool_decide_eq_false_2 _ H1), ?(bool_decide_eq_false_2 _ H2).
  - rewrite (bool_decide_eq_true_2 (u ∈ us1 ++ us2))
      by (apply elem_of_app; tauto).
    by case_bool_decide.
  - by rewrite (bool_decide_eq_true_2 (u ∈ us1 ++ us2))
      by (apply elem_of_app; tauto).
  - by rewrite (bool_decide_eq_true_2 (u ∈ us1 ++ us2))
      by (apply elem_of_app; tauto).
  - rewrite (bool_decide_eq_false_2 (u ∈ us1 ++ us2)); [done|].
    rewrite elem_of_app. tauto.
Qed.

Lemma sql_update_flag_eval column t batch db s rows :
  column = lit "lastGoogleMalicious" \/ column = lit "lastYandexMalicious" ->
  tbl_urls db = Some (UrlsTable s rows) ->
  int64 t = true ->
  sql_update_flag column t batch db
  = Ok ((), Database (Some (UrlsTable s (set_flag column t batch <$> rows)))
              (tbl_maliciousHashPrefixes db)).
Proof.
  intros Hc Hdb Ht. unfold sql_update_flag, on_urls. rewrite Hdb, Ht.
  destruct Hc as [->| ->].
  - rewrite bool_decide_eq_true_2 by done. reflexivity.
  - rewrite bool_decide_eq_false_2 by done.
    rewrite bool_decide_eq_true_2 by done. reflexivity.
Qed.

Lemma for_M_update_flag column t f batches w s rows :
  column = lit "lastGoogleMalicious" \/ column = lit "lastYandexMalicious" ->
  int64 t = true ->
  tbl_urls (db_of w f) = Some (UrlsTable s rows) ->
  exists w',
    for_M batches (fun batch => with_conn f (sql_update_flag column t batch)) w
    = (Ok (), w')
    /\ tbl_urls (db_of w' f)
       = Some (UrlsTable s (set_flag column t (concat batches) <$> rows))
    /\ tbl_maliciousHashPrefixes (db_of w' f)
       = tbl_maliciousHashPrefixes (db_of w f)
    /\ (forall g, g ≠ f -> db_of w' g = db_of w g).
Proof.
  intros Hc Ht. revert w rows.
  induction batches as [|b bs IH]; intros w rows Hdb.
  - exists w. split_and!; try done. rewrite Hdb. do 2 f_equal. simpl.
    rewrite <- (list_fmap_id rows) at 1. apply list_fmap_ext.
    intros i r _. simpl. by rewrite set_flag_nil.
  - destruct (IH (commit f
                    (Database (Some (UrlsTable s (set_flag column t b <$> rows)))
                       (tbl_maliciousHashPrefixes (db_of w f))) w)
                (set_flag column t b <$> rows)) as (w' & E & Hu & Hp & Hg).
    { by rewrite db_of_commit_eq. }
    exists w'. split_and!.
    + simpl. unfold mbind at 1, M_bind at 1. unfold with_conn at 1.
      rewrite (sql_update_flag_eval column t b _ s rows Hc Hdb Ht). exact E.
    + rewrite Hu. do 2 f_equal. rewrite <- list_fmap_compose.
      apply list_fmap_ext. intros i r _. simpl. apply set_flag_app.
    + rewrite Hp. by rewrite db_of_commit_eq.
    + intros g Hne. rewrite Hg by done. by rewrite db_of_commit_ne.
Qed.

Lemma vendorToColumn_Some vendor column :
  vendorToColumn !! vendor = Some column ->
  (vendor = lit "Google" /\ column = lit "lastGoogleMalicious")
  \/ (vendor = lit "Yandex" /\ column = lit "lastYandexMalicious").
Proof.
  unfold vendorToColumn. intros H.
  apply lookup_insert_Some in H as [[<- <-]|[_ H]]; [by left|].
  apply lookup_insert_Some in H as [[<- <-]|[_ H]]; [by right|].
  by rewrite lookup_empty in H.
Qed.

Lemma update_malicious_URLs_eval t vendor column f us w s rows :
  vendorToColumn !! vendor = Some column ->
  tbl_urls (db_of w f) = Some (UrlsTable s rows) ->
  int64 t = true ->
  exists w',
    update_malicious_URLs t vendor f us w = (Ok (), w')
    /\ tbl_urls (db_of w' f)
       = Some (UrlsTable s (set_flag column t us <$> rows))
    /\ tbl_maliciousHashPrefixes (db_of w' f)
       = tbl_maliciousHashPrefixes (db_of w f)
    /\ (forall g, g ≠ f -> db_of w' g = db_of w g).
Proof.
  intros Hv Hdb Ht.
  assert (Hc : column = lit "lastGoogleMalicious"
               \/ column = lit "lastYandexMalicious").
  { apply vendorToColumn_Some in Hv. tauto. }
  destruct (for_M_update_flag column t f (chunked (Z.to_nat 30000) us)
              (World (databases w) (connections w ++ [f]) (posts w)) s rows
              Hc Ht)
    as (w' & E & Hu & Hp & Hg).
  { by rewrite db_of_connect. }
  rewrite chunked_concat in Hu by lia.
  exists w'. split_and!.
  - unfold update_malicious_URLs. rewrite Hv. unfold_M. by rewrite E.
  - done.
  - by rewrite Hp, db_of_connect.
  - intros g Hne. by rewrite Hg, db_of_connect.
Qed.

(** X16.  For ["Google"] and ["Yandex"], on a file with a [urls]
    table and for an [updateTime] in the 64-bit range,
    [update_malicious_URLs] sets the vendor's column to [updateTime] in
    the rows whose url is among [malicious_urls], however
    the urls fall into batches of 30000, and changes nothing else: the rows
    stay in place with their rowid, url, [lastListed] and hash, the other
    vendor's column is kept, rows of other urls are kept, and so are the
    prefix table and the other files.  (Each batch is one [UPDATE] with up
    to 30001 bound values, which SQLite accepts by default.) *)
Theorem update_malicious_URLs_sets_flag
    (updateTime : Z) (vendor filename : list Z)
    (malicious_urls : list (list Z)) (w : world) (t : urls_table) :
  vendor = lit "Google" \/ vendor = lit "Yandex" ->
  tbl_urls (db_of w filename) = Some t ->
  int64 updateTime = true ->
  exists w' rows',
    update_malicious_URLs updateTime vendor filename malicious_urls w
    = (Ok (), w')
    /\ tbl_urls (db_of w' filename) = Some (UrlsTable (urls_schema t) rows')
    /\ length rows' = length (urls_rows t)
    /\ (forall i r,
          urls_rows t !! i = Some r ->
          exists r',
            rows' !! i = Some r'
            /\ urls.rowid r' = urls.rowid r
            /\ urls.url r' = urls.url r
            /\ urls.lastListed r' = urls.lastListed r
            /\ urls.hash r' = urls.hash r
            /\ urls.lastGoogleMalicious r'
               = (if bool_decide (vendor = lit "Google"
                                  /\ urls.url r ∈ malicious_urls)
                  then Some updateTime else urls.lastGoogleMalicious r)
            /\ urls.lastYandexMalicious r'
               = (if bool_decide (vendor = lit "Yandex"
                                  /\ urls.url r ∈ malicious_urls)
                  then Some updateTime else urls.lastYandexMalicious r))
    /\ tbl_maliciousHashPrefixes (db_of w' filename)
       = tbl_maliciousHashPrefixes (db_of w filename)
    /\ (forall g, g ≠ filename -> db_of w' g = db_of w g).
Proof.
  intros Hvendor Hdb Htime. destruct t as [s rows].
  assert (exists column, vendorToColumn !! vendor = Some column
            /\ (column = lit "lastGoogleMalicious" <-> vendor = lit "Google")
            /\ (vendor = lit "Google" \/ vendor = lit "Yandex"))
    as (column & Hv & Hcol & _).
  { destruct Hvendor as [->| ->].
    - exists (lit "lastGoogleMalicious"). split; [done|]. split; [done|tauto].
    - exists (lit "lastYandexMalicious"). split; [done|]. split; [|tauto].
      split; intros H; vm_compute in H; discriminate. }
  destruct (update_malicious_URLs_eval updateTime vendor column filename
              malicious_urls w s rows Hv Hdb Htime) as (w' & E & Hu & Hp & Hg).
  exists w', (set_flag column updateTime malicious_urls <$> rows).
  split_and!; try done.
  - apply length_fmap.
  - intros i r Hr. cbn [urls_rows] in Hr.
    exists (set_flag column updateTime malicious_urls r).
    split; [by rewrite list_lookup_fmap, Hr|].
    unfold set_flag.
    destruct (decide (urls.url r ∈ malicious_urls)) as [Hin|Hin].
    + rewrite (bool_decide_eq_true_2 _ Hin).
      destruct Hvendor as [->| ->].
      * rewrite bool_decide_eq_true_2 by (by apply Hcol).
        cbn [urls.rowid urls.url urls.lastListed urls.hash
             urls.lastGoogleMalicious urls.lastYandexMalicious].
        rewrite bool_decide_eq_true_2 by done.
        rewrite bool_decide_eq_false_2; [done|].
        intros [H _]. vm_compute in H. discriminate.
      * rewrite bool_decide_eq_false_2.
        2:{ intros H%Hcol. vm_compute in H. discriminate. }
        cbn [urls.rowid urls.url urls.lastListed urls.hash
             urls.lastGoogleMalicious urls.lastYandexMalicious].
        rewrite bool_decide_eq_false_2.
        2:{ intros [H _]. vm_compute in H. discriminate. }
        by rewrite bool_decide_eq_true_2.
    + rewrite (bool_decide_eq_false_2 _ Hin).
      rewrite !bool_decide_eq_false_2; [done|tauto|tauto].
Qed.

(** X17.  For ["Google"] and ["Yandex"], on a file without a [urls]
    table [update_malicious_URLs] does nothing: the error of the first
    [UPDATE] is caught and logged, the call returns normally and no table
    has changed. *)
Theorem update_malicious_URLs_without_table
    (updateTime : Z) (vendor filename : list Z)
    (malicious_urls : list (list Z)) (w : world) :
  vendor = lit "Google" \/ vendor = lit "Yandex" ->
  tbl_urls (db_of w filename) = None ->
  exists w',
    update_malicious_URLs updateTime vendor filename malicious_urls w
    = (Ok (), w')
    /\ same_files w w'.
Proof.
  intros Hvendor Hdb.
  exists (World (databases w) (connections w ++ [filename]) (posts w)).
  split; [|intros g; apply db_of_connect].
  unfold update_malicious_URLs.
  assert (exists column, vendorToColumn !! vendor = Some column) as [c ->].
  { destruct Hvendor as [->| ->]; by eexists. }
  unfold_M. destruct (chunked (Z.to_nat 30000) malicious_urls) as [|b bs].
  - done.
  - simpl. unfold mbind, M_bind, with_conn.
    unfold sql_update_flag, on_urls. rewrite db_of_connect, Hdb. done.
Qed.

Lemma chunked_cons {A} (n : nat) (x : A) (l : list A) :
  (0 < n)%nat -> exists b bs, chunked n (x :: l) = b :: bs.
Proof.
  intros Hn. unfold chunked. destruct n as [|n]; [lia|].
  simpl. by eexists _, _.
Qed.

(** X30.  An [updateTime] outside the 64-bit range is written nowhere.
    On a feed store, when the first fetched url encodes, [add_URLs] raises
    [OverflowError]; on a file with a [urls] table, for ["Google"] and
    ["Yandex"] and a list of urls that is not empty,
    [update_malicious_URLs] raises [OverflowError].  It is no
    [apsw.Error], so the handlers do not catch it; the transaction is
    rolled back and no table has changed. *)
Theorem updateTime_outside_int64
    (url_list_fetcher : option (list Z) -> list (list (list Z)))
    (updateTime : Z) (vendor filename : list Z) (filepath : option (list Z))
    (malicious_urls : list (list Z)) (w : world) (t : urls_table) :
  int64 updateTime = false ->
  tbl_urls (db_of w filename) = Some t ->
  (urls_schema t = feed_schema ->
   forallb encodable (take 1 (concat (url_list_fetcher filepath))) = true ->
   concat (url_list_fetcher filepath) ≠ [] ->
   exists w',
     add_URLs url_list_fetcher updateTime filename filepath w
     = (Raise OverflowError, w')
     /\ same_files w w')
  /\ (vendor = lit "Google" \/ vendor = lit "Yandex" ->
      malicious_urls ≠ [] ->
      exists w',
        update_malicious_URLs updateTime vendor filename malicious_urls w
        = (Raise OverflowError, w')
        /\ same_files w w').
Proof.
  intros Htime Hdb. split.
  - intros Hs Henc Hne.
    exists (World (databases w) (connections w ++ [filename]) (posts w)).
    split; [|intros g; apply db_of_connect].
    pose proof (for_concat (url_list_fetcher filepath)
                  (fun url =>
                     hash ← lift (compute_url_hash url);
                     sql_upsert_url (url, updateTime, hash))
                  (db_of w filename)) as E1.
    unfold add_URLs.
    replace (match filepath with
             | Some path => url_list_fetcher (Some path)
             | None => url_list_fetcher None
             end) with (url_list_fetcher filepath) by (by destruct filepath).
    destruct (concat (url_list_fetcher filepath)) as [|u us]; [done|].
    simpl in Henc. rewrite andb_true_r in Henc.
    assert (E2 : for_ (u :: us)
                   (fun url =>
                      hash ← lift (compute_url_hash url);
                      sql_upsert_url (url, updateTime, hash))
                   (db_of w filename) = Raise OverflowError).
    { simpl. unfold mbind at 1, T_bind at 1. unfold mbind, T_bind, lift.
      rewrite (compute_url_hash_encodable u Henc).
      unfold sql_upsert_url, on_urls. rewrite Hdb, Hs, Htime. reflexivity. }
    unfold_M. rewrite db_of_connect. by rewrite E1, E2.
  - intros Hvendor Hne.
    exists (World (databases w) (connections w ++ [filename]) (posts w)).
    split; [|intros g; apply db_of_connect].
    unfold update_malicious_URLs.
    assert (exists column,
              vendorToColumn !! vendor = Some column
              /\ (column = lit "lastGoogleMalicious"
                  \/ column = lit "lastYandexMalicious")) as (c & -> & Hc).
    { destruct Hvendor as [->| ->]; eexists; (split; [reflexivity|]);
        [by left|by right]. }
    destruct malicious_urls as [|u us]; [done|].
    destruct (chunked_cons (Z.to_nat 30000) u us ltac:(lia)) as (b & bs & ->).
    unfold_M. simpl. unfold mbind, M_bind, with_conn.
    unfold sql_update_flag, on_urls. rewrite db_of_connect, Hdb, Htime.
    destruct Hc as [->| ->].
    + by rewrite bool_decide_eq_true_2.
    + rewrite bool_decide_eq_false_2 by done.
      by rewrite bool_decide_eq_true_2.
Qed.

Lemma sql_max_is_max vs t : sql_max vs = Some t <-> is_max vs t.
Proof.
  unfold is_max. revert t. induction vs as [|v vs IH]; intros t; simpl.
  - split; [done|]. by intros [?%elem_of_nil _].
  - destruct v as [x|].
    + destruct (sql_max vs) as [m|] eqn:Em.
      * destruct (IH m) as [[Hin Hle] _]; [done|]. split.
        -- intros [= <-]. split.
           ++ destruct (Z.max_spec x m) as [[_ ->]|[_ ->]]; [by right|by left].
           ++ intros y [[= ->]|Hy]%elem_of_cons; [lia|].
              apply Hle in Hy. lia.
        -- intros [Ht Hmax]. f_equal.
           assert (x <= t) by (apply Hmax; left).
           assert (m <= t) by (apply Hmax; by right).
           apply elem_of_cons in Ht as [[= ->]|Ht]; [lia|].
           apply Hle in Ht. lia.
      * assert (Hnone : forall y, Some y ∉ vs).
        { intros y Hy. destruct (sql_max_ge vs y Hy) as (m & ? & _).
          congruence. }
        split.
        -- intros [= <-]. split; [left|].
           intros y [[= ->]|Hy]%elem_of_cons; [lia|]. by apply Hnone in Hy.
        -- intros [[[= ->]|Ht]%elem_of_cons _]; [done|]. by apply Hnone in Ht.
    + rewrite IH. split.
      * intros [Hin Hle]. split; [by right|].
        intros y [?|Hy]%elem_of_cons; [done|]. by apply Hle.
      * intros [[?|Hin]%elem_of_cons Hle]; [done|]. split; [done|].
        intros y Hy. apply Hle. by right.
Qed.

Lemma is_max_unique vs a b : is_max vs a -> is_max vs b -> a = b.
Proof. intros [Ha Ha'] [Hb Hb']. apply Ha' in Hb. apply Hb' in Ha. lia. Qed.

Lemma elem_of_flagged_latest rows (u : list Z) :
  u ∈ flagged_latest rows
  <-> exists r, r ∈ rows /\ urls.url r = u /\ latest_flag rows r.
Proof.
  unfold flagged_latest, latest_flag. rewrite list_elem_of_fmap.
  assert (Hsel : forall a b A B,
    Is_true (sql_where (sql_or (sql_eq a (sql_max A)) (sql_eq b (sql_max B))))
    <-> (exists t, a = Some t /\ is_max A t)
        \/ (exists t, b = Some t /\ is_max B t)).
  { intros a b A B.
    setoid_rewrite <- sql_max_is_max.
    destruct a as [a|], b as [b|], (sql_max A) as [x|], (sql_max B) as [y|];
      simpl; try destruct (Z.eqb_spec a x); try destruct (Z.eqb_spec b y);
      simpl; split; try done; try (intros _; subst; eauto; fail);
      intros [(t & H1 & H2)|(t & H1 & H2)]; congruence. }
  split.
  - intros (r & -> & [Hsql Hr]%list_elem_of_filter).
    exists r. split; [done|]. split; [done|]. by apply Hsel.
  - intros (r & Hr & <- & Hl). exists r. split; [done|].
    apply list_elem_of_filter. split; [|done]. by apply Hsel.
Qed.

Lemma retrieve_malicious_URLs__eval (filename : list Z) (w : world) :
  exists w',
    retrieve_malicious_URLs_ filename w
    = (Ok (list_to_set (flagged_latest (rows_of w filename))), w')
    /\ same_files w w'.
Proof.
  unfold retrieve_malicious_URLs_, rows_of, flagged_latest. unfold_M.
  unfold sql_select_max_lastGoogleMalicious,
    sql_select_max_lastYandexMalicious, sql_select_flagged, on_urls.
  rewrite db_of_connect.
  destruct (tbl_urls (db_of w filename)) as [t|] eqn:Ht; simpl.
  - eexists. split; [reflexivity|].
    rewrite (database_eta _ _ Ht).
    intros g. rewrite db_of_commit. case_decide; subst; done.
  - eexists. split; [done|]. done.
Qed.

Lemma execute_retrieve_malicious_URLs_ (urls_filenames : list (list Z))
    (w : world) :
  exists w',
    execute_with_ray retrieve_malicious_URLs_ urls_filenames w
    = (Ok ((fun filename =>
              list_to_set (flagged_latest (rows_of w filename)))
             <$> urls_filenames), w')
    /\ same_files w w'.
Proof.
  revert w. induction urls_filenames as [|f fs IH]; intros w.
  - eexists. split; [done|]. done.
  - destruct (retrieve_malicious_URLs__eval f w) as (w1 & E1 & S1).
    destruct (IH w1) as (w2 & E2 & S2).
    exists w2. split; [|by eapply same_files_trans].
    rewrite fmap_cons. cbn [execute_with_ray].
    unfold mbind, mret, M_bind, M_ret. rewrite E1, E2.
    do 3 f_equal. apply list_fmap_ext. intros _ g _.
    unfold rows_of. by rewrite S1.
Qed.

Lemma retrieve_malicious_URLs_eval (urls_filenames : list (list Z))
    (w : world) :
  exists l w',
    retrieve_malicious_URLs urls_filenames w = (Ok l, w')
    /\ same_files w w'
    /\ NoDup l
    /\ forall u,
         u ∈ l <->
         exists filename r,
           filename ∈ urls_filenames
           /\ r ∈ rows_of w filename /\ urls.url r = u
           /\ latest_flag (rows_of w filename) r.
Proof.
  destruct (execute_retrieve_malicious_URLs_ urls_filenames w)
    as (w' & E & S).
  eexists _, w'. split.
  { unfold retrieve_malicious_URLs. unfold mbind, M_bind. rewrite E.
    reflexivity. }
  split; [done|]. split; [apply NoDup_elements|].
  intros u. rewrite elem_of_elements, elem_of_union_list. split.
  - intros (X & (f & -> & Hf)%list_elem_of_fmap & Hu).
    apply elem_of_list_to_set, elem_of_flagged_latest in Hu
      as (r & Hr & Hurl & Hl).
    by exists f, r.
  - intros (f & r & Hf & Hr & Hurl & Hl). eexists. split.
    + apply list_elem_of_fmap. exists f. split; [reflexivity|done].
    + apply elem_of_list_to_set, elem_of_flagged_latest. by exists r.
Qed.

(** X18.  [retrieve_malicious_URLs] never fails and returns, without
    repetition, exactly the urls of the rows that carry the latest flag of
    their file: a [lastGoogleMalicious] equal to the largest one of the
    file, or a [lastYandexMalicious] equal to the largest one of the file.
    Rows flagged earlier than the latest, and rows never flagged, are not
    returned. *)
Theorem retrieve_malicious_URLs_latest (urls_filenames : list (list Z))
    (w : world) :
  exists malicious_urls w',
    retrieve_malicious_URLs urls_filenames w = (Ok malicious_urls, w')
    /\ NoDup malicious_urls
    /\ forall u,
         u ∈ malicious_urls <->
         exists filename r,
           filename ∈ urls_filenames
           /\ r ∈ rows_of w filename /\ urls.url r = u
           /\ latest_flag (rows_of w filename) r.
Proof.
  destruct (retrieve_malicious_URLs_eval urls_filenames w)
    as (l & w' & E & _ & Hnd & Hl).
  by exists l, w'.
Qed.

(** X19.  The four reading functions, [retrieve_vendor_prefixSizes],
    [get_matching_hashPrefix_urls], [identify_suspected_urls] and
    [retrieve_malicious_URLs], given prefix sizes that fit in 32 bits,
    return normally in every state of the files (a missing table gives
    the empty answer) and change no table. *)
Theorem readers_leave_the_files (vendor filename : list Z) (prefixSize : Z)
    (prefixSizes : list Z) (urls_filenames : list (list Z)) (w : world) :
  int32 prefixSize = true ->
  forallb int32 prefixSizes = true ->
  (exists l w', retrieve_vendor_prefixSizes vendor w = (Ok l, w')
                /\ same_files w w')
  /\ (exists l w',
        get_matching_hashPrefix_urls (filename, prefixSize, vendor) w
        = (Ok l, w') /\ same_files w w')
  /\ (exists l w', identify_suspected_urls vendor filename prefixSizes w
                   = (Ok l, w') /\ same_files w w')
  /\ (exists l w', retrieve_malicious_URLs urls_filenames w = (Ok l, w')
                   /\ same_files w w').
Proof.
  intros _ _. split_and!.
  - destruct (retrieve_vendor_prefixSizes_eval vendor w) as (w' & E & S).
    eauto.
  - destruct (get_matching_hashPrefix_urls_eval filename prefixSize vendor w)
      as (w' & E & S). eauto.
  - destruct (identify_suspected_urls_eval vendor filename prefixSizes w)
      as (w' & E & S). eauto.
  - destruct (retrieve_malicious_URLs_eval urls_filenames w)
      as (l & w' & E & S & _). eauto.
Qed.

Lemma rows_of_Some w f t : tbl_urls (db_of w f) = Some t -> rows_of w f = urls_rows t.
Proof. unfold rows_of. by intros ->. Qed.

(** X20.  What [update_malicious_URLs] flags, [retrieve_malicious_URLs]
    returns.  After flagging for ["Google"] at a time in the 64-bit range
    and later than every Google flag of the file, every flagged url that
    has a row is returned;
    and when at least one flagged url has a row, the urls returned are
    exactly the flagged urls with a row and the urls carrying the latest
    Yandex flag: a url flagged by Google only in an earlier run is no
    longer returned. *)
Theorem update_then_retrieve (updateTime : Z) (filename : list Z)
    (malicious_urls : list (list Z)) (w : world) (t : urls_table) :
  tbl_urls (db_of w filename) = Some t ->
  (forall r old, r ∈ urls_rows t -> urls.lastGoogleMalicious r = Some old ->
                 old < updateTime) ->
  int64 updateTime = true ->
  exists w1 l w2,
    update_malicious_URLs updateTime (lit "Google") filename malicious_urls w
    = (Ok (), w1)
    /\ retrieve_malicious_URLs [filename] w1 = (Ok l, w2)
    /\ (forall u, u ∈ malicious_urls -> u ∈ urls.url <$> urls_rows t -> u ∈ l)
    /\ ((exists u, u ∈ malicious_urls /\ u ∈ urls.url <$> urls_rows t) ->
        forall u,
          u ∈ l <->
          (u ∈ malicious_urls /\ u ∈ urls.url <$> urls_rows t)
          \/ exists r y,
               r ∈ urls_rows t /\ urls.url r = u
               /\ urls.lastYandexMalicious r = Some y
               /\ is_max (urls.lastYandexMalicious <$> urls_rows t) y).
Proof.
  intros Hdb Hold Htime. destruct t as [s rows]. cbn [urls_rows] in *.
  destruct (update_malicious_URLs_eval updateTime (lit "Google")
              (lit "lastGoogleMalicious") filename malicious_urls w s rows
              eq_refl Hdb Htime) as (w1 & E1 & Hu & _ & _).
  destruct (retrieve_malicious_URLs_eval [filename] w1)
    as (l & w2 & E2 & _ & _ & Hl0).
  exists w1, l, w2. split; [done|]. split; [done|].
  assert (Hl : forall u,
            u ∈ l <->
            exists r,
              r ∈ set_flag (lit "lastGoogleMalicious") updateTime
                    malicious_urls <$> rows
              /\ urls.url r = u
              /\ latest_flag
                   (set_flag (lit "lastGoogleMalicious") updateTime
                      malicious_urls <$> rows) r).
  { intros u. rewrite Hl0. split.
    - intros (f & r & ->%list_elem_of_singleton & Hr & Hurl & Hlat).
      rewrite (rows_of_Some _ _ _ Hu) in Hr, Hlat. eauto.
    - intros (r & Hr & Hurl & Hlat). exists filename, r.
      rewrite (rows_of_Some _ _ _ Hu). split; [left|done]. }
  clear Hl0.
  set (sf := set_flag (lit "lastGoogleMalicious") updateTime malicious_urls)
    in *.
  assert (HG : forall r, urls.lastGoogleMalicious (sf r)
                 = if bool_decide (urls.url r ∈ malicious_urls)
                   then Some updateTime else urls.lastGoogleMalicious r).
  { intros r. unfold sf, set_flag. case_bool_decide; [|done].
    by rewrite bool_decide_eq_true_2. }
  assert (HY : forall r, urls.lastYandexMalicious (sf r)
                         = urls.lastYandexMalicious r).
  { intros r. unfold sf, set_flag. case_bool_decide; [|done].
    by rewrite bool_decide_eq_true_2. }
  assert (HYs : urls.lastYandexMalicious <$> (sf <$> rows)
                = urls.lastYandexMalicious <$> rows).
  { rewrite <- list_fmap_compose. apply list_fmap_ext. intros i r _. apply HY. }
  assert (Hmax : forall r, r ∈ rows -> urls.url r ∈ malicious_urls ->
                   is_max (urls.lastGoogleMalicious <$> (sf <$> rows))
                     updateTime).
  { intros r Hr Hin. split.
    - apply list_elem_of_fmap. exists (sf r). split.
      + by rewrite HG, bool_decide_eq_true_2.
      + apply list_elem_of_fmap. eauto.
    - intros x (r' & Hx & (r0 & -> & Hr0)%list_elem_of_fmap)%list_elem_of_fmap.
      rewrite HG in Hx. case_bool_decide.
      + injection Hx as ->. lia.
      + symmetry in Hx. apply (Hold r0 x Hr0) in Hx. lia. }
  assert (Hincl : forall u, u ∈ malicious_urls -> u ∈ urls.url <$> rows ->
                    u ∈ l).
  { intros u Hin (r & -> & Hr)%list_elem_of_fmap.
    apply Hl. exists (sf r). split.
    { apply list_elem_of_fmap. eauto. }
    split; [apply url_set_flag|]. left. exists updateTime. split.
    - by rewrite HG, bool_decide_eq_true_2.
    - by apply (Hmax r). }
  split; [exact Hincl|].
  intros (u0 & Hu0 & (r0 & -> & Hr0)%list_elem_of_fmap) u. split.
  - intros (r' & (r & -> & Hr)%list_elem_of_fmap & Hurl & Hlat)%Hl.
    unfold sf in Hurl. rewrite url_set_flag in Hurl. fold sf in Hurl.
    destruct Hlat as [(x & Hx & Hm)|(y & Hy & Hm)].
    + pose proof (is_max_unique _ _ _ Hm (Hmax r0 Hr0 Hu0)) as ->.
      rewrite HG in Hx. case_bool_decide as Hin.
      * left. subst u. split; [done|]. apply list_elem_of_fmap. eauto.
      * apply (Hold r _ Hr) in Hx. lia.
    + right. exists r, y. rewrite HY in Hy. rewrite HYs in Hm. done.
  - intros [[Hin Hrow]|(r & y & Hr & Hurl & Hy & Hm)]; [by apply Hincl|].
    apply Hl. exists (sf r). split.
    { apply list_elem_of_fmap. eauto. }
    split; [unfold sf; by rewrite url_set_flag|].
    right. exists y. by rewrite HY, HYs.
Qed.

(** ** The lookup API *)

Section lookup_more.
Import SafeBrowsing.
Variables GOOGLE_API_KEY YANDEX_API_KEY : list Z.
Variable post_with_retries :
  list Z -> ThreatMatchesPayload -> option Response.

(** X21.  The two modules accept the same vendors.
    [SafeBrowsing.__init__] raises [ValueError] exactly for the vendors
    that have no column in [vendorToColumn] (for which
    [update_malicious_URLs] raises [ValueError] too); it succeeds exactly
    for ["Google"] and ["Yandex"], and then keeps the vendor's name and
    sets a positive batch size. *)
Theorem vendors_agree (vendor : list Z) :
  (__init__ GOOGLE_API_KEY YANDEX_API_KEY vendor = Raise ValueError
   <-> vendorToColumn !! vendor = None)
  /\ (is_Ok (__init__ GOOGLE_API_KEY YANDEX_API_KEY vendor)
      <-> vendor = lit "Google" \/ vendor = lit "Yandex")
  /\ (forall self,
        __init__ GOOGLE_API_KEY YANDEX_API_KEY vendor = Ok self ->
        SafeBrowsing.vendor self = vendor
        /\ 0 < maximum_url_batch_size self
        /\ exists column, vendorToColumn !! vendor = Some column).
Proof.
  unfold __init__, vendorToColumn.
  destruct (decide (vendor = lit "Google")) as [->|HG].
  { rewrite bool_decide_eq_true_2 by done. split_and!.
    - split; [done|]. by rewrite lookup_insert_eq.
    - split; [by left|]. intros _. by eexists.
    - intros self [= <-]. simpl. split; [done|]. split; [lia|].
      rewrite lookup_insert_eq. by eexists. }
  rewrite (bool_decide_eq_false_2 _ HG).
  destruct (decide (vendor = lit "Yandex")) as [->|HY].
  { rewrite bool_decide_eq_true_2 by done. split_and!.
    - split; [done|]. rewrite lookup_insert_ne by done.
      by rewrite lookup_insert_eq.
    - split; [by right|]. intros _. by eexists.
    - intros self [= <-]. simpl. split; [done|]. split; [lia|].
      rewrite lookup_insert_ne by done. rewrite lookup_insert_eq. by eexists. }
  rewrite (bool_decide_eq_false_2 _ HY). split_and!.
  - split; [|done]. intros _.
    rewrite lookup_insert_ne by done. rewrite lookup_insert_ne by done.
    apply lookup_empty.
  - split; [by intros [? ?]|]. tauto.
  - done.
Qed.

Lemma chain_matches_raises (results : list Response) (res : Response) e :
  res ∈ results -> json res = Raise e ->
  exists e', chain_matches results = Raise e'.
Proof.
  intros Hin Hres. induction results as [|r rs IH];
    [by apply elem_of_nil in Hin|].
  simpl. unfold_result. destruct (json r) as [body|e0] eqn:Hr; [|by eexists].
  apply elem_of_cons in Hin as [->|Hin]; [congruence|].
  destruct (IH Hin) as [e' ->]. by eexists.
Qed.

(** X22.  A failed request is not skipped.  When the POST of one
    batch ends in a [requests.exceptions.RequestException],
    [_threat_matches_lookup] returns an empty [Response], whose [json()]
    raises; so [get_malicious_urls] raises and returns no url, after all
    batches have been posted. *)
Theorem get_malicious_urls_failed_request (self : SafeBrowsing.t)
    (urls : gset (list Z)) (w : world) (url_batch : list (list Z)) :
  url_batch ∈ chunked (Z.to_nat (maximum_url_batch_size self)) (elements urls) ->
  post_with_retries (threatMatchesEndpoint self)
    (_threat_matches_payload url_batch) = None ->
  (exists e, (get_malicious_urls post_with_retries self urls w).1 = Raise e)
  /\ posts (get_malicious_urls post_with_retries self urls w).2
     = posts w ++
       (post_of self <$>
          chunked (Z.to_nat (maximum_url_batch_size self)) (elements urls)).
Proof.
  intros Hin Hpost. split.
  - unfold get_malicious_urls. unfold mbind, mret, M_bind, M_ret, pure_.
    rewrite execute_threat_matches_lookup.
    destruct (chain_matches_raises
                (answer_of post_with_retries self <$>
                   chunked (Z.to_nat (maximum_url_batch_size self))
                     (elements urls))
                (answer_of post_with_retries self url_batch) JSONDecodeError)
      as [e' ->].
    + apply list_elem_of_fmap. eauto.
    + unfold answer_of. by rewrite Hpost.
    + by eexists.
  - apply get_malicious_urls_posts.
Qed.

Lemma chain_matches_none (results : list Response) :
  Forall (fun res => exists body, json res = Ok body /\ matches body = None)
    results ->
  chain_matches results = Ok [].
Proof.
  induction 1 as [|r rs (body & Hb & Hm) _ IH]; [done|].
  simpl. rewrite Hb, IH. unfold_result. by rewrite Hm.
Qed.

(** X23.  When the answer to every batch is a JSON object without
    ["matches"] (the server found no threat), [get_malicious_urls] returns
    the empty list. *)
Theorem get_malicious_urls_no_matches (self : SafeBrowsing.t)
    (urls : gset (list Z)) (w : world) :
  (forall url_batch,
     url_batch ∈ chunked (Z.to_nat (maximum_url_batch_size self))
                   (elements urls) ->
     exists res body,
       post_with_retries (threatMatchesEndpoint self)
         (_threat_matches_payload url_batch) = Some res
       /\ json res = Ok body /\ matches body = None) ->
  (get_malicious_urls post_with_retries self urls w).1 = Ok [].
Proof.
  intros H. unfold get_malicious_urls.
  unfold mbind, mret, M_bind, M_ret, pure_.
  rewrite execute_threat_matches_lookup, chain_matches_none.
  - simpl. f_equal.
  - apply Forall_fmap, Forall_forall. intros b Hb.
    destruct (H b Hb) as (res & body & Hp & Hj & Hm).
    exists body. unfold answer_of. simpl. by rewrite Hp.
Qed.

Lemma chain_matches_echo (self : SafeBrowsing.t)
    (url_batches : list (list (list Z))) :
  chain_matches (answer_of echo self <$> url_batches)
  = Ok ((fun u => {| threat_url := lit "http://" ++ u |})
          <$> concat url_batches).
Proof.
  induction url_batches as [|b bs IH]; [done|].
  rewrite fmap_cons. cbn [chain_matches]. rewrite IH.
  unfold answer_of, echo. cbn. unfold_result. f_equal.
  rewrite fmap_app. f_equal. by rewrite <- list_fmap_compose.
Qed.

(** X24.  The scheme [_threat_matches_payload] puts in front of each
    url is taken off again.  For a helper built by [__init__] and urls in
    which neither ["http://"] nor ["https://"] occurs, when the server
    reports every submitted entry as a match, [get_malicious_urls] returns
    the submitted urls, each once. *)
Theorem get_malicious_urls_echo_round_trip (vendor : list Z)
    (self : SafeBrowsing.t) (urls : gset (list Z)) (w : world) :
  __init__ GOOGLE_API_KEY YANDEX_API_KEY vendor = Ok self ->
  (forall u, u ∈ urls ->
             absent (lit "https://") u = true
             /\ absent (lit "http://") u = true) ->
  (get_malicious_urls echo self urls w).1 = Ok (elements urls).
Proof.
  intros Hinit Habs.
  assert (Hcap : (0 < Z.to_nat (maximum_url_batch_size self))%nat).
  { destruct (__init___cap _ _ _ _ Hinit) as [[_ ->]|[_ ->]]; lia. }
  unfold get_malicious_urls. unfold mbind, mret, M_bind, M_ret, pure_.
  rewrite execute_threat_matches_lookup, chain_matches_echo.
  rewrite chunked_concat by done. cbn [fst]. f_equal.
  rewrite <- list_fmap_compose.
  assert (E : (strip_schemes ∘ (fun u => {| threat_url := lit "http://" ++ u |}))
              <$> elements urls = elements urls).
  { rewrite <- (list_fmap_id (elements urls)) at 2. apply list_fmap_ext.
    intros i u Hu. apply list_elem_of_lookup_2, elem_of_elements in Hu.
    destruct (Habs u Hu). simpl. by apply strip_schemes_http. }
  rewrite E. by rewrite list_to_set_elements_L.
Qed.

End lookup_more.

Section lookup_sound.
Import SafeBrowsing.
Variable post_with_retries :
  list Z -> ThreatMatchesPayload -> option Response.

Lemma chain_matches_Ok (results : list Response) :
  Forall (fun res => is_Ok (json res)) results ->
  exists ms,
    chain_matches results = Ok ms
    /\ forall x,
         x ∈ ms <->
         exists res body l,
           res ∈ results /\ json res = Ok body /\ matches body = Some l
           /\ x ∈ l.
Proof.
  induction 1 as [|r rs [body Hb] _ (ms & IH & Hms)].
  - exists []. split; [done|]. intros x. split; [by intros ?%elem_of_nil|].
    by intros (res & ? & ? & ?%elem_of_nil & _).
  - simpl. rewrite Hb, IH. unfold_result. eexists. split; [reflexivity|].
    intros x. destruct (matches body) as [l|] eqn:Hm.
    + rewrite elem_of_app, Hms. split.
      * intros [Hx|(res & b & l' & Hres & Hj & Hl & Hx)].
        -- exists r, body, l. split; [left|done].
        -- exists res, b, l'. split; [by right|done].
      * intros (res & b & l' & [->|Hres]%elem_of_cons & Hj & Hl & Hx).
        -- left. congruence.
        -- right. eauto 8.
    + rewrite Hms. split.
      * intros (res & b & l' & Hres & Hj & Hl & Hx).
        exists res, b, l'. split; [by right|done].
      * intros (res & b & l' & [->|Hres]%elem_of_cons & Hj & Hl & Hx).
        -- congruence.
        -- eauto 8.
Qed.

(** X25.  When every answer parses, [get_malicious_urls] returns,
    without repetition, exactly the urls obtained by taking the schemes off
    the [threat.url] of the matches in the answers, over all batches: each
    returned url comes from a reported match, and each reported match
    gives a returned url. *)
Theorem get_malicious_urls_sound_complete (self : SafeBrowsing.t)
    (urls : gset (list Z)) (w : world) :
  (forall url_batch,
     url_batch ∈ chunked (Z.to_nat (maximum_url_batch_size self))
                   (elements urls) ->
     is_Ok (json (answer_of post_with_retries self url_batch))) ->
  exists malicious_urls,
    (get_malicious_urls post_with_retries self urls w).1 = Ok malicious_urls
    /\ NoDup malicious_urls
    /\ forall u,
         u ∈ malicious_urls <->
         exists url_batch body l x,
           url_batch ∈ chunked (Z.to_nat (maximum_url_batch_size self))
                         (elements urls)
           /\ json (answer_of post_with_retries self url_batch) = Ok body
           /\ matches body = Some l
           /\ x ∈ l
           /\ u = strip_schemes x.
Proof.
  intros Hok.
  destruct (chain_matches_Ok
              (answer_of post_with_retries self <$>
                 chunked (Z.to_nat (maximum_url_batch_size self))
                   (elements urls))) as (ms & Hms & Hiff).
  { apply Forall_fmap, Forall_forall. exact Hok. }
  destruct (get_malicious_urls_result post_with_retries self urls w ms Hms)
    as (l & El & Hnd & Hl).
  exists l. split; [done|]. split; [done|].
  intros u. rewrite Hl. split.
  - intros (x & (res & body & l' & (b & -> & Hb)%list_elem_of_fmap
                 & Hj & Hm & Hx)%Hiff & ->).
    exists b, body, l', x. done.
  - intros (b & body & l' & x & Hb & Hj & Hm & Hx & ->).
    exists x. split; [|done]. apply Hiff.
    exists (answer_of post_with_retries self b), body, l'.
    split; [|done]. apply list_elem_of_fmap. eauto.
Qed.

End lookup_sound.

(** ** The update API and the addresses *)

Section update_more.
Import SafeBrowsing.

Lemma elem_of_range3_pos (n step i : Z) :
  0 < step ->
  forall l, range3 0 n step = Ok l ->
  (i ∈ l <-> exists k, 0 <= k /\ i = k * step /\ i < n).
Proof.
  intros Hs l. unfold range3.
  destruct (step =? 0) eqn:E0; [lia|].
  destruct (0 <? step) eqn:E1; [|lia].
  intros [= <-]. rewrite list_elem_of_fmap. rewrite Z.sub_0_r.
  split.
  - intros (k & -> & Hk%elem_of_seqZ). exists k. split; [lia|]. split; [lia|].
    assert (k <= (n + step - 1) / step - 1) as Hle by lia.
    assert (step * ((n + step - 1) / step) <= n + step - 1)
      by (apply Z.mul_div_le; lia).
    nia.
  - intros (k & Hk & -> & Hlt). exists k. split; [lia|].
    apply elem_of_seqZ. split; [lia|].
    assert (k + 1 <= (n + step - 1) / step); [|lia].
    apply Z.div_le_lower_bound; [lia|]. nia.
Qed.

Lemma range3_neg (n step : Z) :
  0 <= n -> step < 0 -> range3 0 n step = Ok [].
Proof.
  intros Hn Hs. unfold range3.
  destruct (step =? 0) eqn:E0; [lia|].
  destruct (0 <? step) eqn:E1; [lia|].
  rewrite seqZ_nil; [done|].
  assert ((0 - n - step - 1) / - step < 1); [|lia].
  apply Z.div_lt_upper_bound; lia.
Qed.

Lemma elem_of_hashes_list (addition : Addition) (raw : list Z) :
  decode_rawHashes addition = Ok raw ->
  0 < prefixSize (addition_rawHashes addition) ->
  exists l,
    hashes_list addition = Ok l
    /\ forall p,
         p ∈ l <->
         exists k,
           0 <= k
           /\ k * prefixSize (addition_rawHashes addition)
              < Z.of_nat (length raw)
           /\ p = take (Z.to_nat (prefixSize (addition_rawHashes addition)))
                    (drop (Z.to_nat
                             (k * prefixSize (addition_rawHashes addition)))
                       raw).
Proof.
  intros Hdec Hps. rewrite hashes_list_decode, Hdec.
  set (ps := prefixSize (addition_rawHashes addition)) in *.
  unfold_result.
  destruct (range3 0 (Z.of_nat (length raw)) ps) as [starts|e] eqn:Hr.
  2:{ unfold range3 in Hr. destruct (ps =? 0) eqn:E0; [lia|].
      by destruct (0 <? ps). }
  eexists. split; [reflexivity|]. intros p.
  rewrite elem_of_sorted, list_elem_of_fmap. split.
  - intros (i & -> & Hi).
    apply (elem_of_range3_pos _ _ i Hps _ Hr) in Hi as (k & Hk & -> & Hlt).
    exists k. split_and!; [done..|]. unfold slice. do 2 f_equal. lia.
  - intros (k & Hk & Hlt & ->). exists (k * ps). split.
    + unfold slice. do 2 f_equal. lia.
    + apply (elem_of_range3_pos _ _ _ Hps _ Hr). eauto.
Qed.

Lemma hashes_list_Ok (addition : Addition) (l : list (list Z)) :
  hashes_list addition = Ok l ->
  exists raw,
    decode_rawHashes addition = Ok raw
    /\ prefixSize (addition_rawHashes addition) ≠ 0
    /\ (prefixSize (addition_rawHashes addition) < 0 -> l = []).
Proof.
  rewrite hashes_list_decode.
  destruct (decode_rawHashes addition) as [raw|e]; [|done].
  unfold_result. intros H. exists raw. split; [done|].
  destruct (range3 0 (Z.of_nat (length raw))
              (prefixSize (addition_rawHashes addition))) as [starts|e] eqn:Hr;
    [|done].
  split.
  - intros E0. unfold range3 in Hr. by rewrite E0 in Hr.
  - intros Hneg. rewrite range3_neg in Hr by lia.
    injection Hr as <-. by injection H as <-.
Qed.

Lemma for_acc_additions_exact (adds : list Addition) (s s' : gset (list Z)) :
  for_acc adds
    (fun addition hash_prefixes =>
       l ← hashes_list addition; mret (hash_prefixes ∪ list_to_set l)) s
  = Ok s' ->
  forall p,
    p ∈ s' <->
    p ∈ s \/ exists addition l,
               addition ∈ adds /\ hashes_list addition = Ok l /\ p ∈ l.
Proof.
  revert s. induction adds as [|a adds IH]; intros s; simpl.
  - intros [= ->] p. split; [by left|].
    intros [?|(a & l & ?%elem_of_nil & _)]; done.
  - unfold mbind, mret, result_bind, result_ret.
    destruct (hashes_list a) as [l|e] eqn:Ha; [|done].
    intros H p. rewrite (IH _ H p), elem_of_union, elem_of_list_to_set.
    split.
    + intros [[?|?]|(a' & l' & Ha' & Hl' & Hp)].
      * by left.
      * right. exists a, l. split; [left|done].
      * right. exists a', l'. split; [by right|done].
    + intros [?|(a' & l' & [->|Ha']%elem_of_cons & Hl' & Hp)].
      * left. by left.
      * left. right. congruence.
      * right. eauto.
Qed.

Lemma for_acc_responses_exact (lurs : list ListUpdateResponse)
    (s s' : gset (list Z)) :
  for_acc lurs
    (fun list_update_response hash_prefixes =>
       for_acc (additions list_update_response)
         (fun addition hash_prefixes =>
            l ← hashes_list addition; mret (hash_prefixes ∪ list_to_set l))
         hash_prefixes) s
  = Ok s' ->
  forall p,
    p ∈ s' <->
    p ∈ s \/ exists lur addition l,
               lur ∈ lurs /\ addition ∈ additions lur
               /\ hashes_list addition = Ok l /\ p ∈ l.
Proof.
  revert s. induction lurs as [|r lurs IH]; intros s; simpl.
  - intros [= ->] p. split; [by left|].
    intros [?|(a & b & l & ?%elem_of_nil & _)]; done.
  - unfold mbind, result_bind.
    destruct (for_acc (additions r) _ s) as [s1|e] eqn:Hr; [|done].
    intros H p. rewrite (IH _ H p), (for_acc_additions_exact _ _ _ Hr p).
    split.
    + intros [[?|(a & l & Ha & Hl & Hp)]|(r' & a & l & Hr' & Ha & Hl & Hp)].
      * by left.
      * right. exists r, a, l. split; [left|done].
      * right. exists r', a, l. split; [by right|done].
    + intros [?|(r' & a & l & [->|Hr']%elem_of_cons & Ha & Hl & Hp)].
      * left. by left.
      * left. right. eauto.
      * right. exists r', a, l. done.
Qed.

(** X26.  When [get_malicious_url_hash_prefixes] returns a set, the
    set holds exactly the consecutive pieces of [prefixSize] bytes of the
    decoded [rawHashes] of the additions with a positive [prefixSize] (the
    last piece of an addition may be shorter); no member is the empty
    byte string; and every addition decoded and has a [prefixSize] other
    than 0. *)
Theorem get_malicious_url_hash_prefixes_chunks (self : SafeBrowsing.t)
    (answer : ThreatListUpdates) (lurs : list ListUpdateResponse)
    (hash_prefixes : gset (list Z)) :
  listUpdateResponses answer = Some lurs ->
  get_malicious_url_hash_prefixes self answer = Ok hash_prefixes ->
  (forall p,
     p ∈ hash_prefixes <->
     exists lur addition raw k,
       lur ∈ lurs /\ addition ∈ additions lur
       /\ decode_rawHashes addition = Ok raw
       /\ 0 < prefixSize (addition_rawHashes addition)
       /\ 0 <= k
       /\ k * prefixSize (addition_rawHashes addition) < Z.of_nat (length raw)
       /\ p = take (Z.to_nat (prefixSize (addition_rawHashes addition)))
                (drop (Z.to_nat (k * prefixSize (addition_rawHashes addition)))
                   raw))
  /\ (forall p, p ∈ hash_prefixes -> p ≠ [])
  /\ (forall lur addition,
        lur ∈ lurs -> addition ∈ additions lur ->
        is_Ok (decode_rawHashes addition)
        /\ prefixSize (addition_rawHashes addition) ≠ 0).
Proof.
  intros Hlurs. unfold get_malicious_url_hash_prefixes,
    _retrieve_threat_list_updates. rewrite Hlurs. simpl. rewrite Hlurs. simpl.
  intros H.
  pose proof (for_acc_responses_exact _ _ _ H) as Hex.
  apply for_acc_responses in H as [_ Hall].
  assert (Hchar : forall p,
     p ∈ hash_prefixes <->
     exists lur addition raw k,
       lur ∈ lurs /\ addition ∈ additions lur
       /\ decode_rawHashes addition = Ok raw
       /\ 0 < prefixSize (addition_rawHashes addition)
       /\ 0 <= k
       /\ k * prefixSize (addition_rawHashes addition) < Z.of_nat (length raw)
       /\ p = take (Z.to_nat (prefixSize (addition_rawHashes addition)))
                (drop (Z.to_nat (k * prefixSize (addition_rawHashes addition)))
                   raw)).
  { intros p. rewrite Hex. split.
    - intros [?%elem_of_empty|(lur & a & l & Hlur & Ha & Hl & Hp)]; [done|].
      destruct (hashes_list_Ok a l Hl) as (raw & Hdec & Hne & Hneg).
      destruct (decide (prefixSize (addition_rawHashes a) < 0)) as [Hlt|Hge].
      { rewrite (Hneg Hlt) in Hp. by apply elem_of_nil in Hp. }
      assert (Hps : 0 < prefixSize (addition_rawHashes a)) by lia.
      destruct (elem_of_hashes_list a raw Hdec Hps) as (l' & Hl' & Hiff).
      rewrite Hl in Hl'. injection Hl' as <-.
      destruct (proj1 (Hiff p) Hp) as (k & Hk & Hlt & Ep).
      exists lur, a, raw, k. done.
    - intros (lur & a & raw & k & Hlur & Ha & Hdec & Hps & Hk & Hlt & ->).
      right. destruct (elem_of_hashes_list a raw Hdec Hps) as (l & Hl & Hiff).
      exists lur, a, l. split_and!; [done..|]. apply Hiff. eauto. }
  split; [exact Hchar|]. split.
  - intros p (lur & a & raw & k & _ & _ & _ & Hps & Hk & Hlt & ->)%Hchar E.
    apply (f_equal length) in E. rewrite length_take, length_drop in E.
    simpl in E. lia.
  - intros lur a Hlur Ha. destruct (Hall lur a Hlur Ha) as (l & Hl & _).
    destruct (hashes_list_Ok a l Hl) as (raw & Hdec & Hne & _).
    split; [by exists raw|done].
Qed.

Lemma get_malicious_url_hash_prefixes_raises_at (self : SafeBrowsing.t)
    (answer : ThreatListUpdates) lurs lur addition e :
  listUpdateResponses answer = Some lurs ->
  lur ∈ lurs -> addition ∈ additions lur ->
  hashes_list addition = Raise e ->
  exists e', get_malicious_url_hash_prefixes self answer = Raise e'.
Proof.
  intros Hlurs Hlur Hadd Hraise.
  unfold get_malicious_url_hash_prefixes, _retrieve_threat_list_updates.
  rewrite Hlurs. simpl. rewrite Hlurs. simpl.
  eapply for_acc_raises; [exact Hlur|]. intros s.
  eapply for_acc_raises; [exact Hadd|]. intros s'.
  rewrite Hraise. by eexists.
Qed.

(** X27.  An addition whose [prefixSize] is 0 makes
    [get_malicious_url_hash_prefixes] raise: [range] refuses the step 0
    with [ValueError] once the text of the addition is decoded. *)
Theorem get_malicious_url_hash_prefixes_zero_prefixSize
    (self : SafeBrowsing.t) (answer : ThreatListUpdates)
    (lurs : list ListUpdateResponse) (lur : ListUpdateResponse)
    (addition : Addition) :
  listUpdateResponses answer = Some lurs ->
  lur ∈ lurs -> addition ∈ additions lur ->
  prefixSize (addition_rawHashes addition) = 0 ->
  (exists e, get_malicious_url_hash_prefixes self answer = Raise e)
  /\ (is_Ok (decode_rawHashes addition) ->
      hashes_list addition = Raise ValueError).
Proof.
  intros Hlurs Hlur Hadd Hps.
  assert (Hraise : exists e, hashes_list addition = Raise e
            /\ (is_Ok (decode_rawHashes addition) -> e = ValueError)).
  { rewrite hashes_list_decode.
    destruct (decode_rawHashes addition) as [raw|e].
    - exists ValueError. split; [|done].
      unfold_result. unfold range3. by rewrite Hps.
    - exists e. split; [done|]. by intros [? ?]. }
  destruct Hraise as (e & He & Hv). split.
  - by eapply get_malicious_url_hash_prefixes_raises_at.
  - intros Hok. by rewrite He, (Hv Hok).
Qed.

End update_more.

(** X28.  [int_addr_to_ip_and_hash] raises [struct.error] exactly
    outside [0, 2^32).  Inside, it returns the dotted quad of the four
    octets of the address, most significant first, each written in decimal
    so that it reads back as the octet, together with the hash of that
    text, 32 bytes long.  Two addresses with the same text are the same
    address. *)
Theorem int_addr_to_ip_and_hash_range (int_addr : Z) :
  (int_addr_to_ip_and_hash int_addr = Raise struct_error
   <-> ~ (0 <= int_addr < 2 ^ 32))
  /\ (0 <= int_addr < 2 ^ 32 ->
      exists a b c d ip hash,
        int_addr_to_ip_and_hash int_addr = Ok (ip, hash)
        /\ 0 <= a < 256 /\ 0 <= b < 256 /\ 0 <= c < 256 /\ 0 <= d < 256
        /\ int_addr = a * 2 ^ 24 + b * 2 ^ 16 + c * 2 ^ 8 + d
        /\ ip = decimal a ++ lit "." ++ decimal b ++ lit "." ++ decimal c
                  ++ lit "." ++ decimal d
        /\ undecimal (decimal a) = a /\ undecimal (decimal b) = b
        /\ undecimal (decimal c) = c /\ undecimal (decimal d) = d
        /\ compute_url_hash ip = Ok hash
        /\ length hash = 32%nat)
  /\ (forall other ip hash hash',
        int_addr_to_ip_and_hash int_addr = Ok (ip, hash) ->
        int_addr_to_ip_and_hash other = Ok (ip, hash') ->
        other = int_addr).
Proof.
  assert (Hout : ~ (0 <= int_addr < 2 ^ 32) ->
                 int_addr_to_ip_and_hash int_addr = Raise struct_error).
  { intros H. unfold int_addr_to_ip_and_hash, struct_pack_I.
    destruct ((0 <=? int_addr) && (int_addr <? 2 ^ 32)) eqn:E; [|done].
    apply andb_prop in E as [?%Z.leb_le ?%Z.ltb_lt]. lia. }
  assert (Hin : forall x, int_addr_to_ip_and_hash x <> Raise struct_error ->
                          0 <= x < 2 ^ 32).
  { intros x H. destruct (decide (0 <= x < 2 ^ 32)) as [|Hx]; [done|].
    exfalso. apply H. unfold int_addr_to_ip_and_hash, struct_pack_I.
    destruct ((0 <=? x) && (x <? 2 ^ 32)) eqn:E; [|done].
    apply andb_prop in E as [?%Z.leb_le ?%Z.ltb_lt]. lia. }
  split_and!.
  - split; [|exact Hout]. intros E Hr.
    rewrite (int_addr_to_ip_and_hash_eval _ Hr) in E. done.
  - intros Hr. pose proof (ip_text_octets _ Hr) as (Ha & Hb & Hc & Hd).
    exists (int_addr / 2 ^ 24), (int_addr / 2 ^ 16 mod 256),
      (int_addr / 2 ^ 8 mod 256), (int_addr mod 256).
    eexists _, _.
    split; [apply (int_addr_to_ip_and_hash_eval _ Hr)|].
    split; [exact Ha|]. split; [exact Hb|]. split; [exact Hc|].
    split; [exact Hd|]. split.
    { pose proof (Z.div_mod int_addr (2 ^ 8) ltac:(lia)) as D1.
      pose proof (Z.div_mod (int_addr / 2 ^ 8) 256 ltac:(lia)) as D2.
      pose proof (Z.div_mod (int_addr / 2 ^ 16) 256 ltac:(lia)) as D3.
      replace (int_addr / 2 ^ 8 / 256) with (int_addr / 2 ^ 16) in D2
        by (rewrite Z.div_div by lia; reflexivity).
      replace (int_addr / 2 ^ 16 / 256) with (int_addr / 2 ^ 24) in D3
        by (rewrite Z.div_div by lia; reflexivity).
      change (int_addr mod 2 ^ 8) with (int_addr mod 256) in D1.
      lia. }
    split; [reflexivity|].
    split; [by apply decimal_octet|]. split; [by apply decimal_octet|].
    split; [by apply decimal_octet|]. split; [by apply decimal_octet|].
    assert (Henc : encodable (ip_text int_addr) = true)
      by (by apply dotted_quad_ascii).
    split; [by apply compute_url_hash_encodable|].
    pose proof (compute_url_hash_encodable _ Henc) as E.
    rewrite compute_url_hash_eq in E.
    destruct (encode (ip_text int_addr)) as [bs|]; [|done].
    injection E as <-. apply length_sha256.
  - intros other ip h h' E1 E2.
    assert (H1 : 0 <= int_addr < 2 ^ 32) by (apply Hin; congruence).
    assert (H2 : 0 <= other < 2 ^ 32) by (apply Hin; congruence).
    rewrite (int_addr_to_ip_and_hash_eval _ H1) in E1.
    rewrite (int_addr_to_ip_and_hash_eval _ H2) in E2.
    injection E1 as <- _. injection E2 as E2 _.
    by apply ip_text_inj.
Qed.

(** ** The properties at the worlds of the examples *)

Lemma add_URLs_keeps_invariants_witness :
  tbl_urls (db_of w_feed (lit "feed"))
  = Some (UrlsTable feed_schema (rows_of w_feed (lit "feed")))
  /\ forallb encodable (concat [[lit "a.com"; lit "c.net"]]) = true
  /\ int64 20 = true
  /\ exists w' rows',
       add_URLs (fun _ => [[lit "a.com"; lit "c.net"]]) 20 (lit "feed") None
         w_feed = (Ok (), w')
       /\ tbl_urls (db_of w' (lit "feed")) = Some (UrlsTable feed_schema rows')
       /\ (forall u, u ∈ urls.url <$> rows' <->
                     u ∈ urls.url <$> rows_of w_feed (lit "feed")
                     \/ u ∈ concat [[lit "a.com"; lit "c.net"]])
       /\ (NoDup (urls.url <$> rows_of w_feed (lit "feed")) ->
           NoDup (urls.url <$> rows'))
       /\ (Forall hashed (rows_of w_feed (lit "feed")) -> Forall hashed rows').
Proof.
  assert (H1 : tbl_urls (db_of w_feed (lit "feed"))
               = Some (UrlsTable feed_schema (rows_of w_feed (lit "feed"))))
    by (vm_compute; reflexivity).
  assert (H2 : forallb encodable (concat [[lit "a.com"; lit "c.net"]]) = true)
    by (vm_compute; reflexivity).
  split; [exact H1|]. split; [exact H2|]. split; [reflexivity|].
  destruct (add_URLs_keeps_invariants
              (fun _ => [[lit "a.com"; lit "c.net"]]) 20 (lit "feed") None
              w_feed (rows_of w_feed (lit "feed")) H1 H2 eq_refl)
    as (w' & rows' & E & Ht & Hu & Hn & _ & Hh & _).
  exists w', rows'. split_and!; [exact E|exact Ht|exact Hu|exact Hn|exact Hh].
Defined.

Lemma add_URLs_idempotent_witness :
  tbl_urls (db_of w_feed (lit "feed"))
  = Some (UrlsTable feed_schema (rows_of w_feed (lit "feed")))
  /\ forallb encodable (concat [[lit "a.com"; lit "c.net"]]) = true
  /\ int64 20 = true
  /\ exists w1 w2,
       add_URLs (fun _ => [[lit "a.com"; lit "c.net"]]) 20 (lit "feed") None
         w_feed = (Ok (), w1)
       /\ add_URLs (fun _ => [[lit "a.com"; lit "c.net"]]) 20 (lit "feed") None
            w1 = (Ok (), w2)
       /\ same_files w1 w2.
Proof.
  assert (H1 : tbl_urls (db_of w_feed (lit "feed"))
               = Some (UrlsTable feed_schema (rows_of w_feed (lit "feed"))))
    by (vm_compute; reflexivity).
  assert (H2 : forallb encodable (concat [[lit "a.com"; lit "c.net"]]) = true)
    by (vm_compute; reflexivity).
  split; [exact H1|]. split; [exact H2|]. split; [reflexivity|].
  exact (add_URLs_idempotent
           (fun _ => [[lit "a.com"; lit "c.net"]]) 20 (lit "feed") None
           w_feed (rows_of w_feed (lit "feed")) H1 H2 eq_refl).
Defined.

Lemma add_URLs_rolls_back_witness :
  tbl_urls (db_of w_feed (lit "feed"))
  = Some (UrlsTable feed_schema (rows_of w_feed (lit "feed")))
  /\ surrogate_url ∈ concat [[lit "c.net"; surrogate_url]]
  /\ encodable surrogate_url = false
  /\ int64 20 = true
  /\ exists w',
       add_URLs (fun _ => [[lit "c.net"; surrogate_url]]) 20 (lit "feed") None
         w_feed = (Raise UnicodeEncodeError, w')
       /\ same_files w_feed w'.
Proof.
  assert (H1 : tbl_urls (db_of w_feed (lit "feed"))
               = Some (UrlsTable feed_schema (rows_of w_feed (lit "feed"))))
    by (vm_compute; reflexivity).
  assert (H2 : surrogate_url ∈ concat [[lit "c.net"; surrogate_url]]).
  { simpl. right. left. }
  assert (H3 : encodable surrogate_url = false) by (vm_compute; reflexivity).
  split; [exact H1|]. split; [exact H2|]. split; [exact H3|].
  split; [reflexivity|].
  exact (add_URLs_rolls_back
           (fun _ => [[lit "c.net"; surrogate_url]]) 20 (lit "feed") None
           w_feed (rows_of w_feed (lit "feed")) surrogate_url H1 H2 H3
           eq_refl).
Defined.

Lemma add_URLs_without_feed_table_witness :
  (forall rows,
     tbl_urls (db_of w_empty (lit "feed")) ≠ Some (UrlsTable feed_schema rows))
  /\ exists r w',
       add_URLs (fun _ => [[lit "a.com"]]) 20 (lit "feed") None w_empty
       = (r, w')
       /\ same_files w_empty w'
       /\ (forallb encodable (take 1 (concat [[lit "a.com"]])) = true
           -> r = Ok ()).
Proof.
  assert (H1 : forall rows,
            tbl_urls (db_of w_empty (lit "feed"))
            ≠ Some (UrlsTable feed_schema rows)).
  { intros rows H. vm_compute in H. discriminate. }
  split; [exact H1|].
  exact (add_URLs_without_feed_table (fun _ => [[lit "a.com"]]) 20 (lit "feed")
           None w_empty H1).
Defined.

Lemma add_IPs_idempotent_witness :
  tbl_urls (db_of w_ipv4_ten_rows (lit "ipv4"))
  = Some (UrlsTable ips_schema (ip_rows 10))
  /\ exists w1 w2,
       add_IPs (lit "ipv4") w_ipv4_ten_rows = (Ok (), w1)
       /\ add_IPs (lit "ipv4") w1 = (Ok (), w2)
       /\ max_rowid (rows_of w1 (lit "ipv4")) = Some ips_to_generate
       /\ rows_of w2 (lit "ipv4") = rows_of w1 (lit "ipv4").
Proof.
  assert (H1 : tbl_urls (db_of w_ipv4_ten_rows (lit "ipv4"))
               = Some (UrlsTable ips_schema (ip_rows 10)))
    by (vm_compute; reflexivity).
  split; [exact H1|].
  destruct (add_IPs_idempotent (lit "ipv4") w_ipv4_ten_rows (ip_rows 10) H1)
    as (w1 & w2 & E1 & E2 & Hm & Hr & _).
  exists w1, w2. split_and!; [exact E1|exact E2|exact Hm|exact Hr].
Defined.

Lemma add_IPs_without_table_witness :
  tbl_urls (db_of w_empty (lit "ipv4")) = None
  /\ exists w', add_IPs (lit "ipv4") w_empty = (Ok (), w')
                /\ same_files w_empty w'.
Proof.
  assert (H1 : tbl_urls (db_of w_empty (lit "ipv4")) = None)
    by (vm_compute; reflexivity).
  split; [exact H1|].
  exact (add_IPs_without_table (lit "ipv4") w_empty H1).
Defined.

Lemma add_IPs_regeneration_clears_flags_witness :
  tbl_urls (db_of w_ipv4_ten_rows (lit "ipv4"))
  = Some (UrlsTable ips_schema (ip_rows 10))
  /\ max_rowid (ip_rows 10) ≠ Some ips_to_generate
  /\ exists w',
       add_IPs (lit "ipv4") w_ipv4_ten_rows = (Ok (), w')
       /\ forallb unflagged (rows_of w' (lit "ipv4")) = true
       /\ (retrieve_malicious_URLs [lit "ipv4"] w').1 = Ok [].
Proof.
  assert (H1 : tbl_urls (db_of w_ipv4_ten_rows (lit "ipv4"))
               = Some (UrlsTable ips_schema (ip_rows 10)))
    by (vm_compute; reflexivity).
  assert (H2 : max_rowid (ip_rows 10) ≠ Some ips_to_generate).
  { intros H. vm_compute in H. discriminate. }
  split; [exact H1|]. split; [exact H2|].
  exact (add_IPs_regeneration_clears_flags (lit "ipv4") w_ipv4_ten_rows
           (ip_rows 10) H1 H2).
Defined.

Lemma add_maliciousHashPrefixes_idempotent_witness :
  tbl_maliciousHashPrefixes (db_of w_prefixes (lit "malicious"))
  = Some (prefixes_of w_prefixes)
  /\ exists w1 w2,
       add_maliciousHashPrefixes {[ [9; 9; 9; 9] ]} (lit "Google") w_prefixes
       = (Ok (), w1)
       /\ add_maliciousHashPrefixes {[ [9; 9; 9; 9] ]} (lit "Google") w1
          = (Ok (), w2)
       /\ same_files w1 w2.
Proof.
  assert (H1 : tbl_maliciousHashPrefixes (db_of w_prefixes (lit "malicious"))
               = Some (prefixes_of w_prefixes)) by (vm_compute; reflexivity).
  split; [exact H1|].
  exact (add_maliciousHashPrefixes_idempotent {[ [9; 9; 9; 9] ]} (lit "Google")
           w_prefixes (prefixes_of w_prefixes) H1).
Defined.

Lemma retrieve_vendor_prefixSizes_after_add_witness :
  tbl_maliciousHashPrefixes (db_of w_prefixes (lit "malicious"))
  = Some (prefixes_of w_prefixes)
  /\ exists w1 prefixSizes w2,
       add_maliciousHashPrefixes {[ [9; 9; 9; 9]; [7; 7; 7; 7; 7] ]}
         (lit "Google") w_prefixes = (Ok (), w1)
       /\ retrieve_vendor_prefixSizes (lit "Google") w1 = (Ok prefixSizes, w2)
       /\ NoDup prefixSizes
       /\ forall n, n ∈ prefixSizes <->
                    exists p, p ∈ ({[ [9; 9; 9; 9]; [7; 7; 7; 7; 7] ]}
                                   : gset (list Z))
                              /\ n = Z.of_nat (length p).
Proof.
  assert (H1 : tbl_maliciousHashPrefixes (db_of w_prefixes (lit "malicious"))
               = Some (prefixes_of w_prefixes)) by (vm_compute; reflexivity).
  split; [exact H1|].
  exact (retrieve_vendor_prefixSizes_after_add
           {[ [9; 9; 9; 9]; [7; 7; 7; 7; 7] ]} (lit "Google")
           w_prefixes (prefixes_of w_prefixes) H1).
Defined.

Lemma add_maliciousHashPrefixes_empty_clears_vendor_witness :
  tbl_maliciousHashPrefixes (db_of w_prefixes (lit "malicious"))
  = Some (prefixes_of w_prefixes)
  /\ length (prefixes_of w_prefixes) = 2%nat
  /\ exists w1,
       add_maliciousHashPrefixes ∅ (lit "Yandex") w_prefixes = (Ok (), w1)
       /\ prefixes_of w1
          = filter (fun r => maliciousHashPrefixes.vendor r ≠ lit "Yandex")
              (prefixes_of w_prefixes)
       /\ (retrieve_vendor_prefixSizes (lit "Yandex") w1).1 = Ok [].
Proof.
  assert (H1 : tbl_maliciousHashPrefixes (db_of w_prefixes (lit "malicious"))
               = Some (prefixes_of w_prefixes)) by (vm_compute; reflexivity).
  split; [exact H1|]. split; [vm_compute; reflexivity|].
  destruct (add_maliciousHashPrefixes_empty_clears_vendor (lit "Yandex")
              w_prefixes (prefixes_of w_prefixes) H1) as (w1 & E & Hp & Hs & _).
  exists w1. split_and!; [exact E|exact Hp|exact Hs].
Defined.

Lemma add_maliciousHashPrefixes_without_table_witness :
  tbl_maliciousHashPrefixes (db_of w_empty (lit "malicious")) = None
  /\ exists w',
       add_maliciousHashPrefixes {[ [9; 9; 9; 9] ]} (lit "Google") w_empty
       = (Ok (), w')
       /\ same_files w_empty w'.
Proof.
  assert (H1 : tbl_maliciousHashPrefixes (db_of w_empty (lit "malicious")) = None)
    by (vm_compute; reflexivity).
  split; [exact H1|].
  exact (add_maliciousHashPrefixes_without_table {[ [9; 9; 9; 9] ]}
           (lit "Google") w_empty H1).
Defined.

Lemma identify_suspected_urls_sound_complete_witness :
  forallb prefix_ok (prefixes_of w_two_sizes) = true
  /\ length (prefixes_of w_two_sizes) = 2%nat
  /\ exists prefixSizes w1 suspected_urls w2,
       retrieve_vendor_prefixSizes (lit "Google") w_two_sizes
       = (Ok prefixSizes, w1)
       /\ identify_suspected_urls (lit "Google") (lit "feed") prefixSizes w1
          = (Ok suspected_urls, w2)
       /\ same_files w_two_sizes w2
       /\ forall u,
            u ∈ suspected_urls <->
            exists r p,
              r ∈ rows_of w_two_sizes (lit "feed") /\ urls.url r = u
              /\ p ∈ prefixes_of w_two_sizes
              /\ maliciousHashPrefixes.vendor p = lit "Google"
              /\ maliciousHashPrefixes.hashPrefix p `prefix_of` urls.hash r.
Proof.
  assert (H1 : forallb prefix_ok (prefixes_of w_two_sizes) = true)
    by (vm_compute; reflexivity).
  split; [exact H1|]. split; [vm_compute; reflexivity|].
  exact (identify_suspected_urls_sound_complete (lit "Google") (lit "feed")
           w_two_sizes H1).
Defined.

Lemma update_malicious_URLs_sets_flag_witness :
  (lit "Google" = lit "Google" \/ lit "Google" = lit "Yandex")
  /\ tbl_urls (db_of w_feed (lit "feed"))
     = Some (UrlsTable feed_schema (rows_of w_feed (lit "feed")))
  /\ int64 30 = true
  /\ length (rows_of w_feed (lit "feed")) = 2%nat
  /\ exists w' rows',
       update_malicious_URLs 30 (lit "Google") (lit "feed") [lit "a.com"]
         w_feed = (Ok (), w')
       /\ tbl_urls (db_of w' (lit "feed")) = Some (UrlsTable feed_schema rows')
       /\ length rows' = length (rows_of w_feed (lit "feed")).
Proof.
  assert (H0 : lit "Google" = lit "Google" \/ lit "Google" = lit "Yandex")
    by (left; reflexivity).
  assert (H1 : tbl_urls (db_of w_feed (lit "feed"))
               = Some (UrlsTable feed_schema (rows_of w_feed (lit "feed"))))
    by (vm_compute; reflexivity).
  split; [exact H0|]. split; [exact H1|]. split; [reflexivity|].
  split; [vm_compute; reflexivity|].
  destruct (update_malicious_URLs_sets_flag 30 (lit "Google") (lit "feed")
              [lit "a.com"] w_feed
              (UrlsTable feed_schema (rows_of w_feed (lit "feed"))) H0 H1
              eq_refl)
    as (w' & rows' & E & Ht & Hl & _).
  exists w', rows'. split_and!; [exact E|exact Ht|exact Hl].
Defined.

Lemma update_malicious_URLs_without_table_witness :
  (lit "Yandex" = lit "Google" \/ lit "Yandex" = lit "Yandex")
  /\ tbl_urls (db_of w_empty (lit "feed")) = None
  /\ exists w',
       update_malicious_URLs 30 (lit "Yandex") (lit "feed") [lit "a.com"]
         w_empty = (Ok (), w')
       /\ same_files w_empty w'.
Proof.
  assert (H0 : lit "Yandex" = lit "Google" \/ lit "Yandex" = lit "Yandex")
    by (right; reflexivity).
  assert (H1 : tbl_urls (db_of w_empty (lit "feed")) = None)
    by (vm_compute; reflexivity).
  split; [exact H0|]. split; [exact H1|].
  exact (update_malicious_URLs_without_table 30 (lit "Yandex") (lit "feed")
           [lit "a.com"] w_empty H0 H1).
Defined.

Lemma update_then_retrieve_witness :
  tbl_urls (db_of w_feed (lit "feed"))
  = Some (UrlsTable feed_schema (rows_of w_feed (lit "feed")))
  /\ (forall r old,
        r ∈ rows_of w_feed (lit "feed") ->
        urls.lastGoogleMalicious r = Some old -> old < 30)
  /\ int64 30 = true
  /\ lit "a.com" ∈ urls.url <$> rows_of w_feed (lit "feed")
  /\ exists w1 l w2,
       update_malicious_URLs 30 (lit "Google") (lit "feed") [lit "a.com"]
         w_feed = (Ok (), w1)
       /\ retrieve_malicious_URLs [lit "feed"] w1 = (Ok l, w2)
       /\ (forall u, u ∈ [lit "a.com"] ->
                     u ∈ urls.url <$> rows_of w_feed (lit "feed") -> u ∈ l).
Proof.
  assert (H1 : tbl_urls (db_of w_feed (lit "feed"))
               = Some (UrlsTable feed_schema (rows_of w_feed (lit "feed"))))
    by (vm_compute; reflexivity).
  assert (H2 : forall r old,
            r ∈ urls_rows (UrlsTable feed_schema (rows_of w_feed (lit "feed"))) ->
            urls.lastGoogleMalicious r = Some old -> old < 30).
  { assert (Hu : forallb unflagged (rows_of w_feed (lit "feed")) = true)
      by (vm_compute; reflexivity).
    intros r old Hr Hg. cbn [urls_rows] in Hr.
    rewrite forallb_forall in Hu. apply list_elem_of_In, Hu in Hr.
    unfold unflagged in Hr. rewrite Hg in Hr. discriminate. }
  split; [exact H1|]. split; [exact H2|]. split; [reflexivity|].
  split; [vm_compute; left|].
  destruct (update_then_retrieve 30 (lit "feed") [lit "a.com"] w_feed
              (UrlsTable feed_schema (rows_of w_feed (lit "feed"))) H1 H2
              eq_refl)
    as (w1 & l & w2 & E1 & E2 & Hincl & _).
  exists w1, l, w2. split_and!; [exact E1|exact E2|exact Hincl].
Defined.

Lemma get_malicious_urls_failed_request_witness :
  [lit "a.com"] ∈ chunked (Z.to_nat (SafeBrowsing.maximum_url_batch_size google))
                    (elements ({[ lit "a.com" ]} : gset (list Z)))
  /\ unreachable (SafeBrowsing.threatMatchesEndpoint google)
       (SafeBrowsing._threat_matches_payload [lit "a.com"]) = None
  /\ (exists e,
        (SafeBrowsing.get_malicious_urls unreachable google {[ lit "a.com" ]}
           w_empty).1 = Raise e)
  /\ length (posts (SafeBrowsing.get_malicious_urls unreachable google
                      {[ lit "a.com" ]} w_empty).2) = 1%nat.
Proof.
  assert (H1 : [lit "a.com"]
               ∈ chunked (Z.to_nat (SafeBrowsing.maximum_url_batch_size google))
                   (elements ({[ lit "a.com" ]} : gset (list Z)))).
  { vm_compute. left. }
  assert (H2 : unreachable (SafeBrowsing.threatMatchesEndpoint google)
                 (SafeBrowsing._threat_matches_payload [lit "a.com"]) = None)
    by reflexivity.
  split; [exact H1|]. split; [exact H2|].
  destruct (get_malicious_urls_failed_request unreachable google
              {[ lit "a.com" ]} w_empty [lit "a.com"] H1 H2) as [He Hp].
  split; [exact He|]. rewrite Hp. vm_compute. reflexivity.
Defined.

Lemma get_malicious_urls_no_matches_witness :
  (forall url_batch,
     url_batch ∈ chunked (Z.to_nat (SafeBrowsing.maximum_url_batch_size google))
                   (elements ({[ lit "a.com" ]} : gset (list Z))) ->
     exists res body,
       no_threats (SafeBrowsing.threatMatchesEndpoint google)
         (SafeBrowsing._threat_matches_payload url_batch) = Some res
       /\ json res = Ok body /\ matches body = None)
  /\ (SafeBrowsing.get_malicious_urls no_threats google {[ lit "a.com" ]}
        w_empty).1 = Ok [].
Proof.
  assert (H1 : forall url_batch,
     url_batch ∈ chunked (Z.to_nat (SafeBrowsing.maximum_url_batch_size google))
                   (elements ({[ lit "a.com" ]} : gset (list Z))) ->
     exists res body,
       no_threats (SafeBrowsing.threatMatchesEndpoint google)
         (SafeBrowsing._threat_matches_payload url_batch) = Some res
       /\ json res = Ok body /\ matches body = None).
  { intros b _. eexists _, _. split; [reflexivity|]. split; reflexivity. }
  split; [exact H1|].
  exact (get_malicious_urls_no_matches no_threats google {[ lit "a.com" ]}
           w_empty H1).
Defined.

Lemma get_malicious_urls_echo_round_trip_witness :
  SafeBrowsing.__init__ (lit "k") (lit "k") (lit "Google") = Ok google
  /\ (forall u, u ∈ ({[ lit "a.com"; lit "b.org" ]} : gset (list Z)) ->
                absent (lit "https://") u = true
                /\ absent (lit "http://") u = true)
  /\ (SafeBrowsing.get_malicious_urls echo google
        {[ lit "a.com"; lit "b.org" ]} w_empty).1
     = Ok (elements ({[ lit "a.com"; lit "b.org" ]} : gset (list Z))).
Proof.
  assert (H2 : forall u, u ∈ ({[ lit "a.com"; lit "b.org" ]} : gset (list Z)) ->
                absent (lit "https://") u = true
                /\ absent (lit "http://") u = true).
  { intros u [->%elem_of_singleton| ->%elem_of_singleton]%elem_of_union;
      split; vm_compute; reflexivity. }
  split; [exact google_init|]. split; [exact H2|].
  exact (get_malicious_urls_echo_round_trip (lit "k") (lit "k") (lit "Google")
           google {[ lit "a.com"; lit "b.org" ]} w_empty google_init H2).
Defined.

Lemma get_malicious_urls_sound_complete_witness :
  (forall url_batch,
     url_batch ∈ chunked (Z.to_nat (SafeBrowsing.maximum_url_batch_size google))
                   (elements ({[ lit "a.com" ]} : gset (list Z))) ->
     is_Ok (json (SafeBrowsing.answer_of echo google url_batch)))
  /\ exists malicious_urls,
       (SafeBrowsing.get_malicious_urls echo google {[ lit "a.com" ]}
          w_empty).1 = Ok malicious_urls
       /\ NoDup malicious_urls.
Proof.
  assert (H1 : forall url_batch,
     url_batch ∈ chunked (Z.to_nat (SafeBrowsing.maximum_url_batch_size google))
                   (elements ({[ lit "a.com" ]} : gset (list Z))) ->
     is_Ok (json (SafeBrowsing.answer_of echo google url_batch))).
  { intros b _. eexists. reflexivity. }
  split; [exact H1|].
  destruct (get_malicious_urls_sound_complete echo google {[ lit "a.com" ]}
              w_empty H1) as (l & E & Hnd & _).
  exists l. split; [exact E|exact Hnd].
Defined.

Lemma get_malicious_url_hash_prefixes_chunks_witness :
  listUpdateResponses answer_short_tail
  = Some (default [] (listUpdateResponses answer_short_tail))
  /\ SafeBrowsing.get_malicious_url_hash_prefixes google answer_short_tail
     = Ok {[ [1; 2; 3; 4]; [5] ]}
  /\ (forall p, p ∈ ({[ [1; 2; 3; 4]; [5] ]} : gset (list Z)) -> p ≠ []).
Proof.
  assert (H1 : listUpdateResponses answer_short_tail
               = Some (default [] (listUpdateResponses answer_short_tail)))
    by reflexivity.
  assert (H2 : SafeBrowsing.get_malicious_url_hash_prefixes google
                 answer_short_tail = Ok {[ [1; 2; 3; 4]; [5] ]})
    by (vm_compute; reflexivity).
  split; [exact H1|]. split; [exact H2|].
  destruct (get_malicious_url_hash_prefixes_chunks google answer_short_tail
              _ _ H1 H2) as (_ & Hne & _).
  exact Hne.
Defined.

Lemma get_malicious_url_hash_prefixes_zero_prefixSize_witness :
  let addition := {| addition_rawHashes :=
                       {| prefixSize := 0; rawHashes := lit "AQIDBA==" |} |} in
  let lur := {| additions := [addition] |} in
  listUpdateResponses answer_zero_size = Some [lur]
  /\ lur ∈ [lur] /\ addition ∈ additions lur
  /\ prefixSize (addition_rawHashes addition) = 0
  /\ (exists e,
        SafeBrowsing.get_malicious_url_hash_prefixes google answer_zero_size
        = Raise e)
  /\ (is_Ok (SafeBrowsing.decode_rawHashes addition) ->
      SafeBrowsing.hashes_list addition = Raise ValueError).
Proof.
  intros addition lur.
  assert (H1 : listUpdateResponses answer_zero_size = Some [lur])
    by reflexivity.
  assert (H2 : lur ∈ [lur]) by left.
  assert (H3 : addition ∈ additions lur) by left.
  assert (H4 : prefixSize (addition_rawHashes addition) = 0) by reflexivity.
  split; [exact H1|]. split; [exact H2|]. split; [exact H3|].
  split; [exact H4|].
  exact (get_malicious_url_hash_prefixes_zero_prefixSize google
           answer_zero_size [lur] lur addition H1 H2 H3 H4).
Defined.

Lemma readers_leave_the_files_witness :
  int32 4 = true
  /\ forallb int32 [4; 8] = true
  /\ (exists l w',
        get_matching_hashPrefix_urls (lit "feed", 4, lit "Google") w_two_sizes
        = (Ok l, w') /\ same_files w_two_sizes w')
  /\ (exists l w',
        identify_suspected_urls (lit "Google") (lit "feed") [4; 8] w_two_sizes
        = (Ok l, w') /\ same_files w_two_sizes w').
Proof.
  assert (H1 : int32 4 = true) by reflexivity.
  assert (H2 : forallb int32 [4; 8] = true) by reflexivity.
  split; [exact H1|]. split; [exact H2|].
  destruct (readers_leave_the_files (lit "Google") (lit "feed") 4 [4; 8]
              [lit "feed"] w_two_sizes H1 H2) as (_ & Hg & Hi & _).
  split; [exact Hg|exact Hi].
Defined.

Lemma updateTime_outside_int64_witness :
  int64 (2 ^ 63) = false
  /\ tbl_urls (db_of w_feed (lit "feed"))
     = Some (UrlsTable feed_schema (rows_of w_feed (lit "feed")))
  /\ (exists w',
        add_URLs (fun _ => [[lit "a.com"]]) (2 ^ 63) (lit "feed") None w_feed
        = (Raise OverflowError, w')
        /\ same_files w_feed w')
  /\ (exists w',
        update_malicious_URLs (2 ^ 63) (lit "Google") (lit "feed")
          [lit "a.com"] w_feed
        = (Raise OverflowError, w')
        /\ same_files w_feed w').
Proof.
  assert (H1 : int64 (2 ^ 63) = false) by reflexivity.
  assert (H2 : tbl_urls (db_of w_feed (lit "feed"))
               = Some (UrlsTable feed_schema (rows_of w_feed (lit "feed"))))
    by (vm_compute; reflexivity).
  split; [exact H1|]. split; [exact H2|].
  destruct (updateTime_outside_int64 (fun _ => [[lit "a.com"]]) (2 ^ 63)
              (lit "Google") (lit "feed") None [lit "a.com"] w_feed
              (UrlsTable feed_schema (rows_of w_feed (lit "feed"))) H1 H2)
    as [Ha Hu].
  split.
  - apply Ha; [reflexivity|vm_compute; reflexivity|discriminate].
  - apply Hu; [by left|discriminate].
Defined.
